(** * Slot lifecycle and ping-quota engine of the slot watcher

    A shallow embedding of the in-memory store ([MemStorage]), the tier
    table ([shopTypes]), the HTTP create-slot route and the Discord bot
    handlers ([handleSlotAdd], [handleSlotRemove], [handleEveryonePing],
    [revokeSlotPermissions], the expiration checker), followed by the
    properties of the entitlement engine that hold or fail on them.

    Conventions.
    - A JS [Date] is its number of milliseconds since the epoch, a [Z].
      A [Date] object is always truthy; only [null]/[undefined] is falsy,
      so a nullable date is an [option Z] and [d && ...] tests [Some].
    - A JS [Map] is an association list in insertion order: [Map.set] on a
      present key keeps its position, on an absent key appends;
      [Array.from(m.values())] lists the values in that order.
    - The nullable boolean column [is_active] is an [option bool]; the
      code tests it for truthiness. *)

From Stdlib Require Import ZArith List Ascii String Bool Lia Arith.
Import ListNotations.
Local Open Scope string_scope.
Local Open Scope Z_scope.

Set Implicit Arguments.

(** ** JS [Map] with string keys *)

Module JsMap.

Section Ops.
Variable V : Type.

Definition t := list (string * V).

Definition empty : t := [].

Fixpoint get (k : string) (m : t) : option V :=
    match m with
    | [] => None
    | (k', v) :: m' => if String.eqb k k' then Some v else get k m'
    end.

Fixpoint set (k : string) (v : V) (m : t) : t :=
    match m with
    | [] => [(k, v)]
    | (k', v') :: m' =>
        if String.eqb k k' then (k', v) :: m' else (k', v') :: set k v m'
    end.

  (** [Map.delete]: the new map and whether the key was present. *)
Fixpoint delete (k : string) (m : t) : t * bool :=
    match m with
    | [] => ([], false)
    | (k', v') :: m' =>
        if String.eqb k k' then (m', true)
        else let (r, b) := delete k m' in ((k', v') :: r, b)
    end.

Definition keys (m : t) : list string := map fst m.
Definition values (m : t) : list V := map snd m.
Definition size (m : t) : nat := List.length m.

  (** Representation invariant of a [Map]: keys are pairwise distinct. *)
Definition ok (m : t) : Prop := NoDup (keys m).
End Ops.

End JsMap.

(** ** Records of [shared/schema] *)

Definition Date := Z.

Record User := mkUser {
  user_id : string;
  discordId : string;
  user_username : string;
  avatar : option string
}.

Record InsertUser := mkInsertUser {
  iu_discordId : string;
  iu_username : string;
  iu_avatar : option string
}.

Record Slot := mkSlot {
  id : string;
  userId : string;
  discordUserId : string;
  username : string;
  shopType : string;
  channelId : string;
  originalChannelName : string;
  roleId : option string;
  expiresAt : option Date;
  isActive : option bool;
  createdAt : option Date
}.

(** [InsertSlot]: a slot without [id] and [createdAt]. *)
Record InsertSlot := mkInsertSlot {
  is_userId : string;
  is_discordUserId : string;
  is_username : string;
  is_shopType : string;
  is_channelId : string;
  is_originalChannelName : string;
  is_roleId : option string;
  is_expiresAt : option Date;
  is_isActive : option bool
}.

(** [Partial<Slot>]: each field present or not. *)
Record PartialSlot := mkPartialSlot {
  p_id : option string;
  p_userId : option string;
  p_discordUserId : option string;
  p_username : option string;
  p_shopType : option string;
  p_channelId : option string;
  p_originalChannelName : option string;
  p_roleId : option (option string);
  p_expiresAt : option (option Date);
  p_isActive : option (option bool);
  p_createdAt : option (option Date)
}.

Record PingUsage := mkPingUsage {
  ping_id : string;
  slotId : string;
  ping_discordUserId : string;
  usedAt : option Date;
  messageId : option string;
  ping_channelId : option string
}.

Record InsertPingUsage := mkInsertPingUsage {
  ip_slotId : string;
  ip_discordUserId : string;
  ip_messageId : option string;
  ip_channelId : option string
}.

(** JS truthiness of a nullable boolean. *)
Definition truthy (b : option bool) : bool :=
  match b with Some true => true | _ => false end.

(** [{ ...slot, ...updates }] *)
Definition override {A} (u : option A) (a : A) : A :=
  match u with Some x => x | None => a end.

Definition spread (s : Slot) (u : PartialSlot) : Slot :=
  {| id := override (p_id u) (id s);
     userId := override (p_userId u) (userId s);
     discordUserId := override (p_discordUserId u) (discordUserId s);
     username := override (p_username u) (username s);
     shopType := override (p_shopType u) (shopType s);
     channelId := override (p_channelId u) (channelId s);
     originalChannelName :=
       override (p_originalChannelName u) (originalChannelName s);
     roleId := override (p_roleId u) (roleId s);
     expiresAt := override (p_expiresAt u) (expiresAt s);
     isActive := override (p_isActive u) (isActive s);
     createdAt := override (p_createdAt u) (createdAt s) |}.

Definition noUpdates : PartialSlot :=
  mkPartialSlot None None None None None None None None None None None.

(** The object literal [{ isActive: false }]. *)
Definition deactivation : PartialSlot :=
  mkPartialSlot None None None None None None None None None
                (Some (Some false)) None.

(** The slot [s] after [{ ...s, isActive: false }]. *)
Definition deactivated (s : Slot) : Slot := spread s deactivation.

(** ** The tier table [shopTypes] *)

Record ShopConfig := mkShopConfig {
  name : string;
  duration : option Z;
  pingCooldown : Z;
  pingsPerCooldown : nat
}.

Definition hour_ms : Z := 60 * 60 * 1000.
Definition day_ms : Z := 24 * 60 * 60 * 1000.

(** The own keys of the table. *)
Definition shopTypes (k : string) : option ShopConfig :=
  if String.eqb k "level1" then
    Some (mkShopConfig "Level 1" (Some (7 * 24 * 60 * 60 * 1000))
                       (72 * 60 * 60 * 1000) 1)
  else if String.eqb k "level2" then
    Some (mkShopConfig "Level 2" (Some (14 * 24 * 60 * 60 * 1000))
                       (48 * 60 * 60 * 1000) 1)
  else if String.eqb k "level3" then
    Some (mkShopConfig "Level 3" (Some (30 * 24 * 60 * 60 * 1000))
                       (24 * 60 * 60 * 1000) 1)
  else if String.eqb k "level4" then
    Some (mkShopConfig "Level 4" None (24 * 60 * 60 * 1000) 1)
  else if String.eqb k "partnered" then
    Some (mkShopConfig "Partnered" None (24 * 60 * 60 * 1000) 2)
  else None.

(** The table is a plain object, so [shopTypes[k]] also finds the names
    every object inherits from [Object.prototype]: the constructor, the
    methods, the legacy accessor helpers and [__proto__]. What it finds
    there is a function, or for [__proto__] the prototype object:
    [inheritedName k] is the [name] property of that value, [Some None]
    when it has none. None of them has a [duration], a [pingCooldown] or
    a [pingsPerCooldown]. *)
Definition prototypeMethods : list string :=
  ["hasOwnProperty"; "isPrototypeOf"; "propertyIsEnumerable";
   "toLocaleString"; "toString"; "valueOf";
   "__defineGetter__"; "__defineSetter__";
   "__lookupGetter__"; "__lookupSetter__"]%string.

Definition inheritedName (k : string) : option (option string) :=
  if String.eqb k "constructor" then Some (Some "Object")
  else if existsb (String.eqb k) prototypeMethods then Some (Some k)
  else if String.eqb k "__proto__" then Some None
  else None.

(** [shopTypes[k]]: an entry of the table, an inherited value, or
    [undefined]. *)
Inductive TierLookup :=
| OwnTier (shopConfig : ShopConfig)
| InheritedValue (fname : option string)
| NoTier.

Definition lookupTier (k : string) : TierLookup :=
  match shopTypes k with
  | Some shopConfig => OwnTier shopConfig
  | None =>
      match inheritedName k with
      | Some fname => InheritedValue fname
      | None => NoTier
      end
  end.

(** [`${x}`] for a string that may be [undefined]. *)
Definition interpolate (x : option string) : string :=
  match x with
  | Some v => v
  | None => "undefined"
  end.

(** ** [MemStorage] *)

Record MemStorage := mkStorage {
  users : JsMap.t User;
  slots : JsMap.t Slot;
  pingUsage : JsMap.t PingUsage
}.

Module Storage.

Definition empty : MemStorage :=
    mkStorage (JsMap.empty _) (JsMap.empty _) (JsMap.empty _).

Definition getUserByDiscordId (d : string) (st : MemStorage)
    : option User :=
    find (fun u => String.eqb (discordId u) d) (JsMap.values (users st)).

  (** [uuid] is the value [randomUUID()] returned. *)
Definition createUser (uuid : string) (u : InsertUser) (st : MemStorage)
    : User * MemStorage :=
    let user := mkUser uuid (iu_discordId u) (iu_username u) (iu_avatar u) in
    (user, mkStorage (JsMap.set uuid user (users st)) (slots st)
                     (pingUsage st)).

Definition getSlot (k : string) (st : MemStorage) : option Slot :=
    JsMap.get k (slots st).

Definition getSlotByDiscordUserId (d : string) (st : MemStorage)
    : option Slot :=
    find (fun s => String.eqb (discordUserId s) d && truthy (isActive s))
         (JsMap.values (slots st)).

Definition getAllActiveSlots (st : MemStorage) : list Slot :=
    filter (fun s => truthy (isActive s)) (JsMap.values (slots st)).

  (** [slot.isActive && slot.expiresAt && slot.expiresAt < now] *)
Definition isExpired (now : Date) (s : Slot) : bool :=
    truthy (isActive s) &&
    match expiresAt s with
    | Some e => e <? now
    | None => false
    end.

  (** [now] is the value of [new Date()] read by the method. *)
Definition getExpiredSlots (now : Date) (st : MemStorage) : list Slot :=
    filter (isExpired now) (JsMap.values (slots st)).

  (** [uuid] and [now] are what [randomUUID()] and [new Date()] returned. *)
Definition createSlot (uuid : string) (now : Date) (i : InsertSlot)
             (st : MemStorage) : Slot * MemStorage :=
    let slot :=
      {| id := uuid;
         userId := is_userId i;
         discordUserId := is_discordUserId i;
         username := is_username i;
         shopType := is_shopType i;
         channelId := is_channelId i;
         originalChannelName := is_originalChannelName i;
         roleId := is_roleId i;
         expiresAt := is_expiresAt i;
         isActive := is_isActive i;
         createdAt := Some now |} in
    (slot, mkStorage (users st) (JsMap.set uuid slot (slots st))
                     (pingUsage st)).

Definition updateSlot (k : string) (u : PartialSlot) (st : MemStorage)
    : option Slot * MemStorage :=
    match JsMap.get k (slots st) with
    | None => (None, st)
    | Some slot =>
        let updatedSlot := spread slot u in
        (Some updatedSlot,
         mkStorage (users st) (JsMap.set k updatedSlot (slots st))
                   (pingUsage st))
    end.

Definition deleteSlot (k : string) (st : MemStorage)
    : bool * MemStorage :=
    let (m, b) := JsMap.delete k (slots st) in
    (b, mkStorage (users st) m (pingUsage st)).

  (** [usage.slotId === slotId && usage.usedAt && usage.usedAt >= since] *)
Definition isRecentPing (sid : string) (since : Date) (u : PingUsage)
    : bool :=
    String.eqb (slotId u) sid &&
    match usedAt u with
    | Some t => since <=? t
    | None => false
    end.

Definition getPingUsage (sid : string) (since : Date) (st : MemStorage)
    : list PingUsage :=
    filter (isRecentPing sid since) (JsMap.values (pingUsage st)).

Definition createPingUsage (uuid : string) (now : Date)
             (i : InsertPingUsage) (st : MemStorage)
    : PingUsage * MemStorage :=
    let usage :=
      {| ping_id := uuid;
         slotId := ip_slotId i;
         ping_discordUserId := ip_discordUserId i;
         usedAt := Some now;
         messageId := ip_messageId i;
         ping_channelId := ip_channelId i |} in
    (usage, mkStorage (users st) (slots st)
                      (JsMap.set uuid usage (pingUsage st))).

Record SlotStats := mkStats {
    totalSlots : nat;
    activeSlots : nat;
    expiringSoon : nat;
    todayPings : nat
  }.

  (** [new Date(now.getFullYear(), now.getMonth(), now.getDate())]: local
      midnight of the day of [now], for a local time that is UTC plus the
      fixed offset [tz] (in ms). *)
Definition localMidnight (tz : Z) (now : Date) : Date :=
    now - (now + tz) mod day_ms.

Definition getSlotStats (tz : Z) (now : Date) (st : MemStorage)
    : SlotStats :=
    let active := getAllActiveSlots st in
    let tomorrow := now + 24 * 60 * 60 * 1000 in
    let today := localMidnight tz now in
    let soon :=
      List.length (filter (fun s => match expiresAt s with
                               | Some e => e <=? tomorrow
                               | None => false
                               end) active) in
    let pings :=
      List.length (filter (fun u => match usedAt u with
                               | Some t => today <=? t
                               | None => false
                               end) (JsMap.values (pingUsage st))) in
    {| totalSlots := JsMap.size (slots st);
       activeSlots := List.length active;
       expiringSoon := soon;
       todayPings := pings |}.

End Storage.

(** ** The environment and the effect monad

    Everything the handlers do besides reading and writing [MemStorage]
    goes through the environment: calls to the Discord collaborator, the
    clock ([new Date()], [Date.now()]), [randomUUID()] and [process.env].
    The environment answers the [n]-th interaction of a run by functions
    of [n], so every behaviour of the collaborator is some environment. *)

Inductive reply :=
| ReplyServerOnly
| ReplyAlreadyHasSlot
| ReplyRoleNotConfigured
| ReplyRoleNotFound
| ReplyCreated (shop : string) (expires : option Date)
| ReplyFailedCreate
| ReplyNoActiveSlot
| ReplyRemoved
| ReplyFailedRemove.

Inductive call :=
| DeferReply
| EditReply (r : reply)
| GuildsFetch (guild : string)
| RolesFetch (role : string)
| MembersFetch (user : string)
| RolesAdd (user role : string)
| RolesRemove (user role : string)
| ChannelsFetch (channel : string)
| PermissionCreate (channel user : string)
| PermissionDelete (channel user : string)
| SetName (channel name : string)
| MessageDelete (message : string)
| AuthorSend (user : string)
| ChannelSend (channel : string).

(** What a call gives back: the value the caller expects ([Done]: the
    guild, role, member or text channel asked for, with the id asked
    for), [null] or [undefined] ([Absent]), a value of another kind
    ([NonText]: a channel that is not a text channel; for a guild, a
    role or a member, an object without the properties of one, such as
    the collection [guilds.fetch('')] resolves to), or a thrown
    error. *)
Inductive response := Done | Absent | NonText | Throws.

Inductive event :=
| Called (c : call) (r : response)
| Logged (msg : string)
| LoggedError (msg : string).

(** [toLowerCase] is [String.prototype.toLowerCase] of the runtime. *)
Record Environment := mkEnv {
  respond : nat -> call -> response;
  clock : nat -> Date;
  uuid : nat -> string;
  toLowerCase : string -> string;
  SLOT_ROLE_ID : option string;
  GUILD_ID : option string
}.

(** The state of a run: the store, the events so far (newest first) and
    the number of interactions with the environment so far. *)
Record World := mkWorld {
  storage : MemStorage;
  trace : list event;
  ticks : nat
}.

Inductive result (A : Type) :=
| Ret (a : A)
| Exn.
Arguments Ret {A} a.
Arguments Exn {A}.

(** A computation keeps the world it reached when it throws. *)
Definition M (A : Type) := World -> result A * World.

Definition ret {A} (a : A) : M A := fun w => (Ret a, w).

Definition bind {A B} (m : M A) (k : A -> M B) : M B :=
  fun w => match m w with
           | (Ret a, w') => k a w'
           | (Exn, w') => (Exn, w')
           end.

Definition throw {A} : M A := fun w => (Exn, w).

(** [try { m } catch (error) { h }] *)
Definition try_catch {A} (m : M A) (h : M A) : M A :=
  fun w => match m w with
           | (Ret a, w') => (Ret a, w')
           | (Exn, w') => h w'
           end.

Declare Scope m_scope.
Delimit Scope m_scope with M.
Notation "x <- c1 ;; c2" := (bind c1 (fun x => c2))
  (at level 61, c1 at next level, right associativity) : m_scope.
Notation "c1 ;; c2" := (bind c1 (fun _ => c2))
  (at level 61, right associativity) : m_scope.
Local Open Scope m_scope.

Definition gets {A} (f : MemStorage -> A) : M A :=
  fun w => (Ret (f (storage w)), w).

Definition update {A} (f : MemStorage -> A * MemStorage) : M A :=
  fun w => let (a, st) := f (storage w) in
           (Ret a, mkWorld st (trace w) (ticks w)).

(** [console.log] and [console.error] with the given first argument. *)
Definition consoleLog (msg : string) : M unit :=
  fun w => (Ret tt, mkWorld (storage w) (Logged msg :: trace w) (ticks w)).

Definition consoleError (msg : string) : M unit :=
  fun w => (Ret tt,
            mkWorld (storage w) (LoggedError msg :: trace w) (ticks w)).

(** JS truthiness of a string. *)
Definition nonEmpty (s : string) : bool := negb (String.eqb s "").

(** [x || ''] for a possibly undefined string. *)
Definition orEmpty (x : option string) : string :=
  match x with
  | Some s => s
  | None => ""
  end.

Section Handlers.

Variable E : Environment.

Definition external (c : call) : M response :=
  fun w =>
    let r := respond E (ticks w) c in
    let w' := mkWorld (storage w) (Called c r :: trace w) (S (ticks w)) in
    match r with
    | Throws => (Exn, w')
    | _ => (Ret r, w')
    end.

(** Reading a property of a property of what a call resolved to, as in
    [guild.roles.fetch] or [member.roles.add]: a [TypeError] unless the
    value is the object the caller expects. *)
Definition deref (r : response) : M unit :=
  match r with
  | Done => ret tt
  | _ => throw
  end.

Definition readClock : M Date :=
  fun w => (Ret (clock E (ticks w)),
            mkWorld (storage w) (trace w) (S (ticks w))).

Definition randomUUID : M string :=
  fun w => (Ret (uuid E (ticks w)),
            mkWorld (storage w) (trace w) (S (ticks w))).

(** *** Storage methods as computations *)

Definition createUser (u : InsertUser) : M User :=
  k <- randomUUID ;;
  update (Storage.createUser k u).

Definition createSlot (i : InsertSlot) : M Slot :=
  k <- randomUUID ;;
  now <- readClock ;;
  update (Storage.createSlot k now i).

Definition createPingUsage (i : InsertPingUsage) : M PingUsage :=
  k <- randomUUID ;;
  now <- readClock ;;
  update (Storage.createPingUsage k now i).

Definition getExpiredSlots : M (list Slot) :=
  now <- readClock ;;
  gets (Storage.getExpiredSlots now).

Definition updateSlot (k : string) (u : PartialSlot) : M (option Slot) :=
  update (Storage.updateSlot k u).

(** *** [POST /api/slots]

    [body] is the outcome of [insertSlotSchema.parse(req.body)]: the
    validated data, or [None] when [parse] throws. *)

Inductive HttpResponse :=
| Created201 (slot : Slot)
| BadRequest400.

Definition postSlots (body : option InsertSlot) : M HttpResponse :=
  try_catch
    (validatedData <- match body with
                      | Some v => ret v
                      | None => throw
                      end ;;
     slot <- createSlot validatedData ;;
     ret (Created201 slot))
    (consoleError "Error creating slot:" ;;
     ret BadRequest400).

(** *** [revokeSlotPermissions] *)

Definition revokeSlotPermissions (guildId : string) (slot : Slot) : M unit :=
  try_catch
    (guild <- external (GuildsFetch guildId) ;;
     match roleId slot with
     | Some r =>
         if nonEmpty r then
           try_catch
             (deref guild ;;
              role <- external (RolesFetch r) ;;
              match role with
              | Absent => ret tt
              | _ =>
                  member <- external (MembersFetch (discordUserId slot)) ;;
                  deref member ;;
                  external (RolesRemove (discordUserId slot) r) ;;
                  ret tt
              end)
             (consoleError "Error removing role from user:")
         else ret tt
     | None => ret tt
     end ;;
     try_catch
       (deref guild ;;
        channel <- external (ChannelsFetch (channelId slot)) ;;
        match channel with
        | Done =>
            external (PermissionDelete (channelId slot)
                                       (discordUserId slot)) ;;
            external (SetName (channelId slot)
                              (originalChannelName slot)) ;;
            ret tt
        | _ => ret tt
        end)
       (consoleError
          "Error removing channel permissions or restoring channel name:"))
    (consoleError "Error revoking slot permissions:").

(** *** Slash commands *)

Record DiscordUser := mkDiscordUser {
  du_id : string;
  du_username : string;
  du_avatarURL : string
}.

Record Channel := mkChannel {
  ch_id : string;
  ch_name : string
}.

(** A [/slotadd] interaction: the guild it came from, if any, and its
    three required options. *)
Record SlotAddInteraction := mkSlotAdd {
  sa_guild : option string;
  sa_user : DiscordUser;
  sa_shoptype : string;
  sa_channel : Channel
}.

(** A [/slotremove] interaction. *)
Record SlotRemoveInteraction := mkSlotRemove {
  sr_guild : option string;
  sr_user : DiscordUser
}.

Definition lowerAscii (c : Ascii.ascii) : Ascii.ascii :=
  let n := Ascii.nat_of_ascii c in
  if ((65 <=? n) && (n <=? 90))%nat then Ascii.ascii_of_nat (n + 32) else c.

(** Lower case of the ASCII letters: what [toLowerCase] gives on a
    string of ASCII characters. The sample environments use it. *)
Fixpoint asciiLowerCase (s : string) : string :=
  match s with
  | EmptyString => EmptyString
  | String c s' => String (lowerAscii c) (asciiLowerCase s')
  end.

(** The prefix is the one of the template literal in the source, byte
    for byte. *)
Definition newChannelName (u : DiscordUser) : string :=
  "üõí‚îÇ" ++ toLowerCase E (du_username u) ++ "-slot".

Definition handleSlotAdd (i : SlotAddInteraction) : M unit :=
  external DeferReply ;;
  let user := sa_user i in
  let shopType := sa_shoptype i in
  let channel := sa_channel i in
  match sa_guild i with
  | None => external (EditReply ReplyServerOnly) ;; ret tt
  | Some _ =>
    try_catch
      (existingSlot <- gets (Storage.getSlotByDiscordUserId (du_id user)) ;;
       match existingSlot with
       | Some _ => external (EditReply ReplyAlreadyHasSlot) ;; ret tt
       | None =>
         found <- gets (Storage.getUserByDiscordId (du_id user)) ;;
         storageUser <- match found with
                        | Some u => ret u
                        | None => createUser
                                    (mkInsertUser (du_id user)
                                                  (du_username user)
                                                  (Some (du_avatarURL user)))
                        end ;;
         let slotRoleId := orEmpty (SLOT_ROLE_ID E) in
         if negb (nonEmpty slotRoleId) then
           external (EditReply ReplyRoleNotConfigured) ;; ret tt
         else
           slotRole <- external (RolesFetch slotRoleId) ;;
           match slotRole with
           | Absent => external (EditReply ReplyRoleNotFound) ;; ret tt
           | _ =>
             member <- external (MembersFetch (du_id user)) ;;
             deref member ;;
             external (RolesAdd (du_id user) slotRoleId) ;;
             external (PermissionCreate (ch_id channel) (du_id user)) ;;
             let originalChannelName := ch_name channel in
             external (SetName (ch_id channel) (newChannelName user)) ;;
             let insertSlot expiresAt :=
               {| is_userId := user_id storageUser;
                  is_discordUserId := du_id user;
                  is_username := du_username user;
                  is_shopType := shopType;
                  is_channelId := ch_id channel;
                  is_originalChannelName := originalChannelName;
                  is_roleId := match slotRole with
                               | Done => Some slotRoleId
                               | _ => None
                               end;
                  is_expiresAt := expiresAt;
                  is_isActive := Some true |} in
             match lookupTier shopType with
             | NoTier => throw
             | InheritedValue fname =>
               createSlot (insertSlot None) ;;
               external (EditReply (ReplyCreated (interpolate fname)
                                                 None)) ;;
               ret tt
             | OwnTier shopConfig =>
               expiresAt <- match duration shopConfig with
                            | Some d =>
                                if d =? 0 then ret None
                                else now <- readClock ;; ret (Some (now + d))
                            | None => ret None
                            end ;;
               createSlot (insertSlot expiresAt) ;;
               external (EditReply (ReplyCreated (name shopConfig)
                                                 expiresAt)) ;;
               ret tt
             end
           end
       end)
      (consoleError "Error creating slot:" ;;
       external (EditReply ReplyFailedCreate) ;;
       ret tt)
  end.

Definition handleSlotRemove (i : SlotRemoveInteraction) : M unit :=
  external DeferReply ;;
  let user := sr_user i in
  match sr_guild i with
  | None => external (EditReply ReplyServerOnly) ;; ret tt
  | Some guildId =>
    try_catch
      (found <- gets (Storage.getSlotByDiscordUserId (du_id user)) ;;
       match found with
       | None => external (EditReply ReplyNoActiveSlot) ;; ret tt
       | Some slot =>
         revokeSlotPermissions guildId slot ;;
         updateSlot (id slot) deactivation ;;
         external (EditReply ReplyRemoved) ;;
         ret tt
       end)
      (consoleError "Error removing slot:" ;;
       external (EditReply ReplyFailedRemove) ;;
       ret tt)
  end.

(** *** [@everyone] / [@here] monitoring *)

Record Message := mkMessage {
  m_id : string;
  m_author : string;
  m_channel : string;
  m_guild : option string
}.

(** The return point [handleEveryonePing] left through: the early return
    for an author without an active slot, the return that ends the
    over-limit branch, the end of the function after the ping is
    recorded, or the end of the [catch] block. *)
Inductive PingSignal := Ignored | OverLimit | Allowed | Errored.

Definition handleEveryonePing (message : Message) : M PingSignal :=
  try_catch
    (found <- gets (Storage.getSlotByDiscordUserId (m_author message)) ;;
     match found with
     | None => ret Ignored
     | Some slot =>
       if negb (truthy (isActive slot)) then ret Ignored
       else
         now <- readClock ;;
         let recordPing :=
           createPingUsage
             {| ip_slotId := id slot;
                ip_discordUserId := m_author message;
                ip_messageId := Some (m_id message);
                ip_channelId := Some (m_channel message) |} ;;
           ret Allowed in
         match lookupTier (shopType slot) with
         | NoTier => throw
         | InheritedValue _ => recordPing
         | OwnTier shopConfig =>
           let cooldownStart := now - pingCooldown shopConfig in
           recentPings <- gets (Storage.getPingUsage (id slot)
                                                     cooldownStart) ;;
           if (pingsPerCooldown shopConfig <=? List.length recentPings)%nat
           then
             external (MessageDelete (m_id message)) ;;
             revokeSlotPermissions (orEmpty (m_guild message)) slot ;;
             updateSlot (id slot) deactivation ;;
             try_catch
               (external (AuthorSend (m_author message)) ;; ret tt)
               (try_catch
                  (external (ChannelSend (m_channel message)) ;; ret tt)
                  (ret tt)) ;;
             consoleLog "Slot revoked due to ping abuse" ;;
             ret OverLimit
           else recordPing
         end
     end)
    (consoleError "Error handling @everyone ping:" ;;
     ret Errored).

(** *** The expiration checker

    [expireEach] is the [for ... of] loop over the expired slots and
    [checkExpiration] the body of the interval callback: one tick. *)

Definition expireOne (slot : Slot) : M unit :=
  revokeSlotPermissions (orEmpty (GUILD_ID E)) slot ;;
  updateSlot (id slot) deactivation ;;
  consoleLog "Expired slot".

Fixpoint expireEach (expiredSlots : list Slot) : M unit :=
  match expiredSlots with
  | [] => ret tt
  | slot :: rest => expireOne slot ;; expireEach rest
  end.

Definition checkExpiration : M unit :=
  try_catch
    (expiredSlots <- getExpiredSlots ;;
     expireEach expiredSlots)
    (consoleError "Error checking slot expiration:").

End Handlers.


(** * The rest of the server and the dashboard helpers *)

(** ** The other slot routes

    A request body of [PATCH /api/slots/:id] is taken with the field
    types of [Slot]. *)

Inductive PatchResponse :=
| PatchOk200 (slot : Slot)
| PatchNotFound404
| PatchBadRequest400.

Inductive DeleteResponse :=
| DeleteOk200
| DeleteNotFound404
| DeleteError500.

(** One element of the answer of [GET /api/slots]: the slot with its
    ping usage and its tier. For a tier name found among the inherited
    names only, [pingsAllowed] is [undefined] and [shopConfig] is not an
    entry of the table ([None] for both). *)
Record SlotWithPings := mkSlotWithPings {
  swp_slot : Slot;
  pingsUsed : nat;
  pingsAllowed : option nat;
  swp_shopConfig : option ShopConfig
}.

Inductive SlotsResponse :=
| SlotsOk200 (slotsWithPings : list SlotWithPings)
| SlotsError500.

(** [Promise.all] over the results of the callbacks: all of them, or the
    rejection. *)
Fixpoint allSome {A : Type} (l : list (option A)) : option (list A) :=
  match l with
  | [] => Some []
  | None :: _ => None
  | Some a :: l' =>
      match allSome l' with
      | Some r => Some (a :: r)
      | None => None
      end
  end.

Section Routes.

Variable E : Environment.

Definition patchSlot (k : string) (updates : PartialSlot) : M PatchResponse :=
  try_catch
    (slot <- updateSlot k updates ;;
     match slot with
     | None => ret PatchNotFound404
     | Some s => ret (PatchOk200 s)
     end)
    (consoleError "Error updating slot:" ;;
     ret PatchBadRequest400).

Definition deleteSlotRoute (k : string) : M DeleteResponse :=
  try_catch
    (success <- update (Storage.deleteSlot k) ;;
     if success then ret DeleteOk200 else ret DeleteNotFound404)
    (consoleError "Error deleting slot:" ;;
     ret DeleteError500).

(** The callback of [slots.map] in [GET /api/slots]. It runs to its end
    when it is called, since the store answers at once; [None] stands
    for the rejection when the lookup of the tier gives [undefined]. For
    an inherited value the start of the window is an invalid date, with
    which [getPingUsage] selects no ping. *)
Definition slotWithPings (slot : Slot) : M (option SlotWithPings) :=
  now <- readClock E ;;
  match lookupTier (shopType slot) with
  | NoTier => ret None
  | InheritedValue _ =>
      ret (Some {| swp_slot := slot;
                   pingsUsed := 0;
                   pingsAllowed := None;
                   swp_shopConfig := None |})
  | OwnTier shopConfig =>
      let cooldownStart := now - pingCooldown shopConfig in
      recentPings <- gets (Storage.getPingUsage (id slot) cooldownStart) ;;
      ret (Some {| swp_slot := slot;
                   pingsUsed := List.length recentPings;
                   pingsAllowed := Some (pingsPerCooldown shopConfig);
                   swp_shopConfig := Some shopConfig |})
  end.

Fixpoint mapSlots (l : list Slot) : M (list (option SlotWithPings)) :=
  match l with
  | [] => ret []
  | slot :: rest =>
      r <- slotWithPings slot ;;
      rs <- mapSlots rest ;;
      ret (r :: rs)
  end.

Definition getSlotsRoute : M SlotsResponse :=
  try_catch
    (active <- gets Storage.getAllActiveSlots ;;
     results <- mapSlots active ;;
     match allSome results with
     | Some slotsWithPings => ret (SlotsOk200 slotsWithPings)
     | None => throw
     end)
    (consoleError "Error getting slots:" ;;
     ret SlotsError500).

(** ** The [messageCreate] listener *)

Record IncomingMessage := mkIncoming {
  im_message : Message;
  im_authorIsBot : bool;
  im_content : string
}.

(** [hay.includes(needle)] *)
Fixpoint includes (needle hay : string) : bool :=
  String.prefix needle hay ||
  match hay with
  | EmptyString => false
  | String _ rest => includes needle rest
  end.

Definition onMessageCreate (m : IncomingMessage) : M unit :=
  if im_authorIsBot m then ret tt
  else if includes "@everyone" (im_content m)
          || includes "@here" (im_content m)
       then handleEveryonePing E (im_message m) ;; ret tt
       else ret tt.

End Routes.

(** ** [/slotinfo]

    [reply] is [interaction.reply], which the handler is given with the
    interaction; its argument is the content of the message.
    [InfoInherited] is the content for a tier name found among the
    inherited names only: no ping counted, of [undefined] allowed, and
    the next ping available. *)

Inductive SlotInfoReply :=
| InfoNoActiveSlot
| InfoSlot (tier : string) (expires : option Date)
           (used allowed : nat) (rateLimited : bool)
| InfoInherited (tier : string) (expires : option Date)
| InfoFailed.

Section SlotInfo.

Variable E : Environment.
Variable reply : SlotInfoReply -> M unit.

Definition handleSlotInfo (targetUser : DiscordUser) : M unit :=
  try_catch
    (found <- gets (Storage.getSlotByDiscordUserId (du_id targetUser)) ;;
     match found with
     | None => reply InfoNoActiveSlot
     | Some slot =>
         now <- readClock E ;;
         match lookupTier (shopType slot) with
         | NoTier => throw
         | InheritedValue fname =>
             reply (InfoInherited (interpolate fname) (expiresAt slot))
         | OwnTier shopConfig =>
             let cooldownStart := now - pingCooldown shopConfig in
             recentPings <- gets (Storage.getPingUsage (id slot)
                                                       cooldownStart) ;;
             reply (InfoSlot (name shopConfig) (expiresAt slot)
                             (List.length recentPings)
                             (pingsPerCooldown shopConfig)
                             (pingsPerCooldown shopConfig
                              <=? List.length recentPings)%nat)
         end
     end)
    (consoleError "Error getting slot info:" ;;
     reply InfoFailed).

End SlotInfo.


(** ** Dashboard helpers *)

Module Dashboard.

(** [durations[shopType]]: a number, [null], or [undefined] ([None]). *)
Definition getShopTypeDuration (shopType : string) : option (option Z) :=
  if String.eqb shopType "level1" then Some (Some (7 * 24 * 60 * 60 * 1000))
  else if String.eqb shopType "level2" then
    Some (Some (14 * 24 * 60 * 60 * 1000))
  else if String.eqb shopType "level3" then
    Some (Some (30 * 24 * 60 * 60 * 1000))
  else if String.eqb shopType "level4" then Some None
  else if String.eqb shopType "partnered" then Some None
  else None.

Record SlotFormData := mkSlotForm {
  fd_discordUserId : string;
  fd_username : string;
  fd_shopType : string;
  fd_channelId : string;
  fd_originalChannelName : string
}.

(** The [expiresAt] of the body [createSlotMutation] posts, as JSON
    carries it: [null] plus a number is the number, and a date built
    from [undefined] is invalid and serialized as [null]. *)
Definition mutationExpiresAt (now : Date) (shopType : string)
  : option Date :=
  if String.eqb shopType "level4" || String.eqb shopType "partnered"
  then None
  else match getShopTypeDuration shopType with
       | Some (Some d) => Some (now + d)
       | Some None => Some now
       | None => None
       end.

(** The body of the [POST /api/slots] request of [createSlotMutation];
    [now] is the value of [Date.now()]. *)
Definition mutationBody (now : Date) (data : SlotFormData) : InsertSlot :=
  {| is_userId := fd_discordUserId data;
     is_discordUserId := fd_discordUserId data;
     is_username := fd_username data;
     is_shopType := fd_shopType data;
     is_channelId := fd_channelId data;
     is_originalChannelName := fd_originalChannelName data;
     is_roleId := None;
     is_expiresAt := mutationExpiresAt now (fd_shopType data);
     is_isActive := Some true |}.

Inductive StatusBadge := BadgeInactive | BadgeRateLimited | BadgeActive.

(** [getStatusBadge] on an element of the answer of [GET /api/slots];
    [pingsUsed >= undefined] is false. *)
Definition getStatusBadge (s : SlotWithPings) : StatusBadge :=
  if negb (truthy (isActive (swp_slot s))) then BadgeInactive
  else match pingsAllowed s with
       | Some allowed =>
           if (allowed <=? pingsUsed s)%nat then BadgeRateLimited
           else BadgeActive
       | None => BadgeActive
       end.

(** The text and colour [formatTimeRemaining] shows, without the
    sub-text: the number, whether the unit takes its plural, and
    whether the colour is red. *)
Inductive TimeRemaining :=
| Lifetime
| Expired
| DaysLeft (days : Z) (plural red : bool)
| HoursLeft (hours : Z) (plural : bool).

(** [expiresAt] is the instant the date string denotes, [None] for
    [null]; [now] is the value of [new Date()]. *)
Definition formatTimeRemaining (now : Date) (expiresAt : option Date)
  : TimeRemaining :=
  match expiresAt with
  | None => Lifetime
  | Some expires =>
      let diff := expires - now in
      if diff <=? 0 then Expired
      else
        let days := diff / (1000 * 60 * 60 * 24) in
        let hours := (diff mod (1000 * 60 * 60 * 24)) / (1000 * 60 * 60) in
        if 0 <? days then DaysLeft days (1 <? days) (days <=? 2)
        else HoursLeft hours (1 <? hours)
  end.

End Dashboard.

(** * Specification vocabulary *)

Local Open Scope list_scope.

(** [Count P l n]: exactly [n] positions of [l] hold an element with [P]. *)
Inductive Count {A : Type} (P : A -> Prop) : list A -> nat -> Prop :=
| Count_nil : Count P [] 0
| Count_hit : forall x l n, P x -> Count P l n -> Count P (x :: l) (S n)
| Count_miss : forall x l n, ~ P x -> Count P l n -> Count P (x :: l) n.

(** The holder of a slot is its Discord user. *)
Definition activeFor (d : string) (s : Slot) : bool :=
  String.eqb (discordUserId s) d && truthy (isActive s).

Definition activeCount (d : string) (st : MemStorage) : nat :=
  List.length (filter (activeFor d) (JsMap.values (slots st))).

(** At most one active slot per holder. *)
Definition atMostOneActive (st : MemStorage) : Prop :=
  forall d, (activeCount d st <= 1)%nat.

(** The slots map is a [Map] and every record sits under its own id, as
    [createSlot] stores it. *)
Definition wellKeyed (st : MemStorage) : Prop :=
  JsMap.ok (slots st) /\
  forall k s, In (k, s) (slots st) -> id s = k.

(** The expiry condition with an inclusive bound. *)
Definition expiredInclusive (now : Date) (s : Slot) : Prop :=
  isActive s = Some true /\ exists e, expiresAt s = Some e /\ e <= now.

(** The calls made to the authorization collaborator: everything on
    guilds, roles, members and channels. The other calls go to the
    command surface and to the message collaborator. *)
Definition isAuthCall (c : call) : bool :=
  match c with
  | GuildsFetch _ | RolesFetch _ | MembersFetch _ | RolesAdd _ _
  | RolesRemove _ _ | ChannelsFetch _ | PermissionCreate _ _
  | PermissionDelete _ _ | SetName _ _ => true
  | DeferReply | EditReply _ | MessageDelete _ | AuthorSend _
  | ChannelSend _ => false
  end.

Definition isErrorLog (e : event) : Prop :=
  match e with LoggedError _ => True | _ => False end.

Definition isAuthThrow (e : event) : Prop :=
  match e with
  | Called c Throws => isAuthCall c = true
  | _ => False
  end.

(** [w'] continues [w] with events in which every failed authorization
    call is accompanied by an error log entry. *)
Definition failuresLogged (w w' : World) : Prop :=
  exists evs, trace w' = evs ++ trace w /\
              (Exists isAuthThrow evs -> Exists isErrorLog evs).

(** [tidy w r w']: the run from [w] to [w'] only added events, and when it
    returned, every failed authorization call among them is accompanied by
    an error log entry. *)
Definition tidy {A : Type} (w : World) (r : result A) (w' : World) : Prop :=
  exists evs, trace w' = evs ++ trace w /\
              (r <> Exn -> Exists isAuthThrow evs -> Exists isErrorLog evs).

Definition Tidy {A : Type} (m : M A) : Prop :=
  forall w, tidy w (fst (m w)) (snd (m w)).

(** [m] never writes the store. *)
Definition ReadOnly {A : Type} (m : M A) : Prop :=
  forall w, storage (snd (m w)) = storage w.

(** [m] never throws. *)
Definition Returns {A : Type} (m : M A) : Prop :=
  forall w, fst (m w) <> Exn.

(** The store after [{ isActive: false }] was written to the slots of
    [l], one after the other, as the expiration loop does. *)
Definition deactivateAll (l : list Slot) (st : MemStorage) : MemStorage :=
  fold_left (fun acc s => snd (Storage.updateSlot (id s) deactivation acc))
            l st.

(** The ping recorded by an allowed attempt. *)
Definition recordedPing (E : Environment) (message : Message)
           (slot : Slot) (w : World) : PingUsage :=
  {| ping_id := uuid E (S (ticks w));
     slotId := id slot;
     ping_discordUserId := m_author message;
     usedAt := Some (clock E (S (S (ticks w))));
     messageId := Some (m_id message);
     ping_channelId := Some (m_channel message) |}.

(** The pings [handleEveryonePing] counts for [slot]: those used since
    the reading of the clock minus the cooldown of the tier. *)
Definition recentPings (E : Environment) (slot : Slot) (cfg : ShopConfig)
           (w : World) : list PingUsage :=
  Storage.getPingUsage (id slot) (clock E (ticks w) - pingCooldown cfg)
                       (storage w).

(** The holder [d] has a slot record and none of their records is
    active. *)
Definition holderInactive (d : string) (st : MemStorage) : Prop :=
  (exists s, In s (JsMap.values (slots st)) /\ discordUserId s = d) /\
  forall s, In s (JsMap.values (slots st)) ->
            discordUserId s = d -> isActive s <> Some true.

(** The attempt left through the early return and nothing happened: no
    call to a collaborator, no log entry, no write to the store. *)
Definition silentlyIgnored (E : Environment) (message : Message) (w : World)
  : Prop :=
  handleEveryonePing E message w = (Ret Ignored, w).

(** [m] never writes the slots map. *)
Definition KeepsSlots {A : Type} (m : M A) : Prop :=
  forall w, slots (storage (snd (m w))) = slots (storage w).

(** From a store with [I], [m] ends, returning or throwing, in a store
    with [Q]. *)
Definition Pres (I Q : MemStorage -> Prop) {A : Type} (m : M A) : Prop :=
  forall w, I (storage w) -> Q (storage (snd (m w))).

(** [I] looks at the slots map only. *)
Definition SlotsOnly (I : MemStorage -> Prop) : Prop :=
  forall st st', slots st = slots st' -> I st -> I st'.

(** What [handleSlotAdd] stores for a grant: an active slot whose
    expires-at is null for a tier without duration and a clock reading
    plus the duration for a tier with one; for a tier name that is only
    an inherited name of the table, a slot without expires-at. *)
Definition expiryFollows (E : Environment) (tier : string)
           (expires : option Date) : Prop :=
  match lookupTier tier with
  | OwnTier cfg =>
      match duration cfg with
      | Some d => exists n, expires = Some (clock E n + d)
      | None => expires = None
      end
  | InheritedValue _ => expires = None
  | NoTier => False
  end.

Definition grantedBy (E : Environment) (s : Slot) : Prop :=
  isActive s = Some true /\
  expiryFollows E (shopType s) (expiresAt s).

(** What [handleSlotAdd] passes to [createSlot], when it gets there: the
    holder has no active slot in the store, the new slot is active and
    for that holder, and its expires-at follows from what the lookup of
    its tier gives. *)
Definition grantRequest (E : Environment) (i : SlotAddInteraction)
           (st : MemStorage) (ins : InsertSlot) : Prop :=
  Storage.getSlotByDiscordUserId (du_id (sa_user i)) st = None /\
  is_discordUserId ins = du_id (sa_user i) /\
  is_isActive ins = Some true /\
  is_shopType ins = sa_shoptype i /\
  expiryFollows E (sa_shoptype i) (is_expiresAt ins).

(** ** Sample data *)

Fixpoint tally (n : nat) : string :=
  match n with
  | O => EmptyString
  | S n' => String "i"%char (tally n')
  end.

(** An environment in which every call succeeds, the clock advances by
    one millisecond per interaction and ids are pairwise distinct. *)
Definition calmEnv : Environment :=
  {| respond := fun _ _ => Done;
     clock := fun n => 1000000 + Z.of_nat n;
     uuid := fun n => ("uuid-" ++ tally n)%string;
     toLowerCase := asciiLowerCase;
     SLOT_ROLE_ID := Some "role-slot";
     GUILD_ID := Some "guild-1" |}.

(** An environment in which every authorization call throws. *)
Definition downEnv : Environment :=
  {| respond := fun _ c => if isAuthCall c then Throws else Done;
     clock := fun n => 1000000 + Z.of_nat n;
     uuid := fun n => ("uuid-" ++ tally n)%string;
     toLowerCase := asciiLowerCase;
     SLOT_ROLE_ID := Some "role-slot";
     GUILD_ID := Some "guild-1" |}.

Definition world0 (st : MemStorage) : World := mkWorld st [] 0.

Definition boundarySlot : Slot :=
  mkSlot "s1" "u1" "d1" "alice" "level1" "c1" "general" (Some "r1")
         (Some 1000) (Some true) (Some 0).

Definition boundaryStore : MemStorage :=
  mkStorage [] [("s1", boundarySlot)] [].

(** A holder whose only slot was revoked, with one earlier ping. *)
Definition revokedSlot : Slot :=
  mkSlot "s1" "u1" "d1" "alice" "level3" "c1" "general" (Some "r1")
         (Some 5000000) (Some false) (Some 0).

Definition revokedStore : MemStorage :=
  mkStorage []
            [("s1", revokedSlot)]
            [("p1", mkPingUsage "p1" "s1" "d1" (Some 999000) (Some "m0")
                                (Some "c1"))].

Definition aliceMessage : Message := mkMessage "m1" "d1" "c1" (Some "guild-1").

(** Alice is granted a level1 slot by the bot on an empty store. *)
Definition aliceUser : DiscordUser :=
  mkDiscordUser "d1" "Alice" "https://cdn.example/alice.png".

Definition aliceGrant : SlotAddInteraction :=
  mkSlotAdd (Some "guild-1") aliceUser "level1" (mkChannel "c1" "general").

Definition grantedWorld : World :=
  snd (handleSlotAdd calmEnv aliceGrant (world0 Storage.empty)).

(** Request bodies for [POST /api/slots]: a second active slot for
    Alice, and a level1 slot without expiry for Bob. *)
Definition duplicateBody : InsertSlot :=
  mkInsertSlot "d1" "d1" "Alice" "level4" "c2" "shop" None None (Some true).

Definition lifetimeLevel1Body : InsertSlot :=
  mkInsertSlot "d2" "d2" "Bob" "level1" "c3" "market" None None (Some true).

(** A store with an active level3 slot for Alice that has used its one
    ping of the last 24 hours, and an active level1 slot for Bob that
    expired. Both clocks of the sample environments start at 1000000. *)
Definition aliceSlot : Slot :=
  mkSlot "s1" "u1" "d1" "alice" "level3" "c1" "general" (Some "r1")
         (Some 5000000) (Some true) (Some 0).

Definition bobSlot : Slot :=
  mkSlot "s2" "u2" "d2" "bob" "level1" "c2" "lobby" (Some "r1")
         (Some 900000) (Some true) (Some 0).

Definition sampleStore : MemStorage :=
  mkStorage []
            [("s1", aliceSlot); ("s2", bobSlot)]
            [("p1", mkPingUsage "p1" "s1" "d1" (Some 999000) (Some "m0")
                                (Some "c1"))].

Definition sampleWorld : World := world0 sampleStore.

Definition removeAlice : SlotRemoveInteraction :=
  mkSlotRemove (Some "guild-1") aliceUser.

(** A store with a partnered slot for Alice and one ping of another
    slot. *)
Definition partnerSlot : Slot :=
  mkSlot "s1" "u1" "d1" "alice" "partnered" "c1" "general" (Some "r1")
         None (Some true) (Some 0).

Definition partnerStore : MemStorage :=
  mkStorage []
            [("s1", partnerSlot)]
            [("p0", mkPingUsage "p0" "s9" "d9" (Some 999000) (Some "m0")
                                (Some "c9"))].

Definition partnerWorld : World := world0 partnerStore.

Definition partneredConfig : ShopConfig :=
  mkShopConfig "Partnered" None (24 * 60 * 60 * 1000) 2.

(** Alice's world after her over-limit attempt while the authorization
    collaborator was down. *)
Definition afterOverLimit : World :=
  snd (handleEveryonePing downEnv aliceMessage sampleWorld).

(** A store with two expired slots and one that is not. *)
Definition carolSlot : Slot :=
  mkSlot "s3" "u3" "d3" "carol" "level2" "c3" "plaza" None
         (Some 800000) (Some true) (Some 0).

Definition sweepStore : MemStorage :=
  mkStorage []
            [("s1", aliceSlot); ("s2", bobSlot); ("s3", carolSlot)]
            [].

Definition sweepWorld : World := world0 sweepStore.

(** An environment in which the removal of a message throws and every
    other call, the authorization calls included, succeeds. *)
Definition deleteDownEnv : Environment :=
  {| respond := fun _ c => match c with
                           | MessageDelete _ => Throws
                           | _ => Done
                           end;
     clock := fun n => 1000000 + Z.of_nat n;
     uuid := fun n => ("uuid-" ++ tally n)%string;
     toLowerCase := asciiLowerCase;
     SLOT_ROLE_ID := Some "role-slot";
     GUILD_ID := Some "guild-1" |}.

(** An environment in which the deferral of a reply throws and every
    other call succeeds. *)
Definition deferDownEnv : Environment :=
  {| respond := fun _ c => match c with
                           | DeferReply => Throws
                           | _ => Done
                           end;
     clock := fun n => 1000000 + Z.of_nat n;
     uuid := fun n => ("uuid-" ++ tally n)%string;
     toLowerCase := asciiLowerCase;
     SLOT_ROLE_ID := Some "role-slot";
     GUILD_ID := Some "guild-1" |}.

(** [/slotremove] for Alice sent outside a guild. *)
Definition removeAliceDirect : SlotRemoveInteraction :=
  mkSlotRemove None aliceUser.

(** A store in which the one ping of Alice's slot is dated after the
    first readings of the sample clocks. *)
Definition aheadStore : MemStorage :=
  mkStorage []
            [("s1", aliceSlot)]
            [("p1", mkPingUsage "p1" "s1" "d1" (Some 2000000) (Some "m0")
                                (Some "c1"))].

Definition level3Config : ShopConfig :=
  mkShopConfig "Level 3" (Some (30 * 24 * 60 * 60 * 1000))
               (24 * 60 * 60 * 1000) 1.

(** The body [{ id: "zzz" }] of a [PATCH /api/slots/s2] request, the
    world it leaves from [sweepWorld], and Bob's record afterwards:
    under the key [s2], with the id [zzz]. *)
Definition renameId : PartialSlot :=
  mkPartialSlot (Some "zzz") None None None None None None None None None
                None.

Definition patchedWorld : World := snd (patchSlot "s2" renameId sweepWorld).

Definition rekeyedBob : Slot := spread bobSlot renameId.

Definition bobUser : DiscordUser :=
  mkDiscordUser "d2" "Bob" "https://cdn.example/bob.png".

Definition removeBob : SlotRemoveInteraction :=
  mkSlotRemove (Some "guild-1") bobUser.


(** The slot [slot] is among the active slots of the world [w]. *)
Definition stillActive (slot : Slot) (w : World) : Prop :=
  In slot (Storage.getAllActiveSlots (storage w)).

(** ** Vocabulary for the handlers and routes *)

(** Every event [m] adds to the trace has [P]. *)
Definition Emits (P : event -> Prop) {A : Type} (m : M A) : Prop :=
  forall w, exists evs,
      trace (snd (m w)) = evs ++ trace w /\ Forall P evs.

(** The calls that give access, and those that take it away. *)
Definition isGrantCall (c : call) : bool :=
  match c with
  | RolesAdd _ _ | PermissionCreate _ _ => true
  | _ => false
  end.

Definition isRevokeCall (c : call) : bool :=
  match c with
  | RolesRemove _ _ | PermissionDelete _ _ => true
  | _ => false
  end.

Definition notGrant (e : event) : Prop :=
  match e with
  | Called c _ => isGrantCall c = false
  | _ => True
  end.

Definition notRevoke (e : event) : Prop :=
  match e with
  | Called c _ => isRevokeCall c = false
  | _ => True
  end.

Definition notAuth (e : event) : Prop :=
  match e with
  | Called c _ => isAuthCall c = false
  | _ => True
  end.

(** The events a revocation of [slot] in guild [guildId] may add: calls
    on the guild, on the slot's role, member and channel, the restoring
    of the slot's original channel name, and error log entries. *)
Definition revokeEvent (guildId : string) (slot : Slot) (e : event) : Prop :=
  match e with
  | Called (GuildsFetch g) _ => g = guildId
  | Called (RolesFetch r) _ => roleId slot = Some r
  | Called (MembersFetch u) _ => u = discordUserId slot
  | Called (RolesRemove u r) _ =>
      u = discordUserId slot /\ roleId slot = Some r
  | Called (ChannelsFetch c) _ => c = channelId slot
  | Called (PermissionDelete c u) _ =>
      c = channelId slot /\ u = discordUserId slot
  | Called (SetName c n) _ =>
      c = channelId slot /\ n = originalChannelName slot
  | Called _ _ => False
  | Logged _ => False
  | LoggedError _ => True
  end.

(** An environment whose collaborator answers every call with a value. *)
Definition responsive (E : Environment) : Prop :=
  forall n c, respond E n c = Done.

(** [m] leaves the slots map as it was, and when it returns, no
    authorization call failed in it. *)
Definition Quiet {A : Type} (m : M A) : Prop :=
  forall w,
    slots (storage (snd (m w))) = slots (storage w) /\
    exists evs, trace (snd (m w)) = evs ++ trace w /\
                (fst (m w) <> Exn -> ~ Exists isAuthThrow evs).

(** When an authorization call failed in [m], the slots map is as it
    was. *)
Definition Guarded {A : Type} (m : M A) : Prop :=
  forall w, exists evs,
      trace (snd (m w)) = evs ++ trace w /\
      (Exists isAuthThrow evs ->
       slots (storage (snd (m w))) = slots (storage w)).

Definition notAuthThrow (e : event) : Prop := ~ isAuthThrow e.

(** An environment in which the calls on roles throw and every other
    call succeeds. *)
Definition rolesDownEnv : Environment :=
  {| respond := fun _ c => match c with
                           | RolesFetch _ => Throws
                           | _ => Done
                           end;
     clock := fun n => 1000000 + Z.of_nat n;
     uuid := fun n => ("uuid-" ++ tally n)%string;
     toLowerCase := asciiLowerCase;
     SLOT_ROLE_ID := Some "role-slot";
     GUILD_ID := Some "guild-1" |}.

(** What the callback of [GET /api/slots] computes for [slot] when the
    clock reads [now]. *)
Definition slotEntry (now : Date) (st : MemStorage) (slot : Slot)
  : option SlotWithPings :=
  match lookupTier (shopType slot) with
  | NoTier => None
  | InheritedValue _ =>
      Some {| swp_slot := slot;
              pingsUsed := 0;
              pingsAllowed := None;
              swp_shopConfig := None |}
  | OwnTier cfg =>
      Some {| swp_slot := slot;
              pingsUsed :=
                List.length
                  (Storage.getPingUsage (id slot) (now - pingCooldown cfg)
                                        st);
              pingsAllowed := Some (pingsPerCooldown cfg);
              swp_shopConfig := Some cfg |}
  end.

(** The results for the slots of [l], the [j]-th with the clock reading
    number [n + j]. *)
Fixpoint entriesFrom (E : Environment) (st : MemStorage) (n : nat)
         (l : list Slot) : list (option SlotWithPings) :=
  match l with
  | [] => []
  | slot :: rest =>
      slotEntry (clock E n) st slot :: entriesFrom E st (S n) rest
  end.

(** A store with an active slot of a tier that is not in the table. *)
Definition oddSlot : Slot :=
  mkSlot "s4" "u4" "d4" "dave" "gold" "c4" "arcade" None None (Some true)
         (Some 0).

Definition oddStore : MemStorage :=
  mkStorage [] [("s1", aliceSlot); ("s4", oddSlot)] [].

(** * Properties *)

(** ** The lookup of a tier *)

Lemma lookupTier_own k cfg :
  shopTypes k = Some cfg -> lookupTier k = OwnTier cfg.
Proof. intros H. unfold lookupTier. rewrite H. reflexivity. Qed.

Lemma lookupTier_own_inv k cfg :
  lookupTier k = OwnTier cfg -> shopTypes k = Some cfg.
Proof.
  unfold lookupTier. destruct (shopTypes k) as [c|].
  - intros [= ->]. reflexivity.
  - destruct (inheritedName k); discriminate.
Qed.

Lemma lookupTier_NoTier k :
  lookupTier k = NoTier <-> shopTypes k = None /\ inheritedName k = None.
Proof.
  unfold lookupTier. destruct (shopTypes k) as [c|].
  - split; [discriminate | intros [H _]; discriminate].
  - destruct (inheritedName k); split;
      try discriminate; try (intros [_ H]; discriminate); auto.
Qed.

Lemma lookupTier_inherited k fname :
  lookupTier k = InheritedValue fname ->
  shopTypes k = None /\ inheritedName k = Some fname.
Proof.
  unfold lookupTier. destruct (shopTypes k) as [c|]; [discriminate|].
  destruct (inheritedName k); [intros [= ->]; auto | discriminate].
Qed.

(** ** Counting *)

Lemma Count_filter {A : Type} (P : A -> Prop) (p : A -> bool) (l : list A) :
  (forall x, p x = true <-> P x) ->
  Count P l (List.length (filter p l)).
Proof.
  intros Hp. induction l as [|x l IH]; simpl.
  - constructor.
  - destruct (p x) eqn:Hx; simpl.
    + apply Count_hit; [apply Hp, Hx | exact IH].
    + apply Count_miss; [| exact IH].
      intros HP. apply Hp in HP. congruence.
Qed.

Lemma Count_functional {A : Type} (P : A -> Prop) (l : list A) (n m : nat) :
  Count P l n -> Count P l m -> n = m.
Proof.
  intros Hn. revert m.
  induction Hn; intros m' Hm; inversion Hm; subst;
    try reflexivity; try contradiction; auto.
Qed.

Lemma filter_length_le {A : Type} (p : A -> bool) (l : list A) :
  (List.length (filter p l) <= List.length l)%nat.
Proof.
  induction l as [|x l IH]; simpl; [lia|].
  destruct (p x); simpl; lia.
Qed.

Lemma filter_length_mono {A : Type} (p q : A -> bool) (l : list A) :
  (forall x, p x = true -> q x = true) ->
  (List.length (filter p l) <= List.length (filter q l))%nat.
Proof.
  intros Hpq. induction l as [|x l IH]; simpl; [lia|].
  destruct (p x) eqn:Hp.
  - rewrite (Hpq x Hp). simpl. lia.
  - destruct (q x); simpl; lia.
Qed.

Lemma filter_filter {A : Type} (p q : A -> bool) (l : list A) :
  filter p (filter q l) = filter (fun x => q x && p x) l.
Proof.
  induction l as [|x l IH]; simpl; [reflexivity|].
  destruct (q x); simpl; [destruct (p x)|]; rewrite IH; reflexivity.
Qed.

Lemma truthy_true (b : option bool) : truthy b = true <-> b = Some true.
Proof.
  destruct b as [[|]|]; simpl; split; congruence.
Qed.

Lemma isExpired_spec (now : Date) (s : Slot) :
  Storage.isExpired now s = true <->
  isActive s = Some true /\ exists e, expiresAt s = Some e /\ e < now.
Proof.
  unfold Storage.isExpired.
  rewrite andb_true_iff, truthy_true.
  destruct (expiresAt s) as [e|].
  - rewrite Z.ltb_lt. split.
    + intros [Ha He]. split; [exact Ha | exists e; auto].
    + intros [Ha [e' [He' Hlt]]]. inversion He'; subst. auto.
  - split.
    + intros [_ H]. discriminate.
    + intros [_ [e [He _]]]. discriminate.
Qed.

(** ** Expired slots *)

(** C4, as stated, fails: a slot whose expires-at equals [now] satisfies
    the inclusive condition and is not returned by [getExpiredSlots]. *)
Lemma getExpiredSlots_excludes_boundary :
  ~ (forall (now : Date) (st : MemStorage) (s : Slot),
        In s (Storage.getExpiredSlots now st) <->
        In s (JsMap.values (slots st)) /\ expiredInclusive now s).
Proof.
  intros H.
  destruct (H 1000 boundaryStore boundarySlot) as [_ Hin].
  assert (Hmem : In boundarySlot (Storage.getExpiredSlots 1000 boundaryStore)).
  { apply Hin. split.
    - simpl. left. reflexivity.
    - split; [reflexivity|]. exists 1000. split; [reflexivity | lia]. }
  vm_compute in Hmem. exact Hmem.
Qed.

(** C4, amended: for every store and every time [now], [getExpiredSlots]
    returns exactly the slots of the store with active = true, a non-null
    expires-at and expires-at strictly before [now]; the number returned
    is the number of such records. *)
Theorem getExpiredSlots_exact (now : Date) (st : MemStorage) :
  (forall s, In s (Storage.getExpiredSlots now st) <->
             In s (JsMap.values (slots st)) /\
             isActive s = Some true /\
             exists e, expiresAt s = Some e /\ e < now) /\
  Count (fun s => isActive s = Some true /\
                  exists e, expiresAt s = Some e /\ e < now)
        (JsMap.values (slots st))
        (List.length (Storage.getExpiredSlots now st)).
Proof.
  split.
  - intros s. unfold Storage.getExpiredSlots.
    rewrite filter_In, isExpired_spec. reflexivity.
  - unfold Storage.getExpiredSlots.
    apply Count_filter. intros s. apply isExpired_spec.
Qed.

(** ** Dashboard statistics *)

Lemma localMidnight_bounds (tz : Z) (now : Date) :
  Storage.localMidnight tz now <= now < Storage.localMidnight tz now + day_ms
  /\ (Storage.localMidnight tz now + tz) mod day_ms = 0.
Proof.
  unfold Storage.localMidnight.
  assert (Hd : 0 < day_ms) by (unfold day_ms; lia).
  pose proof (Z.mod_pos_bound (now + tz) day_ms Hd) as Hb.
  split; [lia|].
  replace (now - (now + tz) mod day_ms + tz)
    with ((now + tz) - (now + tz) mod day_ms) by lia.
  rewrite Zminus_mod, Zmod_mod, Z.sub_diag. apply Zmod_0_l.
Qed.

(** C10: [getSlotStats] counts, for every store: all slot records in
    [totalSlots]; the slots with active = true in [activeSlots], hence at
    most [totalSlots]; the active slots whose non-null expires-at is at
    most 24 hours after now in [expiringSoon], which includes every slot
    already expired; and the ping events used on or after local midnight
    of the current day in [todayPings], whatever their slot. *)
Theorem getSlotStats_counts (tz : Z) (now : Date) (st : MemStorage) :
  let r := Storage.getSlotStats tz now st in
  let midnight := Storage.localMidnight tz now in
  Storage.totalSlots r = List.length (JsMap.values (slots st)) /\
  Count (fun s => isActive s = Some true)
        (JsMap.values (slots st)) (Storage.activeSlots r) /\
  (Storage.activeSlots r <= Storage.totalSlots r)%nat /\
  Count (fun s => isActive s = Some true /\
                  exists e, expiresAt s = Some e /\ e <= now + 24 * hour_ms)
        (JsMap.values (slots st)) (Storage.expiringSoon r) /\
  (List.length (Storage.getExpiredSlots now st)
   <= Storage.expiringSoon r)%nat /\
  Count (fun u => exists t, usedAt u = Some t /\ midnight <= t)
        (JsMap.values (pingUsage st)) (Storage.todayPings r) /\
  midnight <= now < midnight + day_ms /\
  (midnight + tz) mod day_ms = 0.
Proof.
  cbv zeta. unfold Storage.getSlotStats. simpl.
  unfold Storage.getAllActiveSlots, JsMap.size, JsMap.values.
  repeat split.
  - rewrite length_map. reflexivity.
  - apply Count_filter. intros s. apply truthy_true.
  - rewrite <- (length_map snd (slots st)). apply filter_length_le.
  - rewrite filter_filter. apply Count_filter. intros s.
    rewrite andb_true_iff, truthy_true.
    destruct (expiresAt s) as [e|].
    + rewrite Z.leb_le. unfold hour_ms. split.
      * intros [Ha He]. split; [exact Ha|]. exists e. split; [reflexivity|lia].
      * intros [Ha [e' [He' Hle]]]. inversion He'; subst. split; [exact Ha|lia].
    + split.
      * intros [_ H]. discriminate.
      * intros [_ [e [He _]]]. discriminate.
  - rewrite filter_filter. unfold Storage.getExpiredSlots, JsMap.values.
    apply filter_length_mono. intros s. unfold Storage.isExpired.
    rewrite !andb_true_iff. intros [Ha He]. split; [exact Ha|].
    destruct (expiresAt s) as [e|]; [|discriminate].
    apply Z.ltb_lt in He. apply Z.leb_le. lia.
  - apply Count_filter. intros u.
    destruct (usedAt u) as [t|].
    + rewrite Z.leb_le. split.
      * intros Ht. exists t. auto.
      * intros [t' [Ht' Hle]]. inversion Ht'; subst. exact Hle.
    + split; [discriminate|]. intros [t [Ht _]]. discriminate.
  - apply localMidnight_bounds.
  - apply localMidnight_bounds.
  - apply localMidnight_bounds.
Qed.

(** ** Facts on [JsMap] *)

Module JsMapFacts.

Section Facts.
Variable V : Type.
Implicit Types (m : JsMap.t V) (k : string) (v : V).

Lemma get_set_same k v m : JsMap.get k (JsMap.set k v m) = Some v.
Proof.
  induction m as [|[k' v'] m IH]; simpl.
  - rewrite String.eqb_refl. reflexivity.
  - destruct (String.eqb k k') eqn:Hk; simpl; rewrite Hk; auto.
Qed.

Lemma get_set_other k k' v m :
  k <> k' -> JsMap.get k' (JsMap.set k v m) = JsMap.get k' m.
Proof.
  intros Hne. induction m as [|[k0 v0] m IH]; simpl.
  - destruct (String.eqb k' k) eqn:Hk; [|reflexivity].
    apply String.eqb_eq in Hk. congruence.
  - destruct (String.eqb k k0) eqn:Hk; simpl.
    + apply String.eqb_eq in Hk. subst k0.
      destruct (String.eqb k' k) eqn:Hk'; [|reflexivity].
      apply String.eqb_eq in Hk'. congruence.
    + rewrite IH. reflexivity.
Qed.

Lemma keys_set_present k v m :
  In k (JsMap.keys m) -> JsMap.keys (JsMap.set k v m) = JsMap.keys m.
Proof.
  induction m as [|[k' v'] m IH]; simpl; [tauto|].
  intros Hin. destruct (String.eqb k k') eqn:Hk; simpl; [reflexivity|].
  f_equal. apply IH. destruct Hin as [Heq|Hin]; [|exact Hin].
  apply String.eqb_neq in Hk. congruence.
Qed.

Lemma set_absent k v m :
  ~ In k (JsMap.keys m) -> JsMap.set k v m = m ++ [(k, v)].
Proof.
  induction m as [|[k' v'] m IH]; simpl; [reflexivity|].
  intros Hnin. destruct (String.eqb k k') eqn:Hk.
  - apply String.eqb_eq in Hk. subst. tauto.
  - rewrite IH; [reflexivity | tauto].
Qed.

Lemma keys_set k v m :
  JsMap.keys (JsMap.set k v m) = JsMap.keys m \/
  (~ In k (JsMap.keys m) /\
   JsMap.keys (JsMap.set k v m) = JsMap.keys m ++ [k]).
Proof.
  destruct (in_dec string_dec k (JsMap.keys m)) as [Hin|Hnin].
  - left. apply keys_set_present. exact Hin.
  - right. split; [exact Hnin|]. rewrite set_absent by exact Hnin.
    unfold JsMap.keys. rewrite map_app. reflexivity.
Qed.

Lemma ok_set k v m : JsMap.ok m -> JsMap.ok (JsMap.set k v m).
Proof.
  unfold JsMap.ok. intros Hok.
  destruct (keys_set k v m) as [Heq|[Hnin Heq]]; rewrite Heq; [exact Hok|].
  apply NoDup_app; [exact Hok | constructor; [simpl; tauto | constructor] |].
  intros x Hx [Hx'|[]]. subst. contradiction.
Qed.

Lemma get_In k v m : JsMap.get k m = Some v -> In (k, v) m.
Proof.
  induction m as [|[k' v'] m IH]; simpl; [discriminate|].
  destruct (String.eqb k k') eqn:Hk.
  - apply String.eqb_eq in Hk. intros [= ->]. left. congruence.
  - intros H. right. auto.
Qed.

Lemma In_get k v m : JsMap.ok m -> In (k, v) m -> JsMap.get k m = Some v.
Proof.
  unfold JsMap.ok. induction m as [|[k' v'] m IH]; simpl; [tauto|].
  intros Hok [Heq|Hin].
  - inversion Heq; subst. rewrite String.eqb_refl. reflexivity.
  - inversion Hok as [|? ? Hnin Hok']; subst.
    destruct (String.eqb k k') eqn:Hk.
    + apply String.eqb_eq in Hk. subst k'. exfalso. apply Hnin.
      change k with (fst (k, v)). apply in_map. exact Hin.
    + apply IH; assumption.
Qed.

Lemma In_set k v m k' v' :
  In (k', v') (JsMap.set k v m) -> (k', v') = (k, v) \/ In (k', v') m.
Proof.
  induction m as [|[k0 v0] m IH]; simpl.
  - intros [H|[]]. left. symmetry. exact H.
  - destruct (String.eqb k k0) eqn:Hk; simpl.
    + apply String.eqb_eq in Hk. subst k0.
      intros [H|H]; [left; symmetry; exact H | right; right; exact H].
    + intros [H|H]; [right; left; exact H|].
      destruct (IH H) as [H'|H']; [left; exact H' | right; right; exact H'].
Qed.

(** Replacing the value of a present key leaves the rest in place. *)
Lemma set_present k v v' m :
  JsMap.get k m = Some v ->
  exists m1 m2, m = m1 ++ (k, v) :: m2 /\
                JsMap.set k v' m = m1 ++ (k, v') :: m2.
Proof.
  induction m as [|[k0 v0] m IH]; simpl; [discriminate|].
  destruct (String.eqb k k0) eqn:Hk.
  - apply String.eqb_eq in Hk. subst k0. intros [= ->].
    exists [], m. split; reflexivity.
  - intros Hget. destruct (IH Hget) as [m1 [m2 [H1 H2]]].
    exists ((k0, v0) :: m1), m2. simpl. rewrite H1 at 1. rewrite H2.
    split; reflexivity.
Qed.

Lemma values_In v m : In v (JsMap.values m) <-> exists k, In (k, v) m.
Proof.
  unfold JsMap.values. rewrite in_map_iff. split.
  - intros [[k v'] [Hv Hin]]. simpl in Hv. subst. exists k. exact Hin.
  - intros [k Hin]. exists (k, v). split; [reflexivity | exact Hin].
Qed.

(** [set] adds at most one element satisfying a test. *)
Lemma filter_values_set (p : V -> bool) k v m :
  (List.length (filter p (JsMap.values (JsMap.set k v m))) <=
   List.length (filter p (JsMap.values m)) + (if p v then 1 else 0))%nat.
Proof.
  induction m as [|[k0 v0] m IH]; simpl.
  - destruct (p v); simpl; lia.
  - destruct (String.eqb k k0); simpl.
    + destruct (p v), (p v0); simpl; lia.
    + destruct (p v0); simpl; lia.
Qed.

End Facts.

End JsMapFacts.

(** ** Reasoning on computations *)

Section Closure.
Variable E : Environment.

Lemma Tidy_ret {A} (a : A) : Tidy (ret a).
Proof.
  intros w. exists []. split; [reflexivity|].
  intros _ H. inversion H.
Qed.

Lemma Tidy_throw {A} : Tidy (@throw A).
Proof.
  intros w. exists []. split; [reflexivity|]. simpl. congruence.
Qed.

Lemma Tidy_gets {A} (f : MemStorage -> A) : Tidy (gets f).
Proof.
  intros w. exists []. split; [reflexivity|].
  intros _ H. inversion H.
Qed.

Lemma Tidy_update {A} (f : MemStorage -> A * MemStorage) : Tidy (update f).
Proof.
  intros w. unfold update. destruct (f (storage w)) as [a st]. simpl.
  exists []. split; [reflexivity|]. intros _ H. inversion H.
Qed.

Lemma Tidy_consoleError msg : Tidy (consoleError msg).
Proof.
  intros w. exists [LoggedError msg]. split; [reflexivity|].
  intros _ _. constructor. exact I.
Qed.

Lemma Tidy_consoleLog msg : Tidy (consoleLog msg).
Proof.
  intros w. exists [Logged msg]. split; [reflexivity|].
  intros _ Hex. inversion Hex as [? ? Hhd|? ? Htl]; subst;
    [destruct Hhd | inversion Htl].
Qed.

Lemma Tidy_readClock : Tidy (readClock E).
Proof.
  intros w. exists []. split; [reflexivity|].
  intros _ H. inversion H.
Qed.

Lemma Tidy_randomUUID : Tidy (randomUUID E).
Proof.
  intros w. exists []. split; [reflexivity|].
  intros _ H. inversion H.
Qed.

Lemma Tidy_external c : Tidy (external E c).
Proof.
  intros w. unfold external.
  exists [Called c (respond E (ticks w) c)].
  destruct (respond E (ticks w) c) eqn:Hr; simpl;
    (split; [reflexivity|]); intros Hret Hex;
    try congruence;
    inversion Hex as [? ? Hhd|? ? Htl]; subst;
    try (simpl in Hhd; contradiction); inversion Htl.
Qed.

Lemma Tidy_bind {A B} (m : M A) (k : A -> M B) :
  Tidy m -> (forall a, Tidy (k a)) -> Tidy (bind m k).
Proof.
  intros Hm Hk w. unfold bind.
  specialize (Hm w). destruct (m w) as [[a|] w1]; simpl in *.
  - specialize (Hk a w1). destruct (k a w1) as [r w2]; simpl in *.
    destruct Hm as [evs1 [H1 L1]]. destruct Hk as [evs2 [H2 L2]].
    exists (evs2 ++ evs1). split.
    + rewrite H2, H1. apply app_assoc.
    + intros Hr Hex. apply Exists_app. apply Exists_app in Hex.
      destruct Hex as [Hex|Hex].
      * left. auto.
      * right. apply L1; [discriminate | exact Hex].
  - destruct Hm as [evs1 [H1 _]]. exists evs1. split; [exact H1|].
    congruence.
Qed.

(** A [catch] block that starts by logging accounts for whatever failed
    in the [try] block. *)
Lemma Tidy_try_log {A} (m : M A) msg (h : M A) :
  Tidy m -> Tidy h -> Tidy (try_catch m (bind (consoleError msg) (fun _ => h))).
Proof.
  intros Hm Hh w. unfold try_catch.
  specialize (Hm w). destruct (m w) as [[a|] w1]; simpl in *.
  - exact Hm.
  - destruct Hm as [evs1 [H1 _]].
    unfold bind, consoleError. simpl.
    set (w2 :=
           mkWorld (storage w1) (LoggedError msg :: trace w1) (ticks w1)).
    specialize (Hh w2). destruct (h w2) as [r w3]; simpl in *.
    destruct Hh as [evs2 [H2 _]].
    exists (evs2 ++ LoggedError msg :: evs1). split.
    + rewrite H2. unfold w2. simpl. rewrite H1.
      rewrite <- app_assoc. reflexivity.
    + intros _ _. apply Exists_app. right. constructor. exact I.
Qed.

Lemma Tidy_try_console (m : M unit) msg :
  Tidy m -> Tidy (try_catch m (consoleError msg)).
Proof.
  intros Hm w. unfold try_catch.
  specialize (Hm w). destruct (m w) as [[a|] w1]; simpl in *.
  - exact Hm.
  - destruct Hm as [evs1 [H1 _]].
    exists (LoggedError msg :: evs1). split.
    + simpl. rewrite H1. reflexivity.
    + intros _ _. constructor. exact I.
Qed.

Lemma ReadOnly_ret {A} (a : A) : ReadOnly (ret a).
Proof. intros w. reflexivity. Qed.

Lemma ReadOnly_throw {A} : ReadOnly (@throw A).
Proof. intros w. reflexivity. Qed.

Lemma ReadOnly_gets {A} (f : MemStorage -> A) : ReadOnly (gets f).
Proof. intros w. reflexivity. Qed.

Lemma ReadOnly_consoleError msg : ReadOnly (consoleError msg).
Proof. intros w. reflexivity. Qed.

Lemma ReadOnly_consoleLog msg : ReadOnly (consoleLog msg).
Proof. intros w. reflexivity. Qed.

Lemma ReadOnly_readClock : ReadOnly (readClock E).
Proof. intros w. reflexivity. Qed.

Lemma ReadOnly_external c : ReadOnly (external E c).
Proof.
  intros w. unfold external.
  destruct (respond E (ticks w) c); reflexivity.
Qed.

Lemma ReadOnly_bind {A B} (m : M A) (k : A -> M B) :
  ReadOnly m -> (forall a, ReadOnly (k a)) -> ReadOnly (bind m k).
Proof.
  intros Hm Hk w. unfold bind.
  specialize (Hm w). destruct (m w) as [[a|] w1]; simpl in *.
  - rewrite Hk. exact Hm.
  - exact Hm.
Qed.

Lemma ReadOnly_try {A} (m h : M A) :
  ReadOnly m -> ReadOnly h -> ReadOnly (try_catch m h).
Proof.
  intros Hm Hh w. unfold try_catch.
  specialize (Hm w). destruct (m w) as [[a|] w1]; simpl in *.
  - exact Hm.
  - rewrite Hh. exact Hm.
Qed.

Lemma Returns_try {A} (m h : M A) : Returns h -> Returns (try_catch m h).
Proof.
  intros Hh w. unfold try_catch.
  destruct (m w) as [[a|] w1]; simpl; [discriminate | apply Hh].
Qed.

Lemma Returns_consoleError msg : Returns (consoleError msg).
Proof. intros w. discriminate. Qed.

End Closure.

Ltac effects_step :=
  first
    [ progress unfold deref
    | apply Tidy_bind; [| intros ?]
    | apply Tidy_try_console
    | apply Tidy_try_log
    | apply Tidy_external
    | apply Tidy_consoleError
    | apply Tidy_consoleLog
    | apply Tidy_ret
    | apply Tidy_throw
    | apply Tidy_gets
    | apply Tidy_update
    | apply Tidy_readClock
    | apply Tidy_randomUUID
    | apply ReadOnly_bind; [| intros ?]
    | apply ReadOnly_try
    | apply ReadOnly_external
    | apply ReadOnly_consoleError
    | apply ReadOnly_consoleLog
    | apply ReadOnly_ret
    | apply ReadOnly_throw
    | apply ReadOnly_gets
    | apply ReadOnly_readClock
    | match goal with
      | |- context [match ?x with _ => _ end] => destruct x
      | |- context [if ?x then _ else _] => destruct x
      end ].

(** ** [revokeSlotPermissions] *)

Section Revoke.
Variable E : Environment.

Lemma revoke_ReadOnly guildId slot :
  ReadOnly (revokeSlotPermissions E guildId slot).
Proof.
  unfold revokeSlotPermissions. repeat effects_step.
Qed.

Lemma revoke_Tidy guildId slot :
  Tidy (revokeSlotPermissions E guildId slot).
Proof.
  unfold revokeSlotPermissions. repeat effects_step.
Qed.

Lemma revoke_Returns guildId slot :
  Returns (revokeSlotPermissions E guildId slot).
Proof.
  unfold revokeSlotPermissions. apply Returns_try, Returns_consoleError.
Qed.

(** However the collaborator behaves, [revokeSlotPermissions] returns
    normally and leaves the store as it was. *)
Lemma revoke_run guildId slot w :
  exists w', revokeSlotPermissions E guildId slot w = (Ret tt, w') /\
             storage w' = storage w /\
             tidy w (Ret tt) w'.
Proof.
  pose proof (revoke_ReadOnly guildId slot w) as Hro.
  pose proof (revoke_Tidy guildId slot w) as Ht.
  pose proof (revoke_Returns guildId slot w) as Hr.
  destruct (revokeSlotPermissions E guildId slot w) as [[[]|] w'];
    simpl in *; [|congruence].
  exists w'. auto.
Qed.

End Revoke.

(** Whenever the grant or the remove command returns, every failed
    authorization call of the run has an error log entry. *)
Lemma handleSlotRemove_Tidy E i : Tidy (handleSlotRemove E i).
Proof.
  unfold handleSlotRemove.
  repeat first [apply revoke_Tidy | effects_step].
Qed.

Lemma handleSlotAdd_Tidy E i : Tidy (handleSlotAdd E i).
Proof.
  unfold handleSlotAdd, createUser, createSlot.
  repeat effects_step.
Qed.

(** ** Deactivation in the store *)

Lemma updateSlot_present k u s st :
  JsMap.get k (slots st) = Some s ->
  Storage.updateSlot k u st =
  (Some (spread s u),
   mkStorage (users st) (JsMap.set k (spread s u) (slots st))
             (pingUsage st)).
Proof.
  intros Hget. unfold Storage.updateSlot. rewrite Hget. reflexivity.
Qed.

Lemma updateSlot_absent k u st :
  JsMap.get k (slots st) = None -> Storage.updateSlot k u st = (None, st).
Proof.
  intros Hget. unfold Storage.updateSlot. rewrite Hget. reflexivity.
Qed.

Lemma updateSlot_frame k u st :
  users (snd (Storage.updateSlot k u st)) = users st /\
  pingUsage (snd (Storage.updateSlot k u st)) = pingUsage st.
Proof.
  unfold Storage.updateSlot.
  destruct (JsMap.get k (slots st)); simpl; auto.
Qed.

Lemma updateSlot_get_other k k' u st :
  k <> k' ->
  JsMap.get k' (slots (snd (Storage.updateSlot k u st))) =
  JsMap.get k' (slots st).
Proof.
  intros Hne. unfold Storage.updateSlot.
  destruct (JsMap.get k (slots st)); simpl; [|reflexivity].
  apply JsMapFacts.get_set_other. exact Hne.
Qed.

Lemma updateSlot_keys k u st :
  JsMap.keys (slots (snd (Storage.updateSlot k u st))) =
  JsMap.keys (slots st).
Proof.
  unfold Storage.updateSlot.
  destruct (JsMap.get k (slots st)) as [s|] eqn:Hget; simpl; [|reflexivity].
  apply JsMapFacts.keys_set_present.
  apply JsMapFacts.get_In in Hget.
  change k with (fst (k, s)). apply in_map. exact Hget.
Qed.

Lemma wellKeyed_get st s :
  wellKeyed st -> In s (JsMap.values (slots st)) ->
  JsMap.get (id s) (slots st) = Some s.
Proof.
  intros [Hok Hid] Hin. apply JsMapFacts.values_In in Hin.
  destruct Hin as [k Hin]. rewrite (Hid k s Hin).
  apply JsMapFacts.In_get; assumption.
Qed.

Lemma wellKeyed_ids st :
  wellKeyed st -> map id (JsMap.values (slots st)) = JsMap.keys (slots st).
Proof.
  intros [_ Hid]. unfold JsMap.values, JsMap.keys.
  rewrite map_map. apply map_ext_in. intros [k s] Hin. simpl.
  apply Hid. exact Hin.
Qed.

Lemma updateSlot_deactivation_wellKeyed k st :
  wellKeyed st -> wellKeyed (snd (Storage.updateSlot k deactivation st)).
Proof.
  intros Hwf. destruct (JsMap.get k (slots st)) as [s|] eqn:Hget.
  - rewrite (updateSlot_present _ _ _ Hget). simpl.
    destruct Hwf as [Hok Hid]. split.
    + apply JsMapFacts.ok_set. exact Hok.
    + intros k' s' Hin. apply JsMapFacts.In_set in Hin.
      destruct Hin as [Heq|Hin]; [|apply Hid; exact Hin].
      inversion Heq; subst. simpl.
      apply Hid. apply JsMapFacts.get_In. exact Hget.
  - rewrite (updateSlot_absent _ _ _ Hget). exact Hwf.
Qed.

Lemma NoDup_map_filter {A B : Type} (f : A -> B) (p : A -> bool) l :
  NoDup (map f l) -> NoDup (map f (filter p l)).
Proof.
  induction l as [|x l IH]; simpl; [auto|].
  intros Hnd. inversion Hnd as [|? ? Hnin Hnd']; subst.
  destruct (p x); simpl; [|auto].
  constructor; [|auto].
  intros Hin. apply Hnin. apply in_map_iff in Hin.
  destruct Hin as [y [Hy Hin]]. apply filter_In in Hin.
  apply in_map_iff. exists y. tauto.
Qed.

Lemma deactivateAll_frame l st :
  users (deactivateAll l st) = users st /\
  pingUsage (deactivateAll l st) = pingUsage st /\
  JsMap.keys (slots (deactivateAll l st)) = JsMap.keys (slots st).
Proof.
  revert st. induction l as [|a l IH]; intros st; simpl; [auto|].
  destruct (IH (snd (Storage.updateSlot (id a) deactivation st)))
    as [Hu [Hp Hk]].
  unfold deactivateAll in *. rewrite Hu, Hp, Hk.
  destruct (updateSlot_frame (id a) deactivation st) as [Hu' Hp'].
  rewrite Hu', Hp', updateSlot_keys. auto.
Qed.

Lemma deactivateAll_wellKeyed l st :
  wellKeyed st -> wellKeyed (deactivateAll l st).
Proof.
  revert st. induction l as [|a l IH]; intros st Hwf; simpl; [exact Hwf|].
  apply IH. apply updateSlot_deactivation_wellKeyed. exact Hwf.
Qed.

Lemma deactivateAll_get_other l st k :
  ~ In k (map id l) ->
  JsMap.get k (slots (deactivateAll l st)) = JsMap.get k (slots st).
Proof.
  revert st. induction l as [|a l IH]; intros st Hnin; simpl; [reflexivity|].
  simpl in Hnin. unfold deactivateAll in *. rewrite IH by tauto.
  apply updateSlot_get_other. tauto.
Qed.

(** Writing [{ isActive: false }] under the id of a slot that is stored
    under its own id, already deactivated or not, leaves its deactivated
    copy there; writing it under another id does not touch it. *)
Lemma updateSlot_deactivation_own k s st :
  JsMap.get (id s) (slots st) = Some s \/
  JsMap.get (id s) (slots st) = Some (deactivated s) ->
  let st' := snd (Storage.updateSlot k deactivation st) in
  (k = id s -> JsMap.get (id s) (slots st') = Some (deactivated s)) /\
  (JsMap.get (id s) (slots st') = Some s \/
   JsMap.get (id s) (slots st') = Some (deactivated s)).
Proof.
  intros Hget st'. unfold st'.
  destruct (string_dec k (id s)) as [->|Hne].
  - assert (Hdone : JsMap.get (id s)
                      (slots (snd (Storage.updateSlot (id s) deactivation
                                                      st)))
                    = Some (deactivated s)).
    { destruct Hget as [Hget|Hget];
        rewrite (updateSlot_present _ _ _ Hget); simpl;
        apply JsMapFacts.get_set_same. }
    split; [intros _; exact Hdone | right; exact Hdone].
  - split; [intros Heq; contradiction|].
    rewrite updateSlot_get_other by exact Hne. exact Hget.
Qed.

Lemma deactivateAll_stable l st s :
  JsMap.get (id s) (slots st) = Some (deactivated s) ->
  JsMap.get (id s) (slots (deactivateAll l st)) = Some (deactivated s).
Proof.
  revert st. induction l as [|a l IH]; intros st Hget; simpl; [exact Hget|].
  apply IH.
  destruct (@updateSlot_deactivation_own (id a) s st (or_intror Hget))
    as [Hsame Hany].
  destruct (string_dec (id a) (id s)) as [Heq|Hne].
  - apply Hsame. exact Heq.
  - rewrite updateSlot_get_other by exact Hne. exact Hget.
Qed.

(** Whatever else the store holds, the loop of the expiration checker
    deactivates every slot of its list that is stored under its own
    id. *)
Lemma deactivateAll_own l st s :
  In s l ->
  JsMap.get (id s) (slots st) = Some s \/
  JsMap.get (id s) (slots st) = Some (deactivated s) ->
  JsMap.get (id s) (slots (deactivateAll l st)) = Some (deactivated s).
Proof.
  revert st. induction l as [|a l IH]; intros st Hin Hget; [inversion Hin|].
  simpl.
  destruct (@updateSlot_deactivation_own (id a) s st Hget) as [Hsame Hany].
  destruct (string_dec (id a) (id s)) as [Heq|Hne].
  - change (fold_left _ l _)
      with (deactivateAll l (snd (Storage.updateSlot (id a) deactivation
                                                      st))).
    apply deactivateAll_stable. apply Hsame. exact Heq.
  - destruct Hin as [->|Hin]; [contradiction Hne; reflexivity|].
    apply (IH _ Hin Hany).
Qed.

Lemma deactivateAll_get l st :
  NoDup (map id l) ->
  (forall s, In s l -> JsMap.get (id s) (slots st) = Some s) ->
  forall s, In s l ->
            JsMap.get (id s) (slots (deactivateAll l st)) =
            Some (deactivated s).
Proof.
  revert st. induction l as [|a l IH]; intros st Hnd Hget s Hin;
    [inversion Hin|].
  simpl in Hnd. inversion Hnd as [|? ? Hnin Hnd']; subst.
  simpl. set (st1 := snd (Storage.updateSlot (id a) deactivation st)).
  assert (Hrest : forall s', In s' l ->
                             JsMap.get (id s') (slots st1) = Some s').
  { intros s' Hs'. unfold st1. rewrite updateSlot_get_other.
    - apply Hget. right. exact Hs'.
    - intros Heq. apply Hnin. rewrite Heq. apply in_map. exact Hs'. }
  destruct Hin as [->|Hin].
  - change (fold_left _ l st1) with (deactivateAll l st1).
    rewrite deactivateAll_get_other by exact Hnin.
    unfold st1. rewrite (updateSlot_present _ _ _ (Hget s (or_introl eq_refl))).
    simpl. apply JsMapFacts.get_set_same.
  - apply (IH st1 Hnd' Hrest s Hin).
Qed.

(** On a well-keyed store, writing [{ isActive: false }] to every expired
    slot turns each of them into its deactivated copy and touches no other
    record. *)
Lemma deactivateAll_expired now st :
  wellKeyed st ->
  let batch := Storage.getExpiredSlots now st in
  (forall s, In s batch ->
             JsMap.get (id s) (slots (deactivateAll batch st)) =
             Some (deactivated s)) /\
  (forall k, ~ In k (map id batch) ->
             JsMap.get k (slots (deactivateAll batch st)) =
             JsMap.get k (slots st)).
Proof.
  intros Hwf batch. split.
  - apply deactivateAll_get.
    + unfold batch, Storage.getExpiredSlots. apply NoDup_map_filter.
      rewrite wellKeyed_ids by exact Hwf. apply Hwf.
    + intros s Hin. apply wellKeyed_get; [exact Hwf|].
      unfold batch, Storage.getExpiredSlots in Hin.
      apply filter_In in Hin. tauto.
  - intros k. apply deactivateAll_get_other.
Qed.

(** ** The expiration checker *)

Lemma tidy_refl {A} (a : A) w : tidy w (Ret a) w.
Proof.
  exists []. split; [reflexivity|]. intros _ H. inversion H.
Qed.

Lemma tidy_trans {A B} (a : A) (r : result B) w w1 w2 :
  tidy w (Ret a) w1 -> tidy w1 r w2 -> tidy w r w2.
Proof.
  intros [evs1 [H1 L1]] [evs2 [H2 L2]].
  exists (evs2 ++ evs1). split.
  - rewrite H2, H1. apply app_assoc.
  - intros Hr Hex. apply Exists_app. apply Exists_app in Hex.
    destruct Hex as [Hex|Hex]; [left; auto|].
    right. apply L1; [discriminate | exact Hex].
Qed.

Lemma tidy_failuresLogged {A} (a : A) w w' :
  tidy w (Ret a) w' -> failuresLogged w w'.
Proof.
  intros [evs [H L]]. exists evs. split; [exact H|].
  apply L. discriminate.
Qed.

Section Sweep.
Variable E : Environment.

Lemma expireOne_run slot w :
  exists w', expireOne E slot w = (Ret tt, w') /\
             storage w' =
             snd (Storage.updateSlot (id slot) deactivation (storage w)) /\
             tidy w (Ret tt) w'.
Proof.
  unfold expireOne.
  destruct (revoke_run E (orEmpty (GUILD_ID E)) slot w)
    as [w1 [Hrun [Hst Ht]]].
  unfold bind at 1. rewrite Hrun.
  unfold bind, updateSlot, update, consoleLog. rewrite Hst.
  destruct (Storage.updateSlot (id slot) deactivation (storage w))
    as [o st']. simpl.
  eexists. split; [reflexivity|]. split; [reflexivity|].
  eapply tidy_trans; [exact Ht|].
  exists [Logged "Expired slot"]. split; [reflexivity|].
  intros _ Hex. inversion Hex as [? ? Hhd|? ? Htl]; subst;
    [destruct Hhd | inversion Htl].
Qed.

Lemma expireEach_run l w :
  exists w', expireEach E l w = (Ret tt, w') /\
             storage w' = deactivateAll l (storage w) /\
             tidy w (Ret tt) w'.
Proof.
  revert w. induction l as [|a l IH]; intros w; simpl.
  - exists w. split; [reflexivity|]. split; [reflexivity|]. apply tidy_refl.
  - destruct (expireOne_run a w) as [w1 [Hrun [Hst Ht]]].
    unfold bind. rewrite Hrun.
    destruct (IH w1) as [w2 [Hrun2 [Hst2 Ht2]]].
    exists w2. split; [exact Hrun2|]. split.
    + rewrite Hst2, Hst. reflexivity.
    + eapply tidy_trans; eassumption.
Qed.

(** One tick: the clock is read, and the loop runs to its end over the
    slots [getExpiredSlots] returned for that reading. *)
Lemma checkExpiration_run w :
  let now := clock E (ticks w) in
  let batch := Storage.getExpiredSlots now (storage w) in
  exists w',
    checkExpiration E w = (Ret tt, w') /\
    expireEach E batch (mkWorld (storage w) (trace w) (S (ticks w))) =
    (Ret tt, w') /\
    storage w' = deactivateAll batch (storage w) /\
    tidy w (Ret tt) w'.
Proof.
  intros now batch.
  destruct (expireEach_run batch
              (mkWorld (storage w) (trace w) (S (ticks w))))
    as [w' [Hrun [Hst Ht]]].
  exists w'. split; [|split; [exact Hrun|split; [exact Hst|]]].
  - unfold checkExpiration, try_catch, bind, getExpiredSlots, bind,
      readClock, gets. simpl.
    fold now. fold batch. rewrite Hrun. reflexivity.
  - destruct Ht as [evs [H L]]. exists evs. split; [exact H | exact L].
Qed.

End Sweep.

(** The loop of the checker is not cut short by the collaborator. In
    one tick, whatever calls fail and for whichever slots, the tick
    returns normally; every slot of the expired list that is stored
    under its own id is stored with [isActive] false afterwards, on any
    store; and where every record is stored under its own id, the
    records outside the list are left as they were. *)
Lemma sweep_continues (E : Environment) (w : World) :
  let batch := Storage.getExpiredSlots (clock E (ticks w)) (storage w) in
  exists w',
    checkExpiration E w = (Ret tt, w') /\
    (forall s, In s batch ->
               JsMap.get (id s) (slots (storage w)) = Some s ->
               JsMap.get (id s) (slots (storage w')) =
               Some (deactivated s) /\
               isActive (deactivated s) = Some false) /\
    (forall k, ~ In k (map id batch) ->
               JsMap.get k (slots (storage w')) =
               JsMap.get k (slots (storage w))).
Proof.
  intros batch.
  destruct (checkExpiration_run E w) as [w' [Hrun [_ [Hst _]]]].
  exists w'. split; [exact Hrun|].
  rewrite Hst. split.
  - intros s Hin Hget. split; [|reflexivity].
    apply deactivateAll_own; [exact Hin | left; exact Hget].
  - intros k. apply deactivateAll_get_other.
Qed.


(** ** Runs of the handlers *)

(** Closes a goal from [H : Exists P l] on an explicit list [l] none of
    whose elements has [P]. *)
Ltac absurd_throw H :=
  repeat match type of H with
         | Exists _ (_ :: _) =>
             apply Exists_cons in H; destruct H as [H|H];
             [simpl in H; solve [contradiction | discriminate]|]
         | Exists _ [] => inversion H
         end.

Lemma found_active d st slot :
  Storage.getSlotByDiscordUserId d st = Some slot ->
  In slot (JsMap.values (slots st)) /\
  discordUserId slot = d /\ truthy (isActive slot) = true.
Proof.
  unfold Storage.getSlotByDiscordUserId. intros Hf.
  apply find_some in Hf. destruct Hf as [Hin Hp].
  apply andb_true_iff in Hp. destruct Hp as [Hd Ha].
  apply String.eqb_eq in Hd. auto.
Qed.

Lemma none_active d st :
  Storage.getSlotByDiscordUserId d st = None <-> activeCount d st = 0%nat.
Proof.
  unfold Storage.getSlotByDiscordUserId, activeCount, activeFor.
  induction (JsMap.values (slots st)) as [|s l IH]; simpl.
  - tauto.
  - destruct (String.eqb (discordUserId s) d && truthy (isActive s)); simpl.
    + split; discriminate.
    + exact IH.
Qed.

Ltac reduce_run :=
  cbv beta iota zeta; cbn [storage ticks trace fst snd].

(** The events of [L] that come before its tail [t]. *)
Ltac prefix_of L t :=
  match L with
  | t => constr:(@nil event)
  | ?x :: ?L' => let p := prefix_of L' t in constr:(x :: p)
  end.

Section Runs.
Variable E : Environment.

Lemma external_returns c w :
  respond E (ticks w) c <> Throws ->
  external E c w =
  (Ret (respond E (ticks w) c),
   mkWorld (storage w) (Called c (respond E (ticks w) c) :: trace w)
           (S (ticks w))).
Proof.
  intros Hr. unfold external.
  destruct (respond E (ticks w) c); congruence.
Qed.

Lemma external_throws c w :
  respond E (ticks w) c = Throws ->
  external E c w =
  (Exn, mkWorld (storage w) (Called c Throws :: trace w) (S (ticks w))).
Proof.
  intros Hr. unfold external. rewrite Hr. reflexivity.
Qed.

Lemma ping_ignored_run message w :
  Storage.getSlotByDiscordUserId (m_author message) (storage w) = None ->
  handleEveryonePing E message w = (Ret Ignored, w).
Proof.
  intros Hnone. unfold handleEveryonePing, try_catch, bind, gets.
  rewrite Hnone. reflexivity.
Qed.

Lemma ping_allowed_run message slot cfg w :
  Storage.getSlotByDiscordUserId (m_author message) (storage w) = Some slot ->
  shopTypes (shopType slot) = Some cfg ->
  (List.length (recentPings E slot cfg w) < pingsPerCooldown cfg)%nat ->
  handleEveryonePing E message w =
  (Ret Allowed,
   mkWorld (mkStorage (users (storage w)) (slots (storage w))
                      (JsMap.set (uuid E (S (ticks w)))
                                 (recordedPing E message slot w)
                                 (pingUsage (storage w))))
           (trace w) (3 + ticks w)).
Proof.
  intros Hfound Hcfg Hlt.
  destruct (found_active _ _ Hfound) as [_ [_ Hact]].
  unfold handleEveryonePing, try_catch, bind, gets.
  rewrite Hfound, Hact. cbn [negb readClock fst snd storage ticks trace].
  rewrite (@lookupTier_own _ _ Hcfg).
  unfold recentPings in Hlt.
  apply Nat.leb_gt in Hlt.
  cbn [storage ticks trace]. rewrite Hlt.
  reflexivity.
Qed.

(** The notification of the author after a revocation: a direct message,
    or a post in the channel when that fails; neither failure goes on. *)
Lemma notify_run author channel w :
  exists w',
    try_catch (bind (external E (AuthorSend author)) (fun _ => ret tt))
              (try_catch
                 (bind (external E (ChannelSend channel)) (fun _ => ret tt))
                 (ret tt)) w = (Ret tt, w') /\
    storage w' = storage w /\
    exists evs, trace w' = evs ++ trace w /\ ~ Exists isAuthThrow evs.
Proof.
  unfold try_catch, bind, external, ret.
  destruct (respond E (ticks w) (AuthorSend author)) eqn:Hdm; simpl;
    try (eexists; split; [reflexivity|]; split; [reflexivity|];
         eexists [_]; split; [reflexivity|];
         intros Hex; absurd_throw Hex).
  destruct (respond E (S (ticks w)) (ChannelSend channel)) eqn:Hch; simpl;
    (eexists; split; [reflexivity|]; split; [reflexivity|];
     eexists [_; _]; split; [reflexivity|];
     intros Hex; absurd_throw Hex).
Qed.

Lemma ping_overLimit_run message slot cfg w :
  Storage.getSlotByDiscordUserId (m_author message) (storage w) = Some slot ->
  shopTypes (shopType slot) = Some cfg ->
  (pingsPerCooldown cfg <= List.length (recentPings E slot cfg w))%nat ->
  let rsp := respond E (S (ticks w)) (MessageDelete (m_id message)) in
  let deleted := Called (MessageDelete (m_id message)) rsp in
  (rsp = Throws ->
   handleEveryonePing E message w =
   (Ret Errored,
    mkWorld (storage w)
            (LoggedError "Error handling @everyone ping:" :: deleted ::
                         trace w)
            (2 + ticks w))) /\
  (rsp <> Throws ->
   exists w',
     handleEveryonePing E message w = (Ret OverLimit, w') /\
     storage w' =
     snd (Storage.updateSlot (id slot) deactivation (storage w)) /\
     exists evs, trace w' = evs ++ deleted :: trace w /\
                 (Exists isAuthThrow evs -> Exists isErrorLog evs)).
Proof.
  intros Hfound Hcfg Hle rsp deleted.
  destruct (found_active _ _ Hfound) as [_ [_ Hact]].
  unfold recentPings in Hle. apply Nat.leb_le in Hle.
  assert (Hhead :
    handleEveryonePing E message w =
    try_catch
      (bind (external E (MessageDelete (m_id message))) (fun _ =>
       bind (revokeSlotPermissions E (orEmpty (m_guild message)) slot) (fun _ =>
       bind (updateSlot (id slot) deactivation) (fun _ =>
       bind (try_catch
               (bind (external E (AuthorSend (m_author message)))
                     (fun _ => ret tt))
               (try_catch
                  (bind (external E (ChannelSend (m_channel message)))
                        (fun _ => ret tt))
                  (ret tt))) (fun _ =>
       bind (consoleLog "Slot revoked due to ping abuse") (fun _ =>
       ret OverLimit))))))
      (bind (consoleError "Error handling @everyone ping:")
            (fun _ => ret Errored))
      (mkWorld (storage w) (trace w) (S (ticks w)))).
  { unfold handleEveryonePing.
    unfold try_catch at 1 3. unfold bind at 1 2, gets at 1.
    rewrite Hfound, Hact. cbn [negb readClock fst snd storage ticks trace].
    rewrite (@lookupTier_own _ _ Hcfg). unfold bind at 1, gets at 1.
    cbn [storage ticks trace]. rewrite Hle. reflexivity. }
  rewrite Hhead. clear Hhead.
  set (w1 := mkWorld (storage w) (trace w) (S (ticks w))).
  split.
  - intros Hthrow. unfold try_catch at 1, bind at 1.
    rewrite external_throws by exact Hthrow.
    unfold deleted. fold rsp. rewrite Hthrow. reflexivity.
  - intros Hok. unfold try_catch at 1. unfold bind at 1.
    rewrite external_returns by exact Hok.
    set (w2 := mkWorld _ _ _).
    destruct (revoke_run E (orEmpty (m_guild message)) slot w2)
      as [w3 [Hrun [Hst3 Ht3]]].
    unfold bind at 1. rewrite Hrun.
    unfold bind at 1. unfold updateSlot, update.
    rewrite Hst3. cbn [storage w2 w1].
    destruct (Storage.updateSlot (id slot) deactivation (storage w))
      as [o st'] eqn:Hupd.
    set (w4 := mkWorld st' (trace w3) (ticks w3)).
    destruct (notify_run (m_author message) (m_channel message) w4)
      as [w5 [Hnot [Hst5 [evsn [Htr5 Hnone]]]]].
    unfold bind at 1. rewrite Hnot.
    unfold bind, consoleLog, ret.
    eexists. split; [reflexivity|]. split; [exact Hst5|].
    destruct Ht3 as [evsr [Htr3 Hlog]].
    exists (Logged "Slot revoked due to ping abuse" :: evsn ++ evsr).
    split.
    + cbn [trace]. rewrite Htr5. cbn [trace w4]. rewrite Htr3.
      cbn [trace w2 w1]. simpl. rewrite <- app_assoc. reflexivity.
    + intros Hex. inversion Hex as [? ? Hhd|? ? Htl]; subst;
        [destruct Hhd|].
      apply Exists_cons_tl. apply Exists_app. apply Exists_app in Htl.
      destruct Htl as [Hn|Hr]; [contradiction|].
      right. apply Hlog; [discriminate | exact Hr].
Qed.

(** Once the reply is deferred, [/slotremove] in a guild for a holder
    with an active slot writes [{ isActive: false }] under the id of
    the slot found, whatever the collaborators answer afterwards, and
    every authorization call that failed is logged. *)
Lemma handleSlotRemove_commit i guildId slot w :
  sr_guild i = Some guildId ->
  respond E (ticks w) DeferReply <> Throws ->
  Storage.getSlotByDiscordUserId (du_id (sr_user i)) (storage w)
  = Some slot ->
  storage (snd (handleSlotRemove E i w))
  = snd (Storage.updateSlot (id slot) deactivation (storage w)) /\
  failuresLogged w (snd (handleSlotRemove E i w)).
Proof.
  intros Hguild Hdefer Hfound.
  cut (exists r w',
          handleSlotRemove E i w = (r, w') /\
          storage w'
          = snd (Storage.updateSlot (id slot) deactivation (storage w)) /\
          failuresLogged w w').
  { intros [r [w' [Hrun [Hst Hlog]]]]. rewrite Hrun. auto. }
  unfold handleSlotRemove. unfold bind at 1.
  rewrite external_returns by exact Hdefer. rewrite Hguild.
  set (w1 := mkWorld _ _ _).
  unfold try_catch. unfold bind at 1. unfold gets at 1.
  cbn [storage w1]. rewrite Hfound.
  destruct (revoke_run E guildId slot w1) as [w2 [Hrun [Hst2 Ht2]]].
  unfold bind at 1. rewrite Hrun.
  unfold bind at 1. unfold updateSlot, update.
  rewrite Hst2. cbn [storage w1].
  destruct (Storage.updateSlot (id slot) deactivation (storage w))
    as [o st'].
  destruct Ht2 as [evs [Htr Hlog]].
  assert (Hmid : forall post,
             Forall (fun e => ~ isAuthThrow e) post ->
             exists all,
               post ++ trace w2 = all ++ trace w /\
               (Exists isAuthThrow all -> Exists isErrorLog all)).
  { intros post Hpost.
    exists (post ++ evs ++
            [Called DeferReply (respond E (ticks w) DeferReply)]).
    split.
    - rewrite Htr. unfold w1. cbn [trace].
      rewrite <- !app_assoc. reflexivity.
    - intros Hex. apply Exists_app in Hex. destruct Hex as [Hex|Hex].
      + exfalso. apply Exists_exists in Hex.
        destruct Hex as [e [Hin He]].
        rewrite Forall_forall in Hpost. exact (Hpost e Hin He).
      + apply Exists_app in Hex. destruct Hex as [Hex|Hex].
        * apply Exists_app. right. apply Exists_app. left.
          apply Hlog; [discriminate | exact Hex].
        * exfalso. inversion Hex as [? ? Hhd|? ? Htl]; subst;
            [|inversion Htl].
          destruct (respond E (ticks w) DeferReply); simpl in Hhd;
            try contradiction; discriminate. }
  unfold bind, external, consoleError, ret. reduce_run.
  destruct (respond E (ticks w2) (EditReply ReplyRemoved));
    reduce_run;
    try (eexists; eexists; split; [reflexivity|];
         split; [reflexivity|]; unfold failuresLogged; cbn [trace];
         apply (Hmid [_]); repeat constructor; simpl; tauto).
  destruct (respond E (S (ticks w2)) (EditReply ReplyFailedRemove));
    reduce_run;
    (eexists; eexists; split; [reflexivity|];
     split; [reflexivity|]; unfold failuresLogged; cbn [trace];
     apply (Hmid [_; _; _]); repeat constructor; simpl;
     intuition discriminate).
Qed.

End Runs.

(** ** Deactivation commits whatever the authorization collaborator does *)

Lemma updateSlot_deactivates st slot :
  wellKeyed st -> In slot (JsMap.values (slots st)) ->
  JsMap.get (id slot)
            (slots (snd (Storage.updateSlot (id slot) deactivation st)))
  = Some (deactivated slot).
Proof.
  intros Hwf Hin.
  rewrite (updateSlot_present _ _ _ (wellKeyed_get _ Hwf Hin)). simpl.
  apply JsMapFacts.get_set_same.
Qed.

(** C6, as stated, fails. The deactivation does not commit for every
    trigger: not for a broadcast attempt at the quota whose message
    cannot be removed, although every authorization call succeeds; not
    for [/slotremove] sent outside a guild, nor when its reply cannot be
    deferred; and not for a slot whose record is stored under another
    key than its id. In each case the slot found for the holder is
    still among the active slots afterwards. *)
Lemma deactivation_can_be_blocked :
  ~ (forall E message slot cfg w,
        Storage.getSlotByDiscordUserId (m_author message) (storage w)
        = Some slot ->
        shopTypes (shopType slot) = Some cfg ->
        (pingsPerCooldown cfg <= List.length (recentPings E slot cfg w))%nat ->
        ~ stillActive slot (snd (handleEveryonePing E message w))) /\
  ~ (forall E i slot w,
        respond E (ticks w) DeferReply <> Throws ->
        Storage.getSlotByDiscordUserId (du_id (sr_user i)) (storage w)
        = Some slot ->
        ~ stillActive slot (snd (handleSlotRemove E i w))) /\
  ~ (forall E i guildId slot w,
        sr_guild i = Some guildId ->
        Storage.getSlotByDiscordUserId (du_id (sr_user i)) (storage w)
        = Some slot ->
        ~ stillActive slot (snd (handleSlotRemove E i w))) /\
  ~ (forall E i guildId slot w,
        sr_guild i = Some guildId ->
        respond E (ticks w) DeferReply <> Throws ->
        Storage.getSlotByDiscordUserId (du_id (sr_user i)) (storage w)
        = Some slot ->
        ~ stillActive slot (snd (handleSlotRemove E i w))).
Proof.
  repeat split; intros H.
  - apply (H deleteDownEnv aliceMessage aliceSlot level3Config sampleWorld);
      first [ reflexivity
            | vm_compute; lia
            | unfold stillActive; vm_compute; auto ].
  - apply (H calmEnv removeAliceDirect aliceSlot sampleWorld);
      first [ reflexivity
            | simpl; discriminate
            | unfold stillActive; vm_compute; auto ].
  - apply (H deferDownEnv removeAlice "guild-1"%string aliceSlot sampleWorld);
      first [ reflexivity
            | unfold stillActive; vm_compute; auto ].
  - apply (H calmEnv removeBob "guild-1"%string rekeyedBob patchedWorld);
      first [ reflexivity
            | simpl; discriminate
            | unfold stillActive; vm_compute; auto ].
Qed.

(** C6, amended: when a revoke trigger gets to the revocation of a slot
    stored under its own id, then for every behaviour of the
    authorization collaborator, including every one of its calls
    failing, the slot is stored with [isActive] false afterwards and
    every failed authorization call is accompanied by an error log
    entry. The triggers are: [/slotremove] in a guild for a holder with
    an active slot, once its reply is deferred; a broadcast attempt at
    or over the quota, once its message is removed; a tick of the
    expiration checker, for each slot of its expired list. *)
Theorem deactivation_commits (E : Environment) (w : World) :
  (forall i guildId slot,
      sr_guild i = Some guildId ->
      respond E (ticks w) DeferReply <> Throws ->
      Storage.getSlotByDiscordUserId (du_id (sr_user i)) (storage w)
      = Some slot ->
      Storage.getSlot (id slot) (storage w) = Some slot ->
      let w' := snd (handleSlotRemove E i w) in
      Storage.getSlot (id slot) (storage w') = Some (deactivated slot) /\
      isActive (deactivated slot) = Some false /\
      failuresLogged w w') /\
  (forall message slot cfg,
      Storage.getSlotByDiscordUserId (m_author message) (storage w)
      = Some slot ->
      shopTypes (shopType slot) = Some cfg ->
      (pingsPerCooldown cfg <= List.length (recentPings E slot cfg w))%nat ->
      respond E (S (ticks w)) (MessageDelete (m_id message)) <> Throws ->
      Storage.getSlot (id slot) (storage w) = Some slot ->
      exists w',
        handleEveryonePing E message w = (Ret OverLimit, w') /\
        Storage.getSlot (id slot) (storage w') = Some (deactivated slot) /\
        isActive (deactivated slot) = Some false /\
        failuresLogged w w') /\
  (exists w',
      checkExpiration E w = (Ret tt, w') /\
      (forall slot,
          In slot (Storage.getExpiredSlots (clock E (ticks w)) (storage w)) ->
          Storage.getSlot (id slot) (storage w) = Some slot ->
          Storage.getSlot (id slot) (storage w') = Some (deactivated slot) /\
          isActive (deactivated slot) = Some false) /\
      failuresLogged w w').
Proof.
  assert (Hown : forall slot,
             Storage.getSlot (id slot) (storage w) = Some slot ->
             Storage.getSlot
               (id slot)
               (snd (Storage.updateSlot (id slot) deactivation (storage w)))
             = Some (deactivated slot)).
  { intros slot Hget. unfold Storage.getSlot in *.
    rewrite (updateSlot_present _ _ _ Hget). simpl.
    apply JsMapFacts.get_set_same. }
  split; [|split].
  - intros i guildId slot Hguild Hdefer Hfound Hget w'.
    destruct (handleSlotRemove_commit E i w Hguild Hdefer Hfound)
      as [Hst Hlog].
    unfold w'. rewrite Hst.
    split; [exact (Hown slot Hget)|]. split; [reflexivity | exact Hlog].
  - intros message slot cfg Hfound Hcfg Hover Hdelete Hget.
    destruct (ping_overLimit_run E message w Hfound Hcfg Hover)
      as [_ Hrun].
    destruct (Hrun Hdelete) as [w' [Hrun' [Hst [evs [Htr Hlog]]]]].
    exists w'. split; [exact Hrun'|]. rewrite Hst.
    split; [exact (Hown slot Hget)|]. split; [reflexivity|].
    exists (evs ++ [Called (MessageDelete (m_id message))
                           (respond E (S (ticks w))
                                    (MessageDelete (m_id message)))]).
    split.
    + rewrite Htr. rewrite <- app_assoc. reflexivity.
    + intros Hex. apply Exists_app. left. apply Hlog.
      apply Exists_app in Hex. destruct Hex as [Hex|Hex]; [exact Hex|].
      exfalso. inversion Hex as [? ? Hhd|? ? Htl]; subst; [|inversion Htl].
      destruct (respond E (S (ticks w)) (MessageDelete (m_id message)));
        simpl in Hhd; try contradiction; discriminate.
  - destruct (checkExpiration_run E w) as [w' [Hrun [_ [Hst Ht]]]].
    exists w'. split; [exact Hrun|]. split.
    + intros slot Hin Hget. split; [|reflexivity].
      rewrite Hst. unfold Storage.getSlot in *.
      apply deactivateAll_own; [exact Hin | left; exact Hget].
    + apply (tidy_failuresLogged Ht).
Qed.

(** ** Broadcast attempts without an active slot *)

Lemma no_active_none d st :
  (forall s, In s (JsMap.values (slots st)) ->
             discordUserId s = d -> isActive s <> Some true) ->
  Storage.getSlotByDiscordUserId d st = None.
Proof.
  intros Hall. destruct (Storage.getSlotByDiscordUserId d st) as [s|] eqn:Hf;
    [|reflexivity].
  destruct (found_active _ _ Hf) as [Hin [Hd Ha]].
  apply truthy_true in Ha. exfalso. exact (Hall s Hin Hd Ha).
Qed.

(** C9, as stated, fails: for a holder whose only slot is inactive the
    attempt is not rejected with an error; it is silently ignored. *)
Lemma inactive_holder_silently_ignored :
  ~ (forall E message w,
        holderInactive (m_author message) (storage w) ->
        ~ silentlyIgnored E message w).
Proof.
  intros H.
  apply (H calmEnv aliceMessage (world0 revokedStore)).
  - split.
    + exists revokedSlot. split; [left; reflexivity | reflexivity].
    + intros s [<-|[]] _. discriminate.
  - reflexivity.
Qed.

(** C9, amended: a broadcast attempt by a holder none of whose slots is
    active is ignored, whatever the holder's ping usage: the handler
    leaves through its early return without an error, a call to a
    collaborator, a log entry or a ping event, and the store is
    unchanged. *)
Theorem inactive_holder_ignored (E : Environment) (message : Message)
        (w : World) :
  (forall s, In s (JsMap.values (slots (storage w))) ->
             discordUserId s = m_author message ->
             isActive s <> Some true) ->
  handleEveryonePing E message w = (Ret Ignored, w).
Proof.
  intros Hall. apply ping_ignored_run. apply no_active_none. exact Hall.
Qed.

Lemma inactive_holder_ignored_witness :
  (forall s, In s (JsMap.values (slots (storage (world0 revokedStore)))) ->
             discordUserId s = m_author aliceMessage ->
             isActive s <> Some true) /\
  handleEveryonePing downEnv aliceMessage (world0 revokedStore)
  = (Ret Ignored, world0 revokedStore).
Proof.
  assert (Hall : forall s,
             In s (JsMap.values (slots (storage (world0 revokedStore)))) ->
             discordUserId s = m_author aliceMessage ->
             isActive s <> Some true).
  { intros s [<-|[]] _. discriminate. }
  split; [exact Hall|].
  apply (inactive_holder_ignored downEnv aliceMessage (world0 revokedStore)).
  exact Hall.
Defined.

(** ** Repeated triggers *)

Lemma ping_unknownTier_run E message slot w :
  Storage.getSlotByDiscordUserId (m_author message) (storage w) = Some slot ->
  lookupTier (shopType slot) = NoTier ->
  handleEveryonePing E message w =
  (Ret Errored,
   mkWorld (storage w)
           (LoggedError "Error handling @everyone ping:" :: trace w)
           (S (ticks w))).
Proof.
  intros Hfound Hcfg.
  destruct (found_active _ _ Hfound) as [_ [_ Hact]].
  unfold handleEveryonePing, try_catch, bind, gets.
  rewrite Hfound, Hact. cbn [negb readClock fst snd storage ticks trace].
  rewrite Hcfg. reflexivity.
Qed.

(** For a tier name that is only an inherited name of the table the
    window start is an invalid date and the quota [undefined]: no ping
    is counted, the comparison fails, and the ping is recorded. *)
Lemma ping_inherited_run E message slot fname w :
  Storage.getSlotByDiscordUserId (m_author message) (storage w) = Some slot ->
  lookupTier (shopType slot) = InheritedValue fname ->
  handleEveryonePing E message w =
  (Ret Allowed,
   mkWorld (mkStorage (users (storage w)) (slots (storage w))
                      (JsMap.set (uuid E (S (ticks w)))
                                 (recordedPing E message slot w)
                                 (pingUsage (storage w))))
           (trace w) (3 + ticks w)).
Proof.
  intros Hfound Hcfg.
  destruct (found_active _ _ Hfound) as [_ [_ Hact]].
  unfold handleEveryonePing, try_catch, bind, gets.
  rewrite Hfound, Hact. cbn [negb readClock fst snd storage ticks trace].
  rewrite Hcfg. reflexivity.
Qed.

(** The over-limit return is reached only from a slot found active, with
    a known tier, at or over its quota. *)
Lemma ping_overLimit_inv E message w w' :
  handleEveryonePing E message w = (Ret OverLimit, w') ->
  exists slot cfg,
    Storage.getSlotByDiscordUserId (m_author message) (storage w)
    = Some slot /\
    shopTypes (shopType slot) = Some cfg /\
    (pingsPerCooldown cfg <= List.length (recentPings E slot cfg w))%nat /\
    storage w' = snd (Storage.updateSlot (id slot) deactivation (storage w)).
Proof.
  intros Hrun.
  destruct (Storage.getSlotByDiscordUserId (m_author message) (storage w))
    as [slot|] eqn:Hfound.
  - destruct (lookupTier (shopType slot)) as [cfg|fname|] eqn:Hlook.
    + pose proof (lookupTier_own_inv _ Hlook) as Hcfg.
      destruct (le_lt_dec (pingsPerCooldown cfg)
                          (List.length (recentPings E slot cfg w)))
        as [Hover|Hunder].
      * exists slot, cfg. repeat split; try assumption.
        destruct (ping_overLimit_run E message w Hfound Hcfg Hover)
          as [Hthrow Hok].
        destruct (respond E (S (ticks w)) (MessageDelete (m_id message)))
          eqn:Hrsp;
          try (destruct Hok as [w1 [Hrun1 [Hst _]]]; [discriminate|];
               rewrite Hrun in Hrun1; inversion Hrun1; subst; exact Hst).
        rewrite (Hthrow eq_refl) in Hrun. discriminate.
      * rewrite (ping_allowed_run E message w Hfound Hcfg Hunder) in Hrun.
        discriminate.
    + rewrite (ping_inherited_run E message w Hfound Hlook) in Hrun.
      discriminate.
    + rewrite (ping_unknownTier_run E message w Hfound Hlook) in Hrun.
      discriminate.
  - rewrite (ping_ignored_run E message w Hfound) in Hrun. discriminate.
Qed.

Lemma values_app {V : Type} (m1 m2 : JsMap.t V) :
  JsMap.values (m1 ++ m2) = JsMap.values m1 ++ JsMap.values m2.
Proof. unfold JsMap.values. apply map_app. Qed.

(** Under the one-active-slot invariant, deactivating the slot found for
    a holder leaves the holder without an active slot. *)
Lemma deactivate_found_none d st slot :
  wellKeyed st -> atMostOneActive st ->
  Storage.getSlotByDiscordUserId d st = Some slot ->
  Storage.getSlotByDiscordUserId
    d (snd (Storage.updateSlot (id slot) deactivation st)) = None.
Proof.
  intros Hwf Hone Hfound.
  destruct (found_active _ _ Hfound) as [Hin [Hd Hact]].
  pose proof (wellKeyed_get _ Hwf Hin) as Hget.
  rewrite (updateSlot_present _ _ _ Hget). simpl.
  destruct (@JsMapFacts.set_present Slot (id slot) slot
                                    (spread slot deactivation) (slots st) Hget)
    as [m1 [m2 [Hm Hset]]].
  apply none_active. unfold activeCount. simpl. rewrite Hset.
  specialize (Hone d). unfold activeCount in Hone. rewrite Hm in Hone.
  rewrite values_app, filter_app, length_app in *.
  simpl in *.
  assert (Hslot : activeFor d slot = true).
  { unfold activeFor. rewrite Hd, String.eqb_refl, Hact. reflexivity. }
  rewrite Hslot in Hone. simpl in Hone.
  assert (Hdead : activeFor d (spread slot deactivation) = false).
  { unfold activeFor. simpl. apply andb_false_r. }
  rewrite Hdead. lia.
Qed.

Lemma expired_is_active now st s :
  In s (Storage.getExpiredSlots now st) ->
  In s (JsMap.values (slots st)) /\ truthy (isActive s) = true.
Proof.
  unfold Storage.getExpiredSlots, Storage.isExpired. intros Hin.
  apply filter_In in Hin. destruct Hin as [Hin Hp].
  apply andb_true_iff in Hp. tauto.
Qed.


(** On a store where every record is stored under its own id the
    revoke triggers are idempotent. (1) A slot that is not
    active is selected by neither trigger: it is in no expired list and
    is not the slot found for a broadcast attempt. (2) After a tick of
    the expiration checker has deactivated its expired list, a later
    tick on that store, at any time and with any collaborator, runs its
    loop over a list that contains none of those slots, leaves each of
    them as it was deactivated, and when that list is empty changes
    neither the store nor the trace. (3) After a broadcast attempt took
    the over-limit return, a further attempt by the same author on that
    store returns at once with the world unchanged, where the author had
    at most one active slot. *)
Lemma revoke_triggers_idempotent (E E' : Environment) (w : World)
        (Hwf : wellKeyed (storage w)) :
  (forall s, In s (JsMap.values (slots (storage w))) ->
             isActive s <> Some true ->
             (forall now, ~ In s (Storage.getExpiredSlots now (storage w))) /\
             (forall d,
                 Storage.getSlotByDiscordUserId d (storage w) <> Some s)) /\
  (exists w1,
      checkExpiration E w = (Ret tt, w1) /\
      forall w1', storage w1' = storage w1 ->
        let batch := Storage.getExpiredSlots (clock E (ticks w))
                                             (storage w) in
        let batch' := Storage.getExpiredSlots (clock E' (ticks w1'))
                                              (storage w1') in
        exists w2,
          checkExpiration E' w1' = (Ret tt, w2) /\
          expireEach E' batch'
                     (mkWorld (storage w1') (trace w1') (S (ticks w1')))
          = (Ret tt, w2) /\
          (forall s, In s batch ->
                     ~ In (id s) (map id batch') /\
                     JsMap.get (id s) (slots (storage w1'))
                     = Some (deactivated s) /\
                     JsMap.get (id s) (slots (storage w2))
                     = Some (deactivated s)) /\
          (batch' = [] ->
           storage w2 = storage w1' /\ trace w2 = trace w1')) /\
  (forall message w1,
      atMostOneActive (storage w) ->
      handleEveryonePing E message w = (Ret OverLimit, w1) ->
      forall message' w1',
        storage w1' = storage w1 ->
        m_author message' = m_author message ->
        handleEveryonePing E' message' w1' = (Ret Ignored, w1')).
Proof.
  split; [|split].
  - intros s Hin Hinactive. split.
    + intros now Hexp. apply expired_is_active in Hexp.
      destruct Hexp as [_ Ha]. apply truthy_true in Ha. contradiction.
    + intros d Hfound. destruct (found_active _ _ Hfound) as [_ [_ Ha]].
      apply truthy_true in Ha. contradiction.
  - destruct (checkExpiration_run E w) as [w1 [Hrun [_ [Hst _]]]].
    exists w1. split; [exact Hrun|].
    intros w1' Hsame batch batch'.
    destruct (checkExpiration_run E' w1') as [w2 [Hrun2 [Hloop [Hst2 _]]]].
    fold batch' in Hloop, Hst2.
    exists w2. split; [exact Hrun2|]. split; [exact Hloop|].
    assert (Hwf1 : wellKeyed (storage w1')).
    { rewrite Hsame, Hst. apply deactivateAll_wellKeyed. exact Hwf. }
    assert (Hdead : forall s, In s batch ->
                              JsMap.get (id s) (slots (storage w1'))
                              = Some (deactivated s)).
    { intros s Hs. rewrite Hsame, Hst.
      apply (deactivateAll_expired (clock E (ticks w)) Hwf). exact Hs. }
    assert (Hout : forall s, In s batch -> ~ In (id s) (map id batch')).
    { intros s Hs Hin'. apply in_map_iff in Hin'.
      destruct Hin' as [s' [Hid Hs']].
      apply expired_is_active in Hs'. destruct Hs' as [Hin' Ha'].
      pose proof (wellKeyed_get _ Hwf1 Hin') as Hget'.
      rewrite Hid, (Hdead s Hs) in Hget'. inversion Hget'; subst s'.
      simpl in Ha'. discriminate. }
    split.
    + intros s Hs. split; [exact (Hout s Hs)|]. split; [exact (Hdead s Hs)|].
      rewrite Hst2. rewrite deactivateAll_get_other by exact (Hout s Hs).
      exact (Hdead s Hs).
    + intros Hempty. rewrite Hempty in Hloop. simpl in Hloop.
      unfold ret in Hloop. inversion Hloop; subst w2. simpl. auto.
  - intros message w1 Hone Hrun message' w1' Hsame Hauthor.
    apply ping_overLimit_inv in Hrun.
    destruct Hrun as [slot [cfg [Hfound [_ [_ Hst]]]]].
    apply ping_ignored_run. rewrite Hsame, Hst, Hauthor.
    apply deactivate_found_none; assumption.
Qed.

(** ** The quota decision *)

Lemma response_eq_dec (a b : response) : {a = b} + {a <> b}.
Proof. decide equality. Qed.

Lemma isRecentPing_spec sid since u :
  Storage.isRecentPing sid since u = true <->
  slotId u = sid /\ exists t, usedAt u = Some t /\ since <= t.
Proof.
  unfold Storage.isRecentPing.
  rewrite andb_true_iff, String.eqb_eq.
  destruct (usedAt u) as [t|].
  - rewrite Z.leb_le. split.
    + intros [Hs Ht]. split; [exact Hs|]. exists t. auto.
    + intros [Hs [t' [Ht' Hle]]]. inversion Ht'; subst. auto.
  - split.
    + intros [_ H]. discriminate.
    + intros [_ [t [Ht _]]]. discriminate.
Qed.

(** The pings the code counts are those of the slot used at or after
    the start of the window; it sets no upper bound. *)
Lemma recentPings_count E slot cfg w used :
  Count (fun u => slotId u = id slot /\
                  exists t, usedAt u = Some t /\
                            clock E (ticks w) - pingCooldown cfg <= t)
        (JsMap.values (pingUsage (storage w))) used ->
  List.length (recentPings E slot cfg w) = used.
Proof.
  intros Hcount.
  apply (Count_functional (l := JsMap.values (pingUsage (storage w)))
           (P := fun u => slotId u = id slot /\
                          exists t, usedAt u = Some t /\
                                    clock E (ticks w) - pingCooldown cfg <= t));
    [|exact Hcount].
  unfold recentPings, Storage.getPingUsage. apply Count_filter.
  intros u. apply isRecentPing_spec.
Qed.

Lemma getPingUsage_other sid since st :
  (forall u, In u (JsMap.values (pingUsage st)) -> slotId u <> sid) ->
  Storage.getPingUsage sid since st = [].
Proof.
  unfold Storage.getPingUsage. intros Hother.
  induction (JsMap.values (pingUsage st)) as [|u l IH]; simpl; [reflexivity|].
  unfold Storage.isRecentPing at 1.
  destruct (String.eqb (slotId u) sid) eqn:Hs.
  - apply String.eqb_eq in Hs. exfalso.
    apply (Hother u); [left; reflexivity | exact Hs].
  - simpl. apply IH. intros u' Hin. apply Hother. right. exact Hin.
Qed.

Section Partnered.
Variable E : Environment.
Variables (m1 m2 m3 : Message) (slot : Slot) (w : World).

Hypothesis Hfound :
  Storage.getSlotByDiscordUserId (m_author m1) (storage w) = Some slot.
Hypothesis Hsame2 : m_author m2 = m_author m1.
Hypothesis Hsame3 : m_author m3 = m_author m1.
Hypothesis Htier : shopType slot = "partnered".
Hypothesis Hnone :
  forall u, In u (JsMap.values (pingUsage (storage w))) ->
            slotId u <> id slot.
Hypothesis Hfresh :
  forall n, ~ In (uuid E n) (JsMap.keys (pingUsage (storage w))).
Hypothesis Hdistinct : forall a b, uuid E a = uuid E b -> a = b.
Hypothesis Hmono : forall a b, (a <= b)%nat -> clock E a <= clock E b.
Hypothesis Hwindow :
  clock E (6 + ticks w) - clock E (ticks w) <= 24 * hour_ms.

Let cfg := mkShopConfig "Partnered" None (24 * 60 * 60 * 1000) 2.

Let tick0 := ticks w.
Let ping1 := recordedPing E m1 slot w.
Let store1 :=
  mkStorage (users (storage w)) (slots (storage w))
            (pingUsage (storage w) ++ [(uuid E (S tick0), ping1)]).
Let world1 := mkWorld store1 (trace w) (3 + tick0).
Let ping2 := recordedPing E m2 slot world1.
Let store2 :=
  mkStorage (users (storage w)) (slots (storage w))
            (pingUsage (storage w) ++
             [(uuid E (S tick0), ping1); (uuid E (4 + tick0)%nat, ping2)]).
Let world2 := mkWorld store2 (trace w) (6 + tick0).

Lemma partnered_cfg : shopTypes (shopType slot) = Some cfg.
Proof. rewrite Htier. reflexivity. Qed.

Lemma partnered_first : handleEveryonePing E m1 w = (Ret Allowed, world1).
Proof.
  rewrite (ping_allowed_run E m1 w Hfound partnered_cfg).
  - unfold world1, store1. rewrite JsMapFacts.set_absent by apply Hfresh.
    reflexivity.
  - unfold recentPings. rewrite getPingUsage_other by exact Hnone.
    simpl. lia.
Qed.

Lemma partnered_found1 :
  Storage.getSlotByDiscordUserId (m_author m2) (storage world1) = Some slot.
Proof. rewrite Hsame2. exact Hfound. Qed.

Lemma partnered_found2 :
  Storage.getSlotByDiscordUserId (m_author m3) (storage world2) = Some slot.
Proof. rewrite Hsame3. exact Hfound. Qed.

Lemma partnered_recent1 :
  recentPings E slot cfg world1 = [ping1].
Proof.
  unfold recentPings, Storage.getPingUsage, world1, store1.
  cbn [storage pingUsage ticks]. rewrite values_app, filter_app.
  fold (Storage.getPingUsage (id slot)
          (clock E (3 + tick0) - pingCooldown cfg) (storage w)).
  rewrite getPingUsage_other by exact Hnone.
  simpl. unfold Storage.isRecentPing. simpl.
  rewrite String.eqb_refl. simpl.
  replace (_ <=? _) with true; [reflexivity|].
  symmetry. apply Z.leb_le.
  pose proof (@Hmono (3 + tick0)%nat (6 + tick0)%nat) as Hw1.
  pose proof (@Hmono tick0 (S (S tick0))) as Hw2.
  unfold hour_ms, tick0 in *. simpl in *. lia.
Qed.

Lemma partnered_second : handleEveryonePing E m2 world1 = (Ret Allowed, world2).
Proof.
  rewrite (ping_allowed_run E m2 world1 partnered_found1 partnered_cfg).
  - unfold world2, store2, ping2, world1, store1.
    cbn [storage ticks trace users slots pingUsage].
    rewrite JsMapFacts.set_absent.
    + rewrite <- app_assoc. reflexivity.
    + unfold JsMap.keys. rewrite map_app, in_app_iff. simpl.
      intros [Hin|[Heq|[]]].
      * exact (Hfresh _ Hin).
      * apply Hdistinct in Heq. unfold tick0 in Heq. lia.
  - rewrite partnered_recent1. simpl. lia.
Qed.

Lemma partnered_recent2 :
  recentPings E slot cfg world2 = [ping1; ping2].
Proof.
  unfold recentPings, Storage.getPingUsage, world2, store2.
  cbn [storage pingUsage ticks]. rewrite values_app, filter_app.
  fold (Storage.getPingUsage (id slot)
          (clock E (6 + tick0) - pingCooldown cfg) (storage w)).
  rewrite getPingUsage_other by exact Hnone.
  simpl. unfold Storage.isRecentPing. simpl.
  rewrite String.eqb_refl. simpl.
  pose proof (@Hmono tick0 (S (S tick0))) as Hw1.
  pose proof (@Hmono tick0 (S (S (S (S (S tick0)))))) as Hw2.
  unfold hour_ms, tick0 in *. simpl in *.
  replace (_ <=? clock E (S (S (ticks w)))) with true
    by (symmetry; apply Z.leb_le; lia).
  replace (_ <=? clock E (S (S (S (S (S (ticks w))))))) with true
    by (symmetry; apply Z.leb_le; lia).
  reflexivity.
Qed.

(** Two attempts are allowed and recorded; the third finds two pings in
    the window: it records nothing, and the first thing it does is to
    ask for the removal of the message. *)
Lemma partnered_three_attempts :
  handleEveryonePing E m1 w = (Ret Allowed, world1) /\
  handleEveryonePing E m2 world1 = (Ret Allowed, world2) /\
  let rsp := respond E (7 + tick0) (MessageDelete (m_id m3)) in
  let out := handleEveryonePing E m3 world2 in
  pingUsage (storage (snd out)) = pingUsage (storage world2) /\
  (exists evs,
      trace (snd out) =
      evs ++ Called (MessageDelete (m_id m3)) rsp :: trace world2) /\
  (rsp <> Throws -> fst out = Ret OverLimit).
Proof.
  split; [exact partnered_first|]. split; [exact partnered_second|].
  intros rsp out.
  assert (Hover : (pingsPerCooldown cfg <=
                   List.length (recentPings E slot cfg world2))%nat).
  { rewrite partnered_recent2. simpl. lia. }
  destruct (ping_overLimit_run E m3 world2 partnered_found2 partnered_cfg
                               Hover) as [Hthrow Hok].
  change (S (ticks world2)) with (7 + tick0)%nat in Hthrow, Hok.
  fold rsp in Hthrow, Hok.
  destruct (response_eq_dec rsp Throws) as [Heq|Hne].
  - unfold out. rewrite (Hthrow Heq). simpl. split; [reflexivity|]. split.
    + exists [LoggedError "Error handling @everyone ping:"]. reflexivity.
    + intros Hne. contradiction.
  - destruct (Hok Hne) as [w' [Hrun [Hst [evs [Htr _]]]]].
    unfold out. rewrite Hrun. simpl. split.
    + rewrite Hst. apply updateSlot_frame.
    + split; [exists evs; exact Htr | reflexivity].
Qed.

End Partnered.

(** C2, as stated, fails, in two ways. At the quota the attempt is not
    signalled over the limit when the removal of the message throws: it
    ends in the error branch. And the window has no upper end: a ping
    dated after [now] is outside [[now - W, now]] and is counted all the
    same, so an attempt with no ping in that interval is not allowed. *)
Lemma quota_decision_as_stated_fails :
  ~ (forall E message slot cfg w used,
        Storage.getSlotByDiscordUserId (m_author message) (storage w)
        = Some slot ->
        shopTypes (shopType slot) = Some cfg ->
        Count (fun u => slotId u = id slot /\
                        exists t, usedAt u = Some t /\
                                  clock E (ticks w) - pingCooldown cfg <= t
                                  <= clock E (ticks w))
              (JsMap.values (pingUsage (storage w))) used ->
        (pingsPerCooldown cfg <= used)%nat ->
        fst (handleEveryonePing E message w) = Ret OverLimit) /\
  ~ (forall E message slot cfg w used,
        Storage.getSlotByDiscordUserId (m_author message) (storage w)
        = Some slot ->
        shopTypes (shopType slot) = Some cfg ->
        Count (fun u => slotId u = id slot /\
                        exists t, usedAt u = Some t /\
                                  clock E (ticks w) - pingCooldown cfg <= t
                                  <= clock E (ticks w))
              (JsMap.values (pingUsage (storage w))) used ->
        (used < pingsPerCooldown cfg)%nat ->
        fst (handleEveryonePing E message w) = Ret Allowed).
Proof.
  split; intros H.
  - assert (Hsig : fst (handleEveryonePing deleteDownEnv aliceMessage
                                           sampleWorld) = Ret OverLimit).
    { apply (H deleteDownEnv aliceMessage aliceSlot level3Config sampleWorld
               1%nat); [reflexivity | reflexivity | | simpl; lia].
      apply Count_hit; [|apply Count_nil].
      split; [reflexivity|]. exists 999000. split; [reflexivity|].
      cbn [clock deleteDownEnv ticks sampleWorld world0 pingCooldown
                 level3Config]. lia. }
    vm_compute in Hsig. discriminate Hsig.
  - assert (Hsig : fst (handleEveryonePing calmEnv aliceMessage
                                           (world0 aheadStore))
                   = Ret Allowed).
    { apply (H calmEnv aliceMessage aliceSlot level3Config
               (world0 aheadStore) 0%nat);
        [reflexivity | reflexivity | | simpl; lia].
      apply Count_miss; [|apply Count_nil].
      intros [_ [t [Ht [_ Hle]]]]. simpl in Ht. inversion Ht; subst t.
      cbn [clock calmEnv ticks world0] in Hle. lia. }
    vm_compute in Hsig. discriminate Hsig.
Qed.

(** C2, amended: a broadcast attempt by a holder whose slot is found
    active, of a tier with window [W] and quota [Q], at the time [now],
    with [used] the number of pings of the slot used at or after
    [now - W]. If [used >= Q] the attempt records no ping and the first
    thing the handler does is to ask for the removal of the message; it
    is signalled over the limit when that call does not throw. If
    [used < Q] the attempt is signalled allowed, calls no collaborator,
    and the ping map gains exactly one entry for any id [randomUUID]
    returns that is not in use. For a partnered slot without earlier
    pings and a clock that never goes back, three attempts of which the
    third comes at most 24 hours after the first: the first two are
    allowed and recorded, the third is over the limit. *)
Theorem ping_quota_decision (E : Environment) (w : World)
        (message : Message) (slot : Slot) (cfg : ShopConfig) (used : nat)
        (Hfound : Storage.getSlotByDiscordUserId (m_author message)
                                               (storage w) = Some slot)
        (Hcfg : shopTypes (shopType slot) = Some cfg)
        (Hused : Count (fun u => slotId u = id slot /\
                                 exists t, usedAt u = Some t /\
                                           clock E (ticks w) - pingCooldown cfg
                                           <= t)
                       (JsMap.values (pingUsage (storage w))) used) :
  ((pingsPerCooldown cfg <= used)%nat ->
   let rsp := respond E (S (ticks w)) (MessageDelete (m_id message)) in
   let out := handleEveryonePing E message w in
   pingUsage (storage (snd out)) = pingUsage (storage w) /\
   (exists evs,
       trace (snd out) =
       evs ++ Called (MessageDelete (m_id message)) rsp :: trace w) /\
   (rsp <> Throws -> fst out = Ret OverLimit)) /\
  ((used < pingsPerCooldown cfg)%nat ->
   exists w',
     handleEveryonePing E message w = (Ret Allowed, w') /\
     trace w' = trace w /\
     slots (storage w') = slots (storage w) /\
     (~ In (uuid E (S (ticks w))) (JsMap.keys (pingUsage (storage w))) ->
      pingUsage (storage w') =
      pingUsage (storage w) ++
      [(uuid E (S (ticks w)), recordedPing E message slot w)])) /\
  (shopType slot = "partnered" ->
   (forall u, In u (JsMap.values (pingUsage (storage w))) ->
              slotId u <> id slot) ->
   (forall n, ~ In (uuid E n) (JsMap.keys (pingUsage (storage w)))) ->
   (forall a b, uuid E a = uuid E b -> a = b) ->
   (forall a b, (a <= b)%nat -> clock E a <= clock E b) ->
   clock E (6 + ticks w) - clock E (ticks w) <= 24 * hour_ms ->
   forall second third,
     m_author second = m_author message ->
     m_author third = m_author message ->
     exists w1 w2,
       handleEveryonePing E message w = (Ret Allowed, w1) /\
       handleEveryonePing E second w1 = (Ret Allowed, w2) /\
       List.length (pingUsage (storage w2)) =
       (2 + List.length (pingUsage (storage w)))%nat /\
       let rsp := respond E (S (ticks w2)) (MessageDelete (m_id third)) in
       let out := handleEveryonePing E third w2 in
       pingUsage (storage (snd out)) = pingUsage (storage w2) /\
       (exists evs,
           trace (snd out) =
           evs ++ Called (MessageDelete (m_id third)) rsp :: trace w2) /\
       (rsp <> Throws -> fst out = Ret OverLimit)).
Proof.
  pose proof (@recentPings_count E slot cfg w used Hused) as Hlen.
  split; [|split].
  - intros Hover rsp out.
    rewrite <- Hlen in Hover.
    destruct (ping_overLimit_run E message w Hfound Hcfg Hover)
      as [Hthrow Hok].
    fold rsp in Hthrow, Hok.
    destruct (response_eq_dec rsp Throws) as [Heq|Hne].
    + unfold out. rewrite (Hthrow Heq). simpl. split; [reflexivity|]. split.
      * exists [LoggedError "Error handling @everyone ping:"]. reflexivity.
      * intros Hne. contradiction.
    + destruct (Hok Hne) as [w' [Hrun [Hst [evs [Htr _]]]]].
      unfold out. rewrite Hrun. simpl. split.
      * rewrite Hst. apply updateSlot_frame.
      * split; [exists evs; exact Htr | reflexivity].
  - intros Hunder. rewrite <- Hlen in Hunder.
    rewrite (ping_allowed_run E message w Hfound Hcfg Hunder).
    eexists. split; [reflexivity|]. split; [reflexivity|].
    split; [reflexivity|].
    intros Hfreshid. simpl. apply JsMapFacts.set_absent. exact Hfreshid.
  - intros Htier Hnone Hfresh Hdistinct Hmono Hwindow second third Hs2 Hs3.
    destruct (@partnered_three_attempts E message second third slot w
                Hfound Hs2 Hs3 Htier Hnone Hfresh Hdistinct Hmono Hwindow)
      as [H1 [H2 H3]].
    eexists. eexists. split; [exact H1|]. split; [exact H2|].
    split; [|exact H3].
    simpl. rewrite length_app. simpl. lia.
Qed.

(** ** The grant command *)

Lemma shopTypes_cases k cfg :
  shopTypes k = Some cfg ->
  (k = "level1" /\ duration cfg = Some (7 * day_ms)) \/
  (k = "level2" /\ duration cfg = Some (14 * day_ms)) \/
  (k = "level3" /\ duration cfg = Some (30 * day_ms)) \/
  (k = "level4" /\ duration cfg = None) \/
  (k = "partnered" /\ duration cfg = None).
Proof.
  unfold shopTypes.
  destruct (String.eqb k "level1") eqn:H1;
    [apply String.eqb_eq in H1; intros [= <-]; left; auto|].
  destruct (String.eqb k "level2") eqn:H2;
    [apply String.eqb_eq in H2; intros [= <-]; right; left; auto|].
  destruct (String.eqb k "level3") eqn:H3;
    [apply String.eqb_eq in H3; intros [= <-]; right; right; left; auto|].
  destruct (String.eqb k "level4") eqn:H4;
    [apply String.eqb_eq in H4; intros [= <-]; right; right; right; left;
     auto|].
  destruct (String.eqb k "partnered") eqn:H5;
    [apply String.eqb_eq in H5; intros [= <-]; right; right; right; right;
     auto|].
  discriminate.
Qed.

Section Preservation.
Variable E : Environment.

Lemma KeepsSlots_ReadOnly {A} (m : M A) : ReadOnly m -> KeepsSlots m.
Proof. intros H w. rewrite H. reflexivity. Qed.

Lemma KeepsSlots_bind {A B} (m : M A) (k : A -> M B) :
  KeepsSlots m -> (forall a, KeepsSlots (k a)) -> KeepsSlots (bind m k).
Proof.
  intros Hm Hk w. unfold bind.
  specialize (Hm w). destruct (m w) as [[a|] w1]; simpl in *.
  - rewrite Hk. exact Hm.
  - exact Hm.
Qed.

Lemma KeepsSlots_createUser u : KeepsSlots (createUser E u).
Proof. intros w. reflexivity. Qed.

Lemma Pres_keeps (I : MemStorage -> Prop) {A} (m : M A) :
  SlotsOnly I -> KeepsSlots m -> Pres I I m.
Proof.
  intros HI Hm w Hw. apply (HI (storage w)); [|exact Hw].
  symmetry. apply Hm.
Qed.

Lemma Pres_weaken (I R Q : MemStorage -> Prop) {A} (m : M A) :
  (forall st, R st -> Q st) -> Pres I R m -> Pres I Q m.
Proof. intros HRQ Hm w Hw. apply HRQ, Hm, Hw. Qed.

Lemma Pres_bind (I R Q : MemStorage -> Prop) {A B} (m : M A) (k : A -> M B) :
  (forall st, R st -> Q st) ->
  Pres I R m -> (forall a, Pres R Q (k a)) -> Pres I Q (bind m k).
Proof.
  intros HRQ Hm Hk w Hw. unfold bind.
  specialize (Hm w Hw). destruct (m w) as [[a|] w1]; simpl in *.
  - apply Hk. exact Hm.
  - apply HRQ. exact Hm.
Qed.

(** As [Pres_bind], with a fact [F] on the value [m] returns. *)
Lemma Pres_bind_value (I Q : MemStorage -> Prop) {A B} (F : A -> Prop)
      (m : M A) (k : A -> M B) :
  (forall st, I st -> Q st) ->
  Pres I I m ->
  (forall w a, fst (m w) = Ret a -> F a) ->
  (forall a, F a -> Pres I Q (k a)) -> Pres I Q (bind m k).
Proof.
  intros HIQ Hm HF Hk w Hw. unfold bind.
  specialize (Hm w Hw). specialize (HF w).
  destruct (m w) as [[a|] w1]; simpl in *.
  - apply Hk; [apply HF; reflexivity | exact Hm].
  - apply HIQ. exact Hm.
Qed.

Lemma Pres_gets_bind (I Q : MemStorage -> Prop) {A B}
      (f : MemStorage -> A) (k : A -> M B) :
  (forall a, Pres (fun st => I st /\ f st = a) Q (k a)) ->
  Pres I Q (bind (gets f) k).
Proof.
  intros Hk w Hw. unfold bind, gets.
  apply (Hk (f (storage w)) w). split; [exact Hw | reflexivity].
Qed.

Lemma Pres_try (I Q : MemStorage -> Prop) {A} (m h : M A) :
  Pres I Q m -> Pres Q Q h -> Pres I Q (try_catch m h).
Proof.
  intros Hm Hh w Hw. unfold try_catch.
  specialize (Hm w Hw). destruct (m w) as [[a|] w1]; simpl in *.
  - exact Hm.
  - apply Hh. exact Hm.
Qed.

Lemma Pres_createSlot (I Q : MemStorage -> Prop) ins :
  (forall st k now, I st -> Q (snd (Storage.createSlot k now ins st))) ->
  Pres I Q (createSlot E ins).
Proof.
  intros H w Hw. unfold createSlot, bind, randomUUID, readClock, update.
  simpl. apply H. exact Hw.
Qed.

End Preservation.

Ltac keeps_step :=
  first
    [ apply KeepsSlots_createUser
    | apply KeepsSlots_ReadOnly; solve [repeat effects_step]
    | apply KeepsSlots_bind; [| intros ?]
    | match goal with
      | |- context [match ?x with _ => _ end] => destruct x
      | |- context [if ?x then _ else _] => destruct x
      end ].

Lemma atMostOneActive_SlotsOnly : SlotsOnly atMostOneActive.
Proof.
  intros st st' Heq H d. specialize (H d). unfold activeCount in *.
  rewrite <- Heq. exact H.
Qed.

(** Storing an active slot for a holder who has none keeps the holders
    at one active slot at most, also when the new id replaces a record. *)
Lemma createSlot_atMostOneActive st k now ins :
  atMostOneActive st ->
  Storage.getSlotByDiscordUserId (is_discordUserId ins) st = None ->
  atMostOneActive (snd (Storage.createSlot k now ins st)).
Proof.
  intros Hone Hnone d. unfold activeCount. simpl.
  set (slot := mkSlot _ _ _ _ _ _ _ _ _ _ _).
  pose proof (JsMapFacts.filter_values_set (activeFor d) k slot (slots st))
    as Hle.
  specialize (Hone d). unfold activeCount in Hone.
  destruct (activeFor d slot) eqn:Hact; [|lia].
  unfold activeFor in Hact. apply andb_true_iff in Hact.
  destruct Hact as [Hd _]. apply String.eqb_eq in Hd. simpl in Hd.
  apply none_active in Hnone. unfold activeCount in Hnone.
  rewrite Hd in Hnone. lia.
Qed.

(** A property of the slots map that every [createSlot] of a grant
    request keeps is kept by the grant command, whatever the
    collaborator answers and wherever the command stops. *)
Lemma handleSlotAdd_invariant E i (I : MemStorage -> Prop) :
  SlotsOnly I ->
  (forall st k now ins,
      I st -> grantRequest E i st ins ->
      I (snd (Storage.createSlot k now ins st))) ->
  Pres I I (handleSlotAdd E i).
Proof.
  intros HI Hcreate.
  set (I2 := fun st => I st /\
                       Storage.getSlotByDiscordUserId
                         (du_id (sa_user i)) st = None).
  assert (HI2 : SlotsOnly I2).
  { intros st st' Heq [H1 H2]. split; [exact (HI _ _ Heq H1)|].
    unfold Storage.getSlotByDiscordUserId in *. rewrite <- Heq. exact H2. }
  assert (HI2I : forall st, I2 st -> I st) by (intros st [H _]; exact H).
  unfold handleSlotAdd.
  apply Pres_bind with (R := I); [auto| |intros _].
  { apply Pres_keeps; [exact HI|]. repeat keeps_step. }
  destruct (sa_guild i).
  2:{ apply Pres_keeps; [exact HI|]. repeat keeps_step. }
  apply Pres_try.
  2:{ apply Pres_keeps; [exact HI|]. repeat keeps_step. }
  apply Pres_gets_bind. intros [existing|].
  { apply Pres_weaken with (R := fun st => I st /\
        Storage.getSlotByDiscordUserId (du_id (sa_user i)) st
        = Some existing); [intros st [H _]; exact H|].
    apply Pres_keeps.
    - intros st st' Heq [H1 H2]. split; [exact (HI _ _ Heq H1)|].
      unfold Storage.getSlotByDiscordUserId in *. rewrite <- Heq. exact H2.
    - repeat keeps_step. }
  fold I2.
  apply Pres_bind with (R := I2); [exact HI2I| |intros found].
  { apply Pres_keeps; [exact HI2|]. repeat keeps_step. }
  apply Pres_bind with (R := I2); [exact HI2I| |intros storageUser].
  { apply Pres_keeps; [exact HI2|]. repeat keeps_step. }
  destruct (negb (nonEmpty (orEmpty (SLOT_ROLE_ID E)))).
  { apply Pres_weaken with (R := I2); [exact HI2I|].
    apply Pres_keeps; [exact HI2|]. repeat keeps_step. }
  apply Pres_bind with (R := I2); [exact HI2I| |intros slotRole].
  { apply Pres_keeps; [exact HI2|]. repeat keeps_step. }
  cbv zeta.
  match goal with
  | |- Pres _ _ (match slotRole with
                 | Done => ?body
                 | Absent => _
                 | NonText => _
                 | Throws => _
                 end) => assert (Hgrant : Pres I2 I body)
  end.
  { do 5 (apply Pres_bind with (R := I2);
          [exact HI2I
          |apply Pres_keeps; [exact HI2|]; repeat keeps_step
          |intros ?]).
    destruct (lookupTier (sa_shoptype i)) as [shopConfig|fname|] eqn:Hlook.
    - pose proof (lookupTier_own_inv _ Hlook) as Hcfg.
      apply Pres_bind_value with
          (F := fun a : option Date =>
                  match duration shopConfig with
                  | Some d => exists n, a = Some (clock E n + d)
                  | None => a = None
                  end); [exact HI2I| | |intros expiresAt Hexp].
      { apply Pres_keeps; [exact HI2|]. repeat keeps_step. }
      { intros w0 expires. pose proof (shopTypes_cases _ Hcfg) as Hc.
        destruct (duration shopConfig) as [d|].
        - assert (Hd : (d =? 0) = false).
          { apply Z.eqb_neq. unfold day_ms in Hc.
            destruct Hc as [[_ H]|[[_ H]|[[_ H]|[[_ H]|[_ H]]]]];
              inversion H; lia. }
          rewrite Hd. unfold bind, readClock, ret. simpl.
          intros [= <-]. exists (ticks w0). reflexivity.
        - simpl. intros [= <-]. reflexivity. }
      apply Pres_bind with (R := I); [auto| |intros _].
      { apply Pres_createSlot. intros st k now [H1 H2].
        apply Hcreate; [exact H1|].
        split; [exact H2|]. repeat (split; [reflexivity|]).
        unfold expiryFollows. rewrite Hlook. exact Hexp. }
      apply Pres_keeps; [exact HI|]. repeat keeps_step.
    - apply Pres_bind with (R := I); [auto| |intros _].
      { apply Pres_createSlot. intros st k now [H1 H2].
        apply Hcreate; [exact H1|].
        split; [exact H2|]. repeat (split; [reflexivity|]).
        unfold expiryFollows. rewrite Hlook. reflexivity. }
      apply Pres_keeps; [exact HI|]. repeat keeps_step.
    - apply Pres_weaken with (R := I2); [exact HI2I|].
      apply Pres_keeps; [exact HI2|]. repeat keeps_step. }
  destruct slotRole; try exact Hgrant.
  apply Pres_weaken with (R := I2); [exact HI2I|].
  apply Pres_keeps; [exact HI2|]. repeat keeps_step.
Qed.

(** The grant command preserves the one-active-slot invariant, whatever
    the collaborator answers. *)
Lemma handleSlotAdd_atMostOneActive E i w :
  atMostOneActive (storage w) ->
  atMostOneActive (storage (snd (handleSlotAdd E i w))).
Proof.
  apply (@handleSlotAdd_invariant E i atMostOneActive).
  - exact atMostOneActive_SlotsOnly.
  - intros st k now ins Hone [Hnone [Hd _]].
    apply createSlot_atMostOneActive; [exact Hone|].
    rewrite Hd. exact Hnone.
Qed.

Lemma wellKeyed_SlotsOnly : SlotsOnly wellKeyed.
Proof.
  intros st st' Heq [Hok Hid]. unfold wellKeyed. rewrite <- Heq.
  split; assumption.
Qed.

Lemma createSlot_wellKeyed st k now ins :
  wellKeyed st -> wellKeyed (snd (Storage.createSlot k now ins st)).
Proof.
  intros [Hok Hid]. split; simpl.
  - apply JsMapFacts.ok_set. exact Hok.
  - intros k' s Hin. apply JsMapFacts.In_set in Hin.
    destruct Hin as [Heq|Hin]; [|apply Hid; exact Hin].
    inversion Heq; subst. reflexivity.
Qed.

(** The stores the grant command and the create-slot route produce from
    a well-keyed store are well-keyed. *)
Lemma handleSlotAdd_wellKeyed E i w :
  wellKeyed (storage w) -> wellKeyed (storage (snd (handleSlotAdd E i w))).
Proof.
  apply (@handleSlotAdd_invariant E i wellKeyed).
  - exact wellKeyed_SlotsOnly.
  - intros st k now ins Hwf _. apply createSlot_wellKeyed. exact Hwf.
Qed.

Lemma postSlots_wellKeyed E body w :
  wellKeyed (storage w) -> wellKeyed (storage (snd (postSlots E body w))).
Proof.
  intros Hwf. destruct body as [ins|]; [|exact Hwf].
  apply createSlot_wellKeyed. exact Hwf.
Qed.

(** A grant for a holder who has an active slot leaves the store as it
    was; in a guild, once the reply was deferred, the command answers
    that the user already has an active slot. *)
Lemma handleSlotAdd_duplicate E i w existing :
  Storage.getSlotByDiscordUserId (du_id (sa_user i)) (storage w)
  = Some existing ->
  storage (snd (handleSlotAdd E i w)) = storage w /\
  (forall guild,
      sa_guild i = Some guild ->
      respond E (ticks w) DeferReply <> Throws ->
      exists evs,
        trace (snd (handleSlotAdd E i w)) =
        evs ++ Called (EditReply ReplyAlreadyHasSlot)
                      (respond E (S (ticks w))
                               (EditReply ReplyAlreadyHasSlot))
            :: Called DeferReply (respond E (ticks w) DeferReply)
            :: trace w).
Proof.
  intros Hfound. split.
  - unfold handleSlotAdd, try_catch, bind, gets, external, consoleError, ret.
    reduce_run.
    destruct (respond E (ticks w) DeferReply);
      reduce_run; try reflexivity;
      (destruct (sa_guild i); reduce_run;
       [ rewrite Hfound; reduce_run
       | destruct (respond E (S (ticks w)) (EditReply ReplyServerOnly));
         reflexivity ]);
      (destruct (respond E (S (ticks w)) (EditReply ReplyAlreadyHasSlot));
       reduce_run; try reflexivity;
       destruct (respond E (S (S (ticks w))) (EditReply ReplyFailedCreate));
       reflexivity).
  - intros guild Hguild Hdefer.
    unfold handleSlotAdd, try_catch, bind, gets, external, consoleError, ret.
    reduce_run. rewrite Hguild.
    destruct (respond E (ticks w) DeferReply);
      try congruence; reduce_run; rewrite Hfound; reduce_run;
      (destruct (respond E (S (ticks w)) (EditReply ReplyAlreadyHasSlot));
       reduce_run;
       try (exists []; reflexivity);
       destruct (respond E (S (S (ticks w))) (EditReply ReplyFailedCreate));
       reduce_run;
       eexists [_; _]; reflexivity).
Qed.

(** ** Expiry of granted slots *)

Lemma values_set_In {V : Type} (k : string) (v x : V) (m : JsMap.t V) :
  In x (JsMap.values (JsMap.set k v m)) -> x = v \/ In x (JsMap.values m).
Proof.
  intros Hin. apply JsMapFacts.values_In in Hin. destruct Hin as [k' Hin].
  apply JsMapFacts.In_set in Hin. destruct Hin as [Heq|Hin].
  - left. congruence.
  - right. apply JsMapFacts.values_In. exists k'. exact Hin.
Qed.

(** Every slot in the store after a grant command was there before or
    was stored by it as a grant. *)
Lemma handleSlotAdd_grants E i w s :
  In s (JsMap.values (slots (storage (snd (handleSlotAdd E i w))))) ->
  In s (JsMap.values (slots (storage w))) \/ grantedBy E s.
Proof.
  set (J := fun st => forall s, In s (JsMap.values (slots st)) ->
                                In s (JsMap.values (slots (storage w))) \/
                                grantedBy E s).
  assert (Hpres : Pres J J (handleSlotAdd E i)).
  { apply handleSlotAdd_invariant.
    - intros st st' Heq H x Hx. apply H. rewrite Heq. exact Hx.
    - intros st k now ins Hst [_ [_ [Hact [Htier Hexp]]]] x Hx.
      simpl in Hx. apply values_set_In in Hx.
      destruct Hx as [->|Hx]; [|auto].
      right. split; [exact Hact|]. simpl.
      rewrite Htier. exact Hexp. }
  intros Hin. apply (Hpres w); [|exact Hin].
  intros x Hx. left. exact Hx.
Qed.

(** A granted slot has a null expires-at exactly for the two lifetime
    tiers and for a tier name that is only an inherited name of the
    table, and a clock reading plus seven days for level1. *)
Lemma grantedBy_tier E s :
  grantedBy E s ->
  (expiresAt s = None <->
   shopType s = "level4" \/ shopType s = "partnered" \/
   inheritedName (shopType s) <> None) /\
  (shopType s = "level1" ->
   exists n, expiresAt s = Some (clock E n + 7 * day_ms)).
Proof.
  intros [_ Hexp]. unfold expiryFollows in Hexp.
  destruct (lookupTier (shopType s)) as [cfg|fname|] eqn:Hlook;
    [|destruct (lookupTier_inherited _ Hlook) as [Hown Hinh]|contradiction].
  - pose proof (lookupTier_own_inv _ Hlook) as Hcfg.
    destruct (shopTypes_cases _ Hcfg)
      as [[Hk Hd]|[[Hk Hd]|[[Hk Hd]|[[Hk Hd]|[Hk Hd]]]]];
      rewrite Hd in Hexp; rewrite Hk.
    + split; [split|].
      * intros Hnone. destruct Hexp as [n Hn]. congruence.
      * intros [H|[H|H]]; try discriminate. exfalso. apply H. reflexivity.
      * intros _. exact Hexp.
    + split; [split|].
      * intros Hnone. destruct Hexp as [n Hn]. congruence.
      * intros [H|[H|H]]; try discriminate. exfalso. apply H. reflexivity.
      * intros H. discriminate.
    + split; [split|].
      * intros Hnone. destruct Hexp as [n Hn]. congruence.
      * intros [H|[H|H]]; try discriminate. exfalso. apply H. reflexivity.
      * intros H. discriminate.
    + split; [split|].
      * intros _. left. reflexivity.
      * intros _. exact Hexp.
      * intros H. discriminate.
    + split; [split|].
      * intros _. right. left. reflexivity.
      * intros _. exact Hexp.
      * intros H. discriminate.
  - split; [split|].
    + intros _. right. right. rewrite Hinh. discriminate.
    + intros _. exact Hexp.
    + intros H. rewrite H in Hown. discriminate.
Qed.

(** The bot's grant command follows the expiry rule for the tiers of
    the table: a slot it adds to the store has a null expires-at for
    level4 and partnered, and otherwise only for a tier name that is an
    inherited name of the table; for level1 it has a clock reading plus
    seven days. *)
Lemma handleSlotAdd_expiry E i w s :
  In s (JsMap.values (slots (storage (snd (handleSlotAdd E i w))))) ->
  ~ In s (JsMap.values (slots (storage w))) ->
  (expiresAt s = None <->
   shopType s = "level4" \/ shopType s = "partnered" \/
   inheritedName (shopType s) <> None) /\
  (shopType s = "level1" ->
   exists n, expiresAt s = Some (clock E n + 7 * day_ms)).
Proof.
  intros Hin Hnew. apply grantedBy_tier.
  destruct (handleSlotAdd_grants E i w s Hin) as [Hold|Hgranted];
    [contradiction | exact Hgranted].
Qed.

(** ** The HTTP create-slot route *)

(** C1: after the bot granted Alice a slot, at most one slot per holder
    is active; [POST /api/slots] with a body for Alice answers 201 and
    the store then holds two active slots for her. *)
Theorem postSlots_second_active_slot :
  atMostOneActive (storage grantedWorld) /\
  activeCount "d1" (storage grantedWorld) = 1%nat /\
  exists slot w',
    postSlots calmEnv (Some duplicateBody) grantedWorld
    = (Ret (Created201 slot), w') /\
    activeCount "d1" (storage w') = 2%nat /\
    ~ atMostOneActive (storage w').
Proof.
  split.
  - apply handleSlotAdd_atMostOneActive. intros d. vm_compute. lia.
  - split; [vm_compute; reflexivity|].
    eexists. eexists. split; [vm_compute; reflexivity|].
    split; [vm_compute; reflexivity|].
    intros H. specialize (H "d1"). vm_compute in H. lia.
Qed.

(** C3: Alice has an active slot; [POST /api/slots] with a body for her
    is not rejected: it answers 201, logs no error, and the store holds
    one more slot record, active and for her. *)
Theorem postSlots_accepts_duplicate :
  (exists existing,
      Storage.getSlotByDiscordUserId "d1" (storage grantedWorld)
      = Some existing) /\
  exists slot w',
    postSlots calmEnv (Some duplicateBody) grantedWorld
    = (Ret (Created201 slot), w') /\
    trace w' = trace grantedWorld /\
    JsMap.size (slots (storage w')) =
    S (JsMap.size (slots (storage grantedWorld))) /\
    In slot (JsMap.values (slots (storage w'))) /\
    discordUserId slot = "d1" /\ isActive slot = Some true.
Proof.
  split.
  - eexists. vm_compute. reflexivity.
  - eexists. eexists. split; [vm_compute; reflexivity|].
    split; [vm_compute; reflexivity|].
    split; [vm_compute; reflexivity|].
    split; [vm_compute; right; left; reflexivity|].
    split; reflexivity.
Qed.

(** C8: [POST /api/slots] stores the expires-at of the request body
    whatever the tier: a level1 slot with a null expires-at is created,
    answered with 201 and kept in the store. *)
Theorem postSlots_keeps_client_expiry :
  exists slot w',
    postSlots calmEnv (Some lifetimeLevel1Body) (world0 Storage.empty)
    = (Ret (Created201 slot), w') /\
    In slot (JsMap.values (slots (storage w'))) /\
    shopType slot = "level1" /\
    expiresAt slot = None /\
    ~ (expiresAt slot = None <->
       shopType slot = "level4" \/ shopType slot = "partnered").
Proof.
  eexists. eexists.
  split; [vm_compute; reflexivity|].
  split; [vm_compute; left; reflexivity|].
  split; [reflexivity|]. split; [reflexivity|].
  simpl. intros [H _]. destruct (H eq_refl) as [H'|H']; discriminate.
Qed.

(** ** Instances on the sample data *)

(** Proves [wellKeyed] of an explicit store. *)
Ltac concrete_wellKeyed :=
  split;
  [ unfold JsMap.ok; simpl; repeat constructor; simpl;
    intuition discriminate
  | intros k s Hin; simpl in Hin;
    repeat (destruct Hin as [Hin|Hin]; [inversion Hin; reflexivity|]);
    contradiction ].

Lemma tally_inj a b : tally a = tally b -> a = b.
Proof.
  revert b. induction a as [|a IH]; intros [|b] H; simpl in H;
    try discriminate; [reflexivity|].
  inversion H. f_equal. apply IH. assumption.
Defined.

Lemma sampleStore_atMostOneActive : atMostOneActive sampleStore.
Proof.
  intros d. unfold activeCount, activeFor, sampleStore, JsMap.values.
  cbn [map snd slots filter discordUserId isActive aliceSlot bobSlot truthy].
  destruct (String.eqb_spec "d1" d) as [H1|H1];
    destruct (String.eqb_spec "d2" d) as [H2|H2];
    cbn [andb List.length]; try lia.
  subst d. discriminate H2.
Defined.

Lemma deactivation_commits_witness :
  (let w' := snd (handleSlotRemove downEnv removeAlice sampleWorld) in
   Storage.getSlot "s1" (storage w') = Some (deactivated aliceSlot) /\
   isActive (deactivated aliceSlot) = Some false /\
   failuresLogged sampleWorld w') /\
  (exists w',
      handleEveryonePing downEnv aliceMessage sampleWorld
      = (Ret OverLimit, w') /\
      Storage.getSlot "s1" (storage w') = Some (deactivated aliceSlot) /\
      isActive (deactivated aliceSlot) = Some false /\
      failuresLogged sampleWorld w') /\
  (exists w',
      checkExpiration downEnv sampleWorld = (Ret tt, w') /\
      Storage.getSlot "s2" (storage w') = Some (deactivated bobSlot)).
Proof.
  destruct (@deactivation_commits downEnv sampleWorld)
    as [Hmanual [Hquota Hexpiry]].
  split; [|split].
  - apply (Hmanual removeAlice "guild-1"%string aliceSlot);
      try reflexivity.
    simpl. discriminate.
  - apply (Hquota aliceMessage aliceSlot level3Config);
      first [ reflexivity | vm_compute; lia | simpl; discriminate ].
  - destruct Hexpiry as [w' [Hrun [Hall _]]].
    exists w'. split; [exact Hrun|].
    apply (Hall bobSlot); [vm_compute; left; reflexivity | reflexivity].
Defined.

Lemma revoke_triggers_idempotent_witness :
  wellKeyed (storage sampleWorld) /\
  atMostOneActive (storage sampleWorld) /\
  handleEveryonePing downEnv aliceMessage sampleWorld
  = (Ret OverLimit, afterOverLimit) /\
  handleEveryonePing calmEnv aliceMessage afterOverLimit
  = (Ret Ignored, afterOverLimit).
Proof.
  assert (Hwf : wellKeyed (storage sampleWorld)) by concrete_wellKeyed.
  assert (Hrun : handleEveryonePing downEnv aliceMessage sampleWorld
                 = (Ret OverLimit, afterOverLimit))
    by (vm_compute; reflexivity).
  split; [exact Hwf|]. split; [exact sampleStore_atMostOneActive|].
  split; [exact Hrun|].
  destruct (@revoke_triggers_idempotent downEnv calmEnv sampleWorld Hwf)
    as [_ [_ Hquota]].
  apply (Hquota aliceMessage afterOverLimit sampleStore_atMostOneActive Hrun
                aliceMessage afterOverLimit); reflexivity.
Defined.

Lemma ping_quota_decision_witness :
  Storage.getSlotByDiscordUserId (m_author aliceMessage)
                                 (storage partnerWorld) = Some partnerSlot /\
  shopTypes (shopType partnerSlot) = Some partneredConfig /\
  (exists w',
      handleEveryonePing calmEnv aliceMessage partnerWorld
      = (Ret Allowed, w') /\
      trace w' = trace partnerWorld /\
      List.length (pingUsage (storage w')) = 2%nat) /\
  (exists w1 w2,
      handleEveryonePing calmEnv aliceMessage partnerWorld
      = (Ret Allowed, w1) /\
      handleEveryonePing calmEnv aliceMessage w1 = (Ret Allowed, w2) /\
      fst (handleEveryonePing calmEnv aliceMessage w2) = Ret OverLimit /\
      pingUsage (storage (snd (handleEveryonePing calmEnv aliceMessage w2)))
      = pingUsage (storage w2)).
Proof.
  assert (Hfound : Storage.getSlotByDiscordUserId
                     (m_author aliceMessage) (storage partnerWorld)
                   = Some partnerSlot) by reflexivity.
  assert (Hcfg : shopTypes (shopType partnerSlot) = Some partneredConfig)
    by reflexivity.
  assert (Hused :
            Count (fun u => slotId u = id partnerSlot /\
                            exists t, usedAt u = Some t /\
                                      clock calmEnv (ticks partnerWorld)
                                      - pingCooldown partneredConfig <= t)
                  (JsMap.values (pingUsage (storage partnerWorld))) 0).
  { apply Count_miss; [|apply Count_nil].
    intros [Hs _]. simpl in Hs. discriminate Hs. }
  destruct (@ping_quota_decision calmEnv partnerWorld aliceMessage
                                 partnerSlot partneredConfig 0%nat
                                 Hfound Hcfg Hused)
    as [_ [Hallowed Hthree]].
  split; [exact Hfound|]. split; [exact Hcfg|]. split.
  - destruct Hallowed as [w' [Hrun [Htr [_ Hping]]]]; [simpl; lia|].
    exists w'. split; [exact Hrun|]. split; [exact Htr|].
    rewrite Hping; [reflexivity|].
    simpl. intros [H|[]]. discriminate H.
  - destruct (Hthree eq_refl) with (second := aliceMessage)
                                   (third := aliceMessage)
      as [w1 [w2 [H1 [H2 [_ [Hsame [_ Hover]]]]]]].
    + intros u [<-|[]]. simpl. discriminate.
    + intros n. simpl. intros [H|[]]. discriminate H.
    + intros a b H. simpl in H. inversion H. apply tally_inj. assumption.
    + intros a b Hab. cbn [clock calmEnv]. lia.
    + cbn [clock calmEnv ticks partnerWorld world0]. unfold hour_ms. lia.
    + reflexivity.
    + reflexivity.
    + exists w1, w2. split; [exact H1|]. split; [exact H2|].
      split; [|exact Hsame].
      apply Hover. simpl. discriminate.
Defined.

(** * Further properties of the store, the routes and the handlers *)

(** ** [Map.delete] *)

Module JsMapDelete.

Section Facts.
Variable V : Type.
Implicit Types (m : JsMap.t V) (k : string) (v : V).

Lemma delete_absent k m :
  JsMap.get k m = None -> JsMap.delete k m = (m, false).
Proof.
  induction m as [|[k' v'] m IH]; simpl; [reflexivity|].
  destruct (String.eqb k k'); [discriminate|].
  intros Hget. rewrite (IH Hget). reflexivity.
Qed.

Lemma delete_flag k m :
  snd (JsMap.delete k m) =
  match JsMap.get k m with Some _ => true | None => false end.
Proof.
  induction m as [|[k' v'] m IH]; simpl; [reflexivity|].
  destruct (String.eqb k k'); [reflexivity|].
  destruct (JsMap.delete k m) as [r b]. simpl in *. exact IH.
Qed.

Lemma delete_get_other k k' m :
  k <> k' -> JsMap.get k' (fst (JsMap.delete k m)) = JsMap.get k' m.
Proof.
  intros Hne. induction m as [|[k0 v0] m IH]; simpl; [reflexivity|].
  destruct (String.eqb k k0) eqn:Hk.
  - apply String.eqb_eq in Hk. subst k0. simpl.
    destruct (String.eqb k' k) eqn:Hk'; [|reflexivity].
    apply String.eqb_eq in Hk'. congruence.
  - destruct (JsMap.delete k m) as [r b]. simpl in *.
    rewrite IH. reflexivity.
Qed.

Lemma get_absent_keys k m :
  ~ In k (JsMap.keys m) -> JsMap.get k m = None.
Proof.
  induction m as [|[k' v'] m IH]; simpl; [reflexivity|].
  intros Hnin. destruct (String.eqb k k') eqn:Hk.
  - apply String.eqb_eq in Hk. subst. tauto.
  - apply IH. tauto.
Qed.

Lemma delete_get_same k m :
  JsMap.ok m -> JsMap.get k (fst (JsMap.delete k m)) = None.
Proof.
  unfold JsMap.ok. induction m as [|[k' v'] m IH]; simpl; [reflexivity|].
  intros Hok. inversion Hok as [|? ? Hnin Hok']; subst.
  destruct (String.eqb k k') eqn:Hk.
  - apply String.eqb_eq in Hk. subst k'. simpl.
    apply get_absent_keys. exact Hnin.
  - destruct (JsMap.delete k m) as [r b] eqn:Hd. simpl in *.
    rewrite Hk. apply IH. exact Hok'.
Qed.

Lemma delete_size k m :
  JsMap.size m =
  (JsMap.size (fst (JsMap.delete k m)) +
   (if snd (JsMap.delete k m) then 1 else 0))%nat.
Proof.
  unfold JsMap.size.
  induction m as [|[k' v'] m IH]; simpl; [reflexivity|].
  destruct (String.eqb k k'); simpl; [lia|].
  destruct (JsMap.delete k m) as [r b]. simpl in *. lia.
Qed.

End Facts.

End JsMapDelete.

(** ** Lookup, update and delete of slots *)

(** X1: the slot [createSlot] returns is stored under its new id with
    the fields of the request and the creation time, looking it up by
    that id gives it back, and no other id, user or ping is touched. *)
Theorem createSlot_getSlot (k : string) (now : Date) (ins : InsertSlot)
        (st : MemStorage) :
  let slot := fst (Storage.createSlot k now ins st) in
  let st' := snd (Storage.createSlot k now ins st) in
  Storage.getSlot k st' = Some slot /\
  id slot = k /\
  createdAt slot = Some now /\
  (discordUserId slot, shopType slot, expiresAt slot, isActive slot)
  = (is_discordUserId ins, is_shopType ins, is_expiresAt ins,
     is_isActive ins) /\
  (forall k', k' <> k -> Storage.getSlot k' st' = Storage.getSlot k' st) /\
  users st' = users st /\ pingUsage st' = pingUsage st.
Proof.
  cbv zeta. unfold Storage.getSlot. simpl.
  repeat split.
  - apply JsMapFacts.get_set_same.
  - intros k' Hne. apply JsMapFacts.get_set_other. congruence.
Qed.

(** X2: [PATCH /api/slots/:id] answers 404 and leaves the world as it
    was when the id is unknown; otherwise it answers 200 with the stored
    slot overridden by the fields of the body, stores that slot under
    the id, and touches no other id; it never adds or removes a key. *)
Theorem patchSlot_spec (k : string) (updates : PartialSlot) (w : World) :
  match Storage.getSlot k (storage w) with
  | None => patchSlot k updates w = (Ret PatchNotFound404, w)
  | Some s =>
      exists w',
        patchSlot k updates w = (Ret (PatchOk200 (spread s updates)), w') /\
        Storage.getSlot k (storage w') = Some (spread s updates) /\
        (forall k', k' <> k ->
                    Storage.getSlot k' (storage w')
                    = Storage.getSlot k' (storage w)) /\
        JsMap.keys (slots (storage w')) = JsMap.keys (slots (storage w)) /\
        trace w' = trace w
  end.
Proof.
  unfold Storage.getSlot.
  destruct (JsMap.get k (slots (storage w))) as [s|] eqn:Hget.
  - unfold patchSlot, try_catch, bind, updateSlot, update.
    rewrite (updateSlot_present _ updates _ Hget).
    eexists. split; [reflexivity|]. simpl. split; [|split; [|split]].
    + apply JsMapFacts.get_set_same.
    + intros k' Hne. apply JsMapFacts.get_set_other. congruence.
    + apply JsMapFacts.keys_set_present.
      apply JsMapFacts.get_In in Hget.
      change k with (fst (k, s)). apply in_map. exact Hget.
    + reflexivity.
  - unfold patchSlot, try_catch, bind, updateSlot, update.
    rewrite (updateSlot_absent _ updates _ Hget).
    destruct w; reflexivity.
Qed.

(** X3: on a store whose slot ids are distinct,
    [DELETE /api/slots/:id] answers 404 and leaves the world as it was
    when the id is unknown; otherwise it answers 200, the id is unknown
    afterwards, there is one record less, and no other id is touched.
    It calls no collaborator. *)
Theorem deleteSlotRoute_spec (k : string) (w : World)
        (Hok : JsMap.ok (slots (storage w))) :
  match Storage.getSlot k (storage w) with
  | None => deleteSlotRoute k w = (Ret DeleteNotFound404, w)
  | Some _ =>
      exists w',
        deleteSlotRoute k w = (Ret DeleteOk200, w') /\
        Storage.getSlot k (storage w') = None /\
        (forall k', k' <> k ->
                    Storage.getSlot k' (storage w')
                    = Storage.getSlot k' (storage w)) /\
        S (JsMap.size (slots (storage w'))) = JsMap.size (slots (storage w)) /\
        trace w' = trace w
  end.
Proof.
  unfold Storage.getSlot.
  pose proof (JsMapDelete.delete_flag k (slots (storage w))) as Hflag.
  pose proof (JsMapDelete.delete_size k (slots (storage w))) as Hsize.
  pose proof (JsMapDelete.delete_get_same k Hok) as Hsame.
  pose proof (fun k' => @JsMapDelete.delete_get_other _ k k'
                          (slots (storage w))) as Hother.
  unfold deleteSlotRoute, try_catch, bind, update, Storage.deleteSlot.
  destruct (JsMap.delete k (slots (storage w))) as [m b] eqn:Hd.
  simpl in *.
  destruct (JsMap.get k (slots (storage w))) as [s|] eqn:Hget; subst b.
  - eexists. split; [reflexivity|]. simpl.
    split; [exact Hsame|]. split; [|split; [lia | reflexivity]].
    intros k' Hne. apply Hother. congruence.
  - rewrite (JsMapDelete.delete_absent _ _ Hget) in Hd.
    inversion Hd; subst m. destruct w as [[u s p] t n]; reflexivity.
Qed.

Lemma deleteSlotRoute_spec_witness :
  JsMap.ok (slots (storage sampleWorld)) /\
  exists w',
    deleteSlotRoute "s1" sampleWorld = (Ret DeleteOk200, w') /\
    Storage.getSlot "s1" (storage w') = None /\
    Storage.getSlot "s2" (storage w') = Some bobSlot.
Proof.
  assert (Hok : JsMap.ok (slots (storage sampleWorld))).
  { unfold JsMap.ok. simpl. repeat constructor; simpl; intuition discriminate. }
  split; [exact Hok|].
  pose proof (@deleteSlotRoute_spec "s1" sampleWorld Hok) as H.
  change (Storage.getSlot "s1" (storage sampleWorld)) with (Some aliceSlot)
    in H.
  destruct H as [w' [Hrun [Hgone [Hother _]]]].
  exists w'. split; [exact Hrun|]. split; [exact Hgone|].
  rewrite Hother; [reflexivity | discriminate].
Defined.

(** ** Lookup by holder *)

(** X4: [getSlotByDiscordUserId] finds nothing exactly when no record of
    the holder is active, and what it finds is a record of the store
    that is active and belongs to the holder. *)
Theorem getSlotByDiscordUserId_complete (d : string) (st : MemStorage) :
  (Storage.getSlotByDiscordUserId d st = None <->
   forall s, In s (JsMap.values (slots st)) ->
             discordUserId s = d -> isActive s <> Some true) /\
  (forall s, Storage.getSlotByDiscordUserId d st = Some s ->
             In s (JsMap.values (slots st)) /\
             discordUserId s = d /\ isActive s = Some true).
Proof.
  split; [split|].
  - intros Hnone s Hin Hd Hact.
    unfold Storage.getSlotByDiscordUserId in Hnone.
    pose proof (find_none _ _ Hnone s Hin) as Hf. simpl in Hf.
    rewrite Hd, String.eqb_refl in Hf. apply truthy_true in Hact.
    rewrite Hact in Hf. discriminate.
  - apply no_active_none.
  - intros s Hf. destruct (found_active _ _ Hf) as [Hin [Hd Ha]].
    apply truthy_true in Ha. auto.
Qed.

Lemma filter_singleton {A : Type} (p : A -> bool) (l : list A) (x y : A) :
  (List.length (filter p l) <= 1)%nat ->
  In x l -> p x = true -> In y l -> p y = true -> x = y.
Proof.
  intros Hlen Hx Px Hy Py.
  assert (Hfx : In x (filter p l)) by (apply filter_In; auto).
  assert (Hfy : In y (filter p l)) by (apply filter_In; auto).
  destruct (filter p l) as [|a [|b r]]; simpl in *.
  - contradiction.
  - destruct Hfx as [<-|[]], Hfy as [<-|[]]. reflexivity.
  - lia.
Qed.

(** X5: while every holder has at most one active slot, the slot found
    for a holder is the only active record of that holder. *)
Theorem getSlotByDiscordUserId_unique (d : string) (st : MemStorage)
        (found other : Slot) :
  atMostOneActive st ->
  Storage.getSlotByDiscordUserId d st = Some found ->
  In other (JsMap.values (slots st)) ->
  discordUserId other = d -> isActive other = Some true ->
  other = found.
Proof.
  intros Hone Hf Hin Hd Hact.
  destruct (found_active _ _ Hf) as [Hin' [Hd' Ha']].
  apply (@filter_singleton _ (activeFor d) (JsMap.values (slots st)));
    try assumption.
  - apply Hone.
  - unfold activeFor. rewrite Hd, String.eqb_refl.
    apply truthy_true in Hact. rewrite Hact. reflexivity.
  - unfold activeFor. rewrite Hd', String.eqb_refl, Ha'. reflexivity.
Qed.

Lemma getSlotByDiscordUserId_unique_witness :
  atMostOneActive sampleStore /\
  Storage.getSlotByDiscordUserId "d2" sampleStore = Some bobSlot /\
  (In bobSlot (JsMap.values (slots sampleStore)) ->
   bobSlot = bobSlot).
Proof.
  split; [exact sampleStore_atMostOneActive|]. split; [reflexivity|].
  intros Hin.
  apply (@getSlotByDiscordUserId_unique "d2" sampleStore bobSlot bobSlot
           sampleStore_atMostOneActive eq_refl Hin eq_refl eq_refl).
Defined.

(** ** Expiry and ping windows *)

Lemma getExpiredSlots_in now st s :
  In s (Storage.getExpiredSlots now st) <->
  In s (JsMap.values (slots st)) /\
  isActive s = Some true /\
  exists e, expiresAt s = Some e /\ e < now.
Proof.
  unfold Storage.getExpiredSlots. rewrite filter_In, isExpired_spec.
  reflexivity.
Qed.

(** X6: the expired slots only grow with time: a slot expired at [now]
    is expired at every later time; every expired slot is among the
    active slots; a slot without expires-at is expired at no time. *)
Theorem getExpiredSlots_monotone (now later : Date) (st : MemStorage) :
  now <= later ->
  incl (Storage.getExpiredSlots now st) (Storage.getExpiredSlots later st) /\
  incl (Storage.getExpiredSlots now st) (Storage.getAllActiveSlots st) /\
  forall s, expiresAt s = None -> ~ In s (Storage.getExpiredSlots now st).
Proof.
  intros Hle. split; [|split].
  - intros s Hin. apply getExpiredSlots_in in Hin.
    apply getExpiredSlots_in.
    destruct Hin as [Hin [Ha [e [He Hlt]]]].
    split; [exact Hin|]. split; [exact Ha|]. exists e. split; [exact He|lia].
  - intros s Hin. apply getExpiredSlots_in in Hin.
    destruct Hin as [Hin [Ha _]].
    unfold Storage.getAllActiveSlots. apply filter_In.
    split; [exact Hin | apply truthy_true; exact Ha].
  - intros s Hnone Hin. apply getExpiredSlots_in in Hin.
    destruct Hin as [_ [_ [e [He _]]]]. congruence.
Qed.

Lemma getExpiredSlots_monotone_witness :
  900001 <= 5000001 /\
  incl (Storage.getExpiredSlots 900001 sampleStore)
       (Storage.getExpiredSlots 5000001 sampleStore).
Proof.
  split; [lia|].
  apply (@getExpiredSlots_monotone 900001 5000001 sampleStore). lia.
Defined.

(** X7: [getPingUsage] returns pings of the asked slot only, each used
    at or after [since], and a later [since] returns a part of what an
    earlier one returns. *)
Theorem getPingUsage_window (sid : string) (since later : Date)
        (st : MemStorage) :
  since <= later ->
  incl (Storage.getPingUsage sid later st) (Storage.getPingUsage sid since st)
  /\
  (List.length (Storage.getPingUsage sid later st)
   <= List.length (Storage.getPingUsage sid since st))%nat /\
  forall u, In u (Storage.getPingUsage sid since st) ->
            slotId u = sid /\ exists t, usedAt u = Some t /\ since <= t.
Proof.
  intros Hle.
  assert (Himp : forall u, Storage.isRecentPing sid later u = true ->
                           Storage.isRecentPing sid since u = true).
  { intros u Hu. apply isRecentPing_spec in Hu. apply isRecentPing_spec.
    destruct Hu as [Hs [t [Ht Hlt]]]. split; [exact Hs|].
    exists t. split; [exact Ht | lia]. }
  split; [|split].
  - intros u Hin. unfold Storage.getPingUsage in *.
    apply filter_In in Hin. apply filter_In. destruct Hin as [Hin Hp].
    split; [exact Hin | apply Himp; exact Hp].
  - unfold Storage.getPingUsage. apply filter_length_mono. exact Himp.
  - intros u Hin. unfold Storage.getPingUsage in Hin.
    apply filter_In in Hin. apply isRecentPing_spec. apply Hin.
Qed.

Lemma getPingUsage_window_witness :
  999000 <= 999001 /\
  (List.length (Storage.getPingUsage "s1" 999001%Z sampleStore)
   <= List.length (Storage.getPingUsage "s1" 999000%Z sampleStore))%nat.
Proof.
  split; [lia|].
  apply (@getPingUsage_window "s1" 999000 999001 sampleStore). lia.
Defined.

(** X8: a ping recorded under an id not in use is counted at once: for
    every window start not after its time, [getPingUsage] for its slot
    returns what it returned before followed by the new ping; for every
    other slot it returns what it returned before. *)
Theorem createPingUsage_counted (k : string) (now since : Date)
        (ins : InsertPingUsage) (st : MemStorage) :
  ~ In k (JsMap.keys (pingUsage st)) ->
  since <= now ->
  let usage := fst (Storage.createPingUsage k now ins st) in
  let st' := snd (Storage.createPingUsage k now ins st) in
  Storage.getPingUsage (ip_slotId ins) since st'
  = Storage.getPingUsage (ip_slotId ins) since st ++ [usage] /\
  (forall sid, sid <> ip_slotId ins ->
               Storage.getPingUsage sid since st'
               = Storage.getPingUsage sid since st) /\
  slots st' = slots st.
Proof.
  intros Hfresh Hle. cbv zeta. unfold Storage.getPingUsage. simpl.
  rewrite JsMapFacts.set_absent by exact Hfresh.
  rewrite values_app, !filter_app. simpl.
  split; [|split; [|reflexivity]].
  - unfold Storage.isRecentPing at 2. simpl.
    rewrite String.eqb_refl.
    replace (since <=? now) with true by (symmetry; apply Z.leb_le; lia).
    reflexivity.
  - intros sid Hne. rewrite filter_app. simpl.
    unfold Storage.isRecentPing at 2. simpl.
    replace (String.eqb (ip_slotId ins) sid) with false.
    + simpl. apply app_nil_r.
    + symmetry. apply String.eqb_neq. congruence.
Qed.

Lemma createPingUsage_counted_witness :
  ~ In "p2" (JsMap.keys (pingUsage sampleStore)) /\
  999000 <= 1000000 /\
  List.length
    (Storage.getPingUsage
       "s1" 999000
       (snd (Storage.createPingUsage
               "p2" 1000000
               (mkInsertPingUsage "s1" "d1" (Some "m7") (Some "c1"))
               sampleStore))) = 2%nat.
Proof.
  assert (Hfresh : ~ In "p2" (JsMap.keys (pingUsage sampleStore))).
  { simpl. intros [H|[]]. discriminate H. }
  split; [exact Hfresh|]. split; [lia|].
  destruct (@createPingUsage_counted
              "p2" 1000000 999000
              (mkInsertPingUsage "s1" "d1" (Some "m7") (Some "c1"))
              sampleStore Hfresh) as [Hcount _]; [lia|].
  simpl ip_slotId in Hcount. rewrite Hcount. reflexivity.
Defined.

(** ** What a run adds to the trace *)

Section EmitsClosure.
Variable E : Environment.
Variable P : event -> Prop.

Lemma Emits_ret {A} (a : A) : Emits P (ret a).
Proof. intros w. exists []. split; [reflexivity | constructor]. Qed.

Lemma Emits_throw {A} : Emits P (@throw A).
Proof. intros w. exists []. split; [reflexivity | constructor]. Qed.

Lemma Emits_gets {A} (f : MemStorage -> A) : Emits P (gets f).
Proof. intros w. exists []. split; [reflexivity | constructor]. Qed.

Lemma Emits_update {A} (f : MemStorage -> A * MemStorage) :
  Emits P (update f).
Proof.
  intros w. unfold update. destruct (f (storage w)). exists [].
  split; [reflexivity | constructor].
Qed.

Lemma Emits_readClock : Emits P (readClock E).
Proof. intros w. exists []. split; [reflexivity | constructor]. Qed.

Lemma Emits_randomUUID : Emits P (randomUUID E).
Proof. intros w. exists []. split; [reflexivity | constructor]. Qed.

Lemma Emits_consoleError msg : P (LoggedError msg) -> Emits P (consoleError msg).
Proof.
  intros Hp w. exists [LoggedError msg].
  split; [reflexivity | constructor; [exact Hp | constructor]].
Qed.

Lemma Emits_consoleLog msg : P (Logged msg) -> Emits P (consoleLog msg).
Proof.
  intros Hp w. exists [Logged msg].
  split; [reflexivity | constructor; [exact Hp | constructor]].
Qed.

Lemma Emits_external c : (forall r, P (Called c r)) -> Emits P (external E c).
Proof.
  intros Hp w. exists [Called c (respond E (ticks w) c)]. split.
  - unfold external. destruct (respond E (ticks w) c); reflexivity.
  - constructor; [apply Hp | constructor].
Qed.

Lemma Emits_bind {A B} (m : M A) (k : A -> M B) :
  Emits P m -> (forall a, Emits P (k a)) -> Emits P (bind m k).
Proof.
  intros Hm Hk w. unfold bind.
  destruct (Hm w) as [evs1 [H1 F1]]. destruct (m w) as [[a|] w1]; simpl in *.
  - destruct (Hk a w1) as [evs2 [H2 F2]]. exists (evs2 ++ evs1). split.
    + rewrite H2, H1. apply app_assoc.
    + apply Forall_app. auto.
  - exists evs1. auto.
Qed.

Lemma Emits_try {A} (m h : M A) :
  Emits P m -> Emits P h -> Emits P (try_catch m h).
Proof.
  intros Hm Hh w. unfold try_catch.
  destruct (Hm w) as [evs1 [H1 F1]]. destruct (m w) as [[a|] w1]; simpl in *.
  - exists evs1. auto.
  - destruct (Hh w1) as [evs2 [H2 F2]]. exists (evs2 ++ evs1). split.
    + rewrite H2, H1. apply app_assoc.
    + apply Forall_app. auto.
Qed.

End EmitsClosure.

(** One step of a proof of [Emits]; the side conditions on calls and
    log entries are closed by computation. *)
Ltac emits_step :=
  first
    [ progress unfold deref
    | apply Emits_bind; [| intros ?]
    | apply Emits_try
    | apply Emits_external;
      let r := fresh "r" in
      intros r; simpl;
      solve [auto | destruct r; simpl; intuition (auto; discriminate)]
    | apply Emits_consoleError; simpl; solve [auto]
    | apply Emits_consoleLog; simpl; solve [auto]
    | apply Emits_ret
    | apply Emits_throw
    | apply Emits_gets
    | apply Emits_update
    | apply Emits_readClock
    | apply Emits_randomUUID
    | match goal with
      | |- context [match ?x with _ => _ end] => destruct x eqn:?
      | |- context [if ?x then _ else _] => destruct x eqn:?
      end ].

(** ** Revocation *)

(** X9: whatever the collaborator answers, [revokeSlotPermissions]
    returns normally, leaves the store as it was, and logs an error
    for the calls that failed. *)
Theorem revokeSlotPermissions_total (E : Environment) (guildId : string)
        (slot : Slot) (w : World) :
  exists w',
    revokeSlotPermissions E guildId slot w = (Ret tt, w') /\
    storage w' = storage w /\
    failuresLogged w w'.
Proof.
  destruct (revoke_run E guildId slot w) as [w' [Hrun [Hst Ht]]].
  exists w'. split; [exact Hrun|]. split; [exact Hst|].
  apply (tidy_failuresLogged Ht).
Qed.

(** X10: a revocation calls the collaborator on the given guild and on
    the role, the member and the channel of the slot only; it never
    adds a role or a permission, sends no message, and the only name it
    sets on the channel is the slot's original channel name. *)
Theorem revokeSlotPermissions_own_resources (E : Environment)
        (guildId : string) (slot : Slot) :
  Emits (revokeEvent guildId slot) (revokeSlotPermissions E guildId slot).
Proof.
  unfold revokeSlotPermissions. repeat emits_step.
Qed.

Lemma channel_cleanup_attempted E slot w :
  exists evs,
    trace (snd (try_catch
                  (bind (deref Done) (fun _ =>
                   bind (external E (ChannelsFetch (channelId slot)))
                        (fun channel =>
                           match channel with
                           | Done =>
                               bind (external E (PermissionDelete
                                                   (channelId slot)
                                                   (discordUserId slot)))
                                    (fun _ =>
                               bind (external E (SetName
                                                   (channelId slot)
                                                   (originalChannelName slot)))
                                    (fun _ => ret tt))
                           | _ => ret tt
                           end)))
                  (consoleError
                     "Error removing channel permissions or restoring channel name:")
                  w))
    = evs ++ Called (ChannelsFetch (channelId slot))
                    (respond E (ticks w) (ChannelsFetch (channelId slot)))
          :: trace w.
Proof.
  unfold try_catch, bind, external, consoleError, deref, ret.
  destruct (respond E (ticks w) (ChannelsFetch (channelId slot)));
    reduce_run;
    try (exists []; reflexivity);
    try (eexists [_]; reflexivity).
  destruct (respond E (S (ticks w))
                    (PermissionDelete (channelId slot) (discordUserId slot)));
    reduce_run;
    try (eexists [_; _]; reflexivity);
    destruct (respond E (S (S (ticks w)))
                      (SetName (channelId slot) (originalChannelName slot)));
    reduce_run;
    try (eexists [_; _]; reflexivity);
    eexists [_; _; _]; reflexivity.
Qed.

(** X11: once the fetch of the guild gave a guild, the channel of the
    slot is fetched whatever happened to the removal of the role: a
    failure of the role calls does not stop the cleanup of the
    channel. *)
Theorem revokeSlotPermissions_reaches_channel (E : Environment)
        (guildId : string) (slot : Slot) (w : World) :
  respond E (ticks w) (GuildsFetch guildId) = Done ->
  exists evs r,
    trace (snd (revokeSlotPermissions E guildId slot w)) = evs ++ trace w /\
    In (Called (ChannelsFetch (channelId slot)) r) evs.
Proof.
  intros Hguild.
  unfold revokeSlotPermissions. unfold try_catch at 1. unfold bind at 1.
  rewrite external_returns by (rewrite Hguild; discriminate).
  rewrite Hguild.
  set (w1 := mkWorld _ _ _).
  set (roleStep := match roleId slot with Some _ => _ | None => _ end).
  assert (Hrole : exists w2 evs,
             roleStep w1 = (Ret tt, w2) /\ trace w2 = evs ++ trace w1).
  { assert (Hret : Returns roleStep).
    { unfold roleStep. destruct (roleId slot) as [r|];
        [destruct (nonEmpty r)|];
        first [apply Returns_try, Returns_consoleError | intros w0; discriminate]. }
    assert (Hem : Emits (fun _ => True) roleStep).
    { unfold roleStep. repeat emits_step. }
    specialize (Hret w1). destruct (Hem w1) as [evs [Htr _]].
    destruct (roleStep w1) as [[[]|] w2]; simpl in *; [|congruence].
    exists w2, evs. auto. }
  destruct Hrole as [w2 [evs1 [Hrun Htr1]]].
  unfold bind at 1. rewrite Hrun.
  destruct (channel_cleanup_attempted E slot w2) as [evs2 Htr2].
  match goal with
  | |- context [try_catch ?m ?h w2] =>
      destruct (try_catch m h w2) as [[[]|] w3] eqn:Hch
  end; simpl in Htr2 |- *.
  - exists (evs2 ++ Called (ChannelsFetch (channelId slot))
                            (respond E (ticks w2)
                                     (ChannelsFetch (channelId slot)))
                 :: evs1 ++ [Called (GuildsFetch guildId) Done]).
    eexists. split.
    + rewrite Htr2, Htr1. unfold w1. simpl.
      rewrite <- !app_assoc. simpl. rewrite <- app_assoc. reflexivity.
    + apply in_app_iff. right. left. reflexivity.
  - exists (LoggedError "Error revoking slot permissions:" ::
            evs2 ++ Called (ChannelsFetch (channelId slot))
                           (respond E (ticks w2)
                                    (ChannelsFetch (channelId slot)))
                 :: evs1 ++ [Called (GuildsFetch guildId) Done]).
    eexists. split.
    + simpl. rewrite Htr2, Htr1. unfold w1. simpl.
      rewrite <- !app_assoc. simpl. rewrite <- app_assoc. reflexivity.
    + right. apply in_app_iff. right. left. reflexivity.
Qed.

Lemma revokeSlotPermissions_reaches_channel_witness :
  respond rolesDownEnv (ticks sampleWorld) (GuildsFetch "guild-1") = Done /\
  exists evs r,
    trace (snd (revokeSlotPermissions rolesDownEnv "guild-1" aliceSlot
                                      sampleWorld))
    = evs ++ trace sampleWorld /\
    In (Called (ChannelsFetch "c1") r) evs.
Proof.
  assert (H : respond rolesDownEnv (ticks sampleWorld) (GuildsFetch "guild-1")
              = Done) by reflexivity.
  split; [exact H|].
  exact (@revokeSlotPermissions_reaches_channel rolesDownEnv "guild-1"
           aliceSlot sampleWorld H).
Defined.

(** ** Invariants of the store under the bot *)

Section BotInvariant.
Variable E : Environment.
Variable I : MemStorage -> Prop.
Hypothesis I_slots : SlotsOnly I.
Hypothesis I_deactivate :
  forall st k, I st -> I (snd (Storage.updateSlot k deactivation st)).

Lemma Pres_deactivate k : Pres I I (updateSlot k deactivation).
Proof.
  intros w Hw. unfold updateSlot, update.
  pose proof (I_deactivate k Hw) as H.
  destruct (Storage.updateSlot k deactivation (storage w)). exact H.
Qed.

Lemma Pres_revoke guildId slot :
  Pres I I (revokeSlotPermissions E guildId slot).
Proof.
  apply Pres_keeps; [exact I_slots|].
  apply KeepsSlots_ReadOnly, revoke_ReadOnly.
Qed.

Lemma Pres_same_bind {A B} (m : M A) (k : A -> M B) :
  Pres I I m -> (forall a, Pres I I (k a)) -> Pres I I (bind m k).
Proof. intros Hm Hk. apply Pres_bind with (R := I); auto. Qed.

Lemma handleSlotRemove_Pres i : Pres I I (handleSlotRemove E i).
Proof.
  unfold handleSlotRemove.
  apply Pres_same_bind; [|intros _].
  { apply Pres_keeps; [exact I_slots|]. repeat keeps_step. }
  destruct (sr_guild i) as [guildId|].
  2:{ apply Pres_keeps; [exact I_slots|]. repeat keeps_step. }
  apply Pres_try.
  2:{ apply Pres_keeps; [exact I_slots|]. repeat keeps_step. }
  apply Pres_same_bind; [|intros [slot|]].
  { apply Pres_keeps; [exact I_slots|]. repeat keeps_step. }
  2:{ apply Pres_keeps; [exact I_slots|]. repeat keeps_step. }
  apply Pres_same_bind; [apply Pres_revoke|intros _].
  apply Pres_same_bind; [apply Pres_deactivate|intros _].
  apply Pres_keeps; [exact I_slots|]. repeat keeps_step.
Qed.

Lemma handleEveryonePing_Pres message :
  Pres I I (handleEveryonePing E message).
Proof.
  unfold handleEveryonePing.
  apply Pres_try.
  2:{ apply Pres_keeps; [exact I_slots|]. repeat keeps_step. }
  apply Pres_same_bind; [|intros [slot|]].
  { apply Pres_keeps; [exact I_slots|]. repeat keeps_step. }
  2:{ apply Pres_keeps; [exact I_slots|]. repeat keeps_step. }
  destruct (negb (truthy (isActive slot))).
  { apply Pres_keeps; [exact I_slots|]. repeat keeps_step. }
  apply Pres_same_bind; [|intros now].
  { apply Pres_keeps; [exact I_slots|]. repeat keeps_step. }
  cbv zeta.
  destruct (lookupTier (shopType slot)) as [cfg|fname|].
  2:{ apply Pres_keeps; [exact I_slots|].
      apply KeepsSlots_bind; [|intros _; repeat keeps_step].
      intros w. reflexivity. }
  2:{ apply Pres_keeps; [exact I_slots|]. repeat keeps_step. }
  apply Pres_same_bind; [|intros recent].
  { apply Pres_keeps; [exact I_slots|]. repeat keeps_step. }
  destruct (pingsPerCooldown cfg <=? List.length recent)%nat.
  - apply Pres_same_bind; [|intros _].
    { apply Pres_keeps; [exact I_slots|]. repeat keeps_step. }
    apply Pres_same_bind; [apply Pres_revoke|intros _].
    apply Pres_same_bind; [apply Pres_deactivate|intros _].
    apply Pres_keeps; [exact I_slots|].
    apply KeepsSlots_ReadOnly. repeat effects_step.
  - apply Pres_keeps; [exact I_slots|].
    apply KeepsSlots_bind; [|intros _; repeat keeps_step].
    intros w. reflexivity.
Qed.

Lemma expireEach_Pres l : Pres I I (expireEach E l).
Proof.
  induction l as [|slot l IH]; simpl.
  - apply Pres_keeps; [exact I_slots|]. repeat keeps_step.
  - apply Pres_same_bind; [|intros _; exact IH].
    unfold expireOne.
    apply Pres_same_bind; [apply Pres_revoke|intros _].
    apply Pres_same_bind; [apply Pres_deactivate|intros _].
    apply Pres_keeps; [exact I_slots|]. repeat keeps_step.
Qed.

Lemma checkExpiration_Pres : Pres I I (checkExpiration E).
Proof.
  unfold checkExpiration.
  apply Pres_try.
  2:{ apply Pres_keeps; [exact I_slots|]. repeat keeps_step. }
  apply Pres_same_bind; [|intros l; apply expireEach_Pres].
  apply Pres_keeps; [exact I_slots|].
  apply KeepsSlots_ReadOnly. unfold getExpiredSlots. repeat effects_step.
Qed.

End BotInvariant.

Lemma updateSlot_deactivation_atMostOneActive st k :
  atMostOneActive st ->
  atMostOneActive (snd (Storage.updateSlot k deactivation st)).
Proof.
  intros Hone d. specialize (Hone d). unfold activeCount in *.
  destruct (JsMap.get k (slots st)) as [s|] eqn:Hget.
  - rewrite (updateSlot_present _ deactivation _ Hget). simpl.
    pose proof (JsMapFacts.filter_values_set
                  (activeFor d) k (spread s deactivation) (slots st)) as Hle.
    replace (activeFor d (spread s deactivation)) with false in Hle.
    + lia.
    + unfold activeFor. simpl. symmetry. apply andb_false_r.
  - rewrite (updateSlot_absent _ deactivation _ Hget). exact Hone.
Qed.

(** X12: the four bot handlers - grant, remove, ping monitoring and the
    expiration tick - keep the invariant that every holder has at most
    one active slot, whatever the collaborator answers and wherever the
    handler stops. *)
Theorem bot_keeps_one_active (E : Environment) (w : World)
        (Hone : atMostOneActive (storage w)) :
  (forall i, atMostOneActive (storage (snd (handleSlotAdd E i w)))) /\
  (forall i, atMostOneActive (storage (snd (handleSlotRemove E i w)))) /\
  (forall message,
      atMostOneActive (storage (snd (handleEveryonePing E message w)))) /\
  atMostOneActive (storage (snd (checkExpiration E w))).
Proof.
  pose proof atMostOneActive_SlotsOnly as Hs.
  pose proof updateSlot_deactivation_atMostOneActive as Hd.
  split; [|split; [|split]].
  - intros i. apply handleSlotAdd_atMostOneActive. exact Hone.
  - intros i. apply (@handleSlotRemove_Pres E _ Hs Hd i w Hone).
  - intros m. apply (@handleEveryonePing_Pres E _ Hs Hd m w Hone).
  - apply (@checkExpiration_Pres E _ Hs Hd w Hone).
Qed.

Lemma bot_keeps_one_active_witness :
  atMostOneActive (storage sampleWorld) /\
  atMostOneActive (storage (snd (handleSlotAdd downEnv aliceGrant
                                               sampleWorld))) /\
  atMostOneActive (storage (snd (checkExpiration downEnv sampleWorld))).
Proof.
  pose proof (@bot_keeps_one_active downEnv sampleWorld
                                    sampleStore_atMostOneActive)
    as [Hadd [_ [_ Hsweep]]].
  split; [exact sampleStore_atMostOneActive|].
  split; [apply Hadd | exact Hsweep].
Defined.

(** X13: the bot handlers and [POST /api/slots] keep every slot record
    under its own id, and so does [PATCH /api/slots/:id] for a body
    without an [id] field. *)
Theorem records_stay_under_their_id (E : Environment) (w : World)
        (Hwf : wellKeyed (storage w)) :
  (forall i, wellKeyed (storage (snd (handleSlotAdd E i w)))) /\
  (forall i, wellKeyed (storage (snd (handleSlotRemove E i w)))) /\
  (forall message, wellKeyed (storage (snd (handleEveryonePing E message w))))
  /\
  wellKeyed (storage (snd (checkExpiration E w))) /\
  (forall body, wellKeyed (storage (snd (postSlots E body w)))) /\
  (forall k updates,
      p_id updates = None ->
      wellKeyed (storage (snd (patchSlot k updates w)))).
Proof.
  pose proof wellKeyed_SlotsOnly as Hs.
  assert (Hd : forall st k,
             wellKeyed st ->
             wellKeyed (snd (Storage.updateSlot k deactivation st)))
    by (intros st k; apply updateSlot_deactivation_wellKeyed).
  split; [|split; [|split; [|split; [|split]]]].
  - intros i. apply handleSlotAdd_wellKeyed. exact Hwf.
  - intros i. apply (@handleSlotRemove_Pres E _ Hs Hd i w Hwf).
  - intros m. apply (@handleEveryonePing_Pres E _ Hs Hd m w Hwf).
  - apply (@checkExpiration_Pres E _ Hs Hd w Hwf).
  - intros body. apply postSlots_wellKeyed. exact Hwf.
  - intros k updates Hid.
    unfold patchSlot, try_catch, bind, updateSlot, update.
    destruct (JsMap.get k (slots (storage w))) as [s|] eqn:Hget.
    + rewrite (updateSlot_present _ updates _ Hget). simpl.
      destruct Hwf as [Hok Hkey]. split.
      * apply JsMapFacts.ok_set. exact Hok.
      * intros k' s' Hin. apply JsMapFacts.In_set in Hin.
        destruct Hin as [Heq|Hin]; [|apply Hkey; exact Hin].
        inversion Heq; subst. simpl. rewrite Hid. simpl.
        apply Hkey. apply JsMapFacts.get_In. exact Hget.
    + rewrite (updateSlot_absent _ updates _ Hget). exact Hwf.
Qed.

Lemma records_stay_under_their_id_witness :
  wellKeyed (storage sampleWorld) /\
  wellKeyed (storage (snd (patchSlot "s1" deactivation sampleWorld))).
Proof.
  assert (Hwf : wellKeyed (storage sampleWorld)) by concrete_wellKeyed.
  split; [exact Hwf|].
  destruct (@records_stay_under_their_id calmEnv sampleWorld Hwf)
    as [_ [_ [_ [_ [_ Hpatch]]]]].
  apply Hpatch. reflexivity.
Defined.

(** ** The grant command and failures of the collaborator *)

Section GuardedClosure.
Variable E : Environment.

Lemma Quiet_ret {A} (a : A) : Quiet (ret a).
Proof.
  intros w. split; [reflexivity|]. exists [].
  split; [reflexivity|]. intros _ H. inversion H.
Qed.

Lemma Quiet_throw {A} : Quiet (@throw A).
Proof.
  intros w. split; [reflexivity|]. exists [].
  split; [reflexivity|]. intros _ H. inversion H.
Qed.

Lemma Quiet_gets {A} (f : MemStorage -> A) : Quiet (gets f).
Proof.
  intros w. split; [reflexivity|]. exists [].
  split; [reflexivity|]. intros _ H. inversion H.
Qed.

Lemma Quiet_readClock : Quiet (readClock E).
Proof.
  intros w. split; [reflexivity|]. exists [].
  split; [reflexivity|]. intros _ H. inversion H.
Qed.

Lemma Quiet_createUser u : Quiet (createUser E u).
Proof.
  intros w. split; [reflexivity|]. exists [].
  split; [reflexivity|]. intros _ H. inversion H.
Qed.

Lemma Quiet_external c : Quiet (external E c).
Proof.
  intros w. split.
  - unfold external. destruct (respond E (ticks w) c); reflexivity.
  - exists [Called c (respond E (ticks w) c)]. unfold external.
    destruct (respond E (ticks w) c) eqn:Hr; simpl;
      (split; [reflexivity|]); intros Hret Hex;
      try congruence; absurd_throw Hex.
Qed.

Lemma Quiet_bind {A B} (m : M A) (k : A -> M B) :
  Quiet m -> (forall a, Quiet (k a)) -> Quiet (bind m k).
Proof.
  intros Hm Hk w. unfold bind.
  destruct (Hm w) as [S1 [evs1 [H1 N1]]].
  destruct (m w) as [[a|] w1]; simpl in *.
  - destruct (Hk a w1) as [S2 [evs2 [H2 N2]]]. split; [congruence|].
    exists (evs2 ++ evs1). split.
    + rewrite H2, H1. apply app_assoc.
    + intros Hr Hex. apply Exists_app in Hex. destruct Hex as [Hex|Hex].
      * exact (N2 Hr Hex).
      * apply N1; [discriminate | exact Hex].
  - split; [exact S1|]. exists evs1. split; [exact H1|]. congruence.
Qed.

Lemma Guarded_Quiet {A} (m : M A) : Quiet m -> Guarded m.
Proof.
  intros Hm w. destruct (Hm w) as [S1 [evs [H1 _]]].
  exists evs. split; [exact H1 | intros _; exact S1].
Qed.

Lemma Guarded_Emits {A} (m : M A) : Emits notAuthThrow m -> Guarded m.
Proof.
  intros Hm w. destruct (Hm w) as [evs [H1 F1]].
  exists evs. split; [exact H1|]. intros Hex. exfalso.
  apply Exists_exists in Hex. destruct Hex as [e [Hin He]].
  rewrite Forall_forall in F1. exact (F1 e Hin He).
Qed.

Lemma Guarded_bind {A B} (m : M A) (k : A -> M B) :
  Quiet m -> (forall a, Guarded (k a)) -> Guarded (bind m k).
Proof.
  intros Hm Hk w. unfold bind.
  destruct (Hm w) as [S1 [evs1 [H1 N1]]].
  destruct (m w) as [[a|] w1]; simpl in *.
  - destruct (Hk a w1) as [evs2 [H2 G2]]. exists (evs2 ++ evs1). split.
    + rewrite H2, H1. apply app_assoc.
    + intros Hex. apply Exists_app in Hex. destruct Hex as [Hex|Hex].
      * rewrite (G2 Hex). exact S1.
      * exfalso. apply N1; [discriminate | exact Hex].
  - exists evs1. split; [exact H1 | intros _; exact S1].
Qed.

Lemma Guarded_try {A} (m h : M A) :
  Guarded m -> Emits notAuthThrow h -> KeepsSlots h ->
  Guarded (try_catch m h).
Proof.
  intros Hm He Hk w. unfold try_catch.
  destruct (Hm w) as [evs1 [H1 G1]].
  destruct (m w) as [[a|] w1]; simpl in *.
  - exists evs1. auto.
  - destruct (He w1) as [evs2 [H2 F2]]. exists (evs2 ++ evs1). split.
    + rewrite H2, H1. apply app_assoc.
    + intros Hex. rewrite Hk. apply G1.
      apply Exists_app in Hex. destruct Hex as [Hex|Hex]; [|exact Hex].
      exfalso. apply Exists_exists in Hex. destruct Hex as [e [Hin Hthrow]].
      rewrite Forall_forall in F2. exact (F2 e Hin Hthrow).
Qed.

End GuardedClosure.

Ltac quiet_step :=
  first
    [ progress unfold deref
    | apply Quiet_createUser
    | apply Quiet_external
    | apply Quiet_ret
    | apply Quiet_throw
    | apply Quiet_gets
    | apply Quiet_readClock
    | apply Quiet_bind; [| intros ?]
    | match goal with
      | |- Quiet (match ?x with _ => _ end) => destruct x
      | |- Quiet (if ?x then _ else _) => destruct x
      end ].

Ltac guarded_step :=
  first
    [ apply Guarded_Emits;
      solve [unfold notAuthThrow, createSlot; repeat emits_step]
    | apply Guarded_bind; [solve [repeat quiet_step] | intros ?]
    | match goal with
      | |- Guarded (match ?x with _ => _ end) => destruct x
      | |- Guarded (if ?x then _ else _) => destruct x
      end ].

(** X14: a grant stores no slot unless every call to the authorization
    collaborator went through: when one of them threw, the slots map is
    as it was before the command. *)
Theorem handleSlotAdd_no_slot_on_failure (E : Environment)
        (i : SlotAddInteraction) (w : World) :
  exists evs,
    trace (snd (handleSlotAdd E i w)) = evs ++ trace w /\
    (Exists isAuthThrow evs ->
     slots (storage (snd (handleSlotAdd E i w))) = slots (storage w)).
Proof.
  revert w. change (Guarded (handleSlotAdd E i)).
  unfold handleSlotAdd.
  apply Guarded_bind; [apply Quiet_external | intros _].
  destruct (sa_guild i).
  2:{ apply Guarded_Emits. unfold notAuthThrow. repeat emits_step. }
  apply Guarded_try.
  - repeat guarded_step.
  - unfold notAuthThrow. repeat emits_step.
  - repeat keeps_step.
Qed.

(** X15: the grant command never removes a role or a permission
    overwrite: what it added before a later step failed stays. *)
Theorem handleSlotAdd_never_revokes (E : Environment)
        (i : SlotAddInteraction) :
  Emits notRevoke (handleSlotAdd E i).
Proof.
  unfold handleSlotAdd, createUser, createSlot. repeat emits_step.
Qed.

Lemma expireEach_never_grants E l : Emits notGrant (expireEach E l).
Proof.
  induction l as [|slot l IH]; simpl.
  - apply Emits_ret.
  - apply Emits_bind; [|intros _; exact IH].
    unfold expireOne, revokeSlotPermissions, updateSlot.
    repeat emits_step.
Qed.

(** X16: the remove command, the ping monitoring and the expiration
    tick never add a role or a permission overwrite. *)
Theorem revoking_handlers_never_grant (E : Environment) :
  (forall i, Emits notGrant (handleSlotRemove E i)) /\
  (forall message, Emits notGrant (handleEveryonePing E message)) /\
  Emits notGrant (checkExpiration E).
Proof.
  split; [|split].
  - intros i.
    unfold handleSlotRemove, revokeSlotPermissions, updateSlot.
    repeat emits_step.
  - intros message.
    unfold handleEveryonePing, revokeSlotPermissions, updateSlot,
      createPingUsage.
    repeat emits_step.
  - unfold checkExpiration, getExpiredSlots.
    apply Emits_try; [|repeat emits_step].
    apply Emits_bind; [repeat emits_step|].
    intros l. apply expireEach_never_grants.
Qed.

(** Closes [exists evs, L = evs ++ t /\ Forall P evs] on an explicit
    trace [L] whose events have [P] by computation. *)
Ltac explicit_trace :=
  match goal with
  | |- exists evs, ?L = evs ++ ?t /\ _ =>
      let p := prefix_of L t in
      exists p; split; [reflexivity | repeat constructor]
  end.

(** X17: a grant for a holder who has an active slot changes nothing in
    the store and calls the authorization collaborator not once: no
    role is fetched or added, no channel is renamed. *)
Theorem handleSlotAdd_duplicate_untouched (E : Environment)
        (i : SlotAddInteraction) (w : World) (existing : Slot) :
  Storage.getSlotByDiscordUserId (du_id (sa_user i)) (storage w)
  = Some existing ->
  storage (snd (handleSlotAdd E i w)) = storage w /\
  exists evs,
    trace (snd (handleSlotAdd E i w)) = evs ++ trace w /\
    Forall notAuth evs.
Proof.
  intros Hfound. split; [apply (handleSlotAdd_duplicate E i w Hfound)|].
  unfold handleSlotAdd, try_catch, bind, gets, external, consoleError, ret.
  reduce_run.
  destruct (respond E (ticks w) DeferReply);
    reduce_run; try explicit_trace;
    (destruct (sa_guild i); reduce_run;
     [ rewrite Hfound; reduce_run
     | destruct (respond E (S (ticks w)) (EditReply ReplyServerOnly));
       reduce_run; explicit_trace ]);
    (destruct (respond E (S (ticks w)) (EditReply ReplyAlreadyHasSlot));
     reduce_run; try explicit_trace;
     destruct (respond E (S (S (ticks w))) (EditReply ReplyFailedCreate));
     reduce_run; explicit_trace).
Qed.

Lemma handleSlotAdd_duplicate_untouched_witness :
  Storage.getSlotByDiscordUserId (du_id (sa_user aliceGrant))
                                 (storage sampleWorld) = Some aliceSlot /\
  storage (snd (handleSlotAdd calmEnv aliceGrant sampleWorld))
  = storage sampleWorld.
Proof.
  split; [reflexivity|].
  apply (@handleSlotAdd_duplicate_untouched calmEnv aliceGrant sampleWorld
                                            aliceSlot eq_refl).
Defined.

(** ** The remove command *)

(** X18: the remove command for a holder without an active slot changes
    nothing in the store and calls the authorization collaborator not
    once. *)
Theorem handleSlotRemove_without_slot (E : Environment)
        (i : SlotRemoveInteraction) (w : World) :
  Storage.getSlotByDiscordUserId (du_id (sr_user i)) (storage w) = None ->
  storage (snd (handleSlotRemove E i w)) = storage w /\
  exists evs,
    trace (snd (handleSlotRemove E i w)) = evs ++ trace w /\
    Forall notAuth evs.
Proof.
  intros Hnone.
  unfold handleSlotRemove, try_catch, bind, gets, external, consoleError, ret.
  reduce_run.
  destruct (respond E (ticks w) DeferReply);
    reduce_run; try (split; [reflexivity | explicit_trace]);
    (destruct (sr_guild i); reduce_run;
     [ rewrite Hnone; reduce_run
     | destruct (respond E (S (ticks w)) (EditReply ReplyServerOnly));
       reduce_run; (split; [reflexivity | explicit_trace]) ]);
    (destruct (respond E (S (ticks w)) (EditReply ReplyNoActiveSlot));
     reduce_run; try (split; [reflexivity | explicit_trace]);
     destruct (respond E (S (S (ticks w))) (EditReply ReplyFailedRemove));
     reduce_run; (split; [reflexivity | explicit_trace])).
Qed.

Lemma handleSlotRemove_without_slot_witness :
  Storage.getSlotByDiscordUserId (du_id (sr_user removeAlice))
                                 (storage (world0 revokedStore)) = None /\
  storage (snd (handleSlotRemove downEnv removeAlice (world0 revokedStore)))
  = storage (world0 revokedStore).
Proof.
  split; [reflexivity|].
  apply (@handleSlotRemove_without_slot downEnv removeAlice
                                        (world0 revokedStore) eq_refl).
Defined.

(** Once the reply was deferred in a guild, the remove command writes
    [{ isActive: false }] to the slot it found, whatever any call
    answers afterwards. *)
Lemma handleSlotRemove_storage E i guildId slot w :
  sr_guild i = Some guildId ->
  respond E (ticks w) DeferReply <> Throws ->
  Storage.getSlotByDiscordUserId (du_id (sr_user i)) (storage w)
  = Some slot ->
  storage (snd (handleSlotRemove E i w))
  = snd (Storage.updateSlot (id slot) deactivation (storage w)).
Proof.
  intros Hguild Hdefer Hfound.
  unfold handleSlotRemove. unfold bind at 1.
  rewrite external_returns by exact Hdefer. rewrite Hguild.
  set (w1 := mkWorld _ _ _).
  unfold try_catch. unfold bind at 1. unfold gets at 1.
  cbn [storage w1]. rewrite Hfound.
  destruct (revoke_run E guildId slot w1) as [w2 [Hrun [Hst2 _]]].
  unfold bind at 1. rewrite Hrun.
  unfold bind at 1. unfold updateSlot, update.
  rewrite Hst2. cbn [storage w1].
  destruct (Storage.updateSlot (id slot) deactivation (storage w))
    as [o st'].
  unfold bind, external, consoleError, ret. reduce_run.
  destruct (respond E (ticks w2) (EditReply ReplyRemoved));
    reduce_run; try reflexivity.
  destruct (respond E (S (ticks w2)) (EditReply ReplyFailedRemove));
    reflexivity.
Qed.

(** X19: after the remove command ran for a holder with an active slot,
    the holder has no active slot left, whatever the collaborator
    answered: a later grant for the same holder is not refused as a
    duplicate. The store is one with at most one active slot per holder
    and every record under its own id; the command came from a guild and
    its reply was deferred. *)
Theorem handleSlotRemove_frees_holder (E : Environment)
        (i : SlotRemoveInteraction) (guildId : string) (slot : Slot)
        (w : World) :
  wellKeyed (storage w) ->
  atMostOneActive (storage w) ->
  sr_guild i = Some guildId ->
  respond E (ticks w) DeferReply <> Throws ->
  Storage.getSlotByDiscordUserId (du_id (sr_user i)) (storage w)
  = Some slot ->
  let st' := storage (snd (handleSlotRemove E i w)) in
  Storage.getSlotByDiscordUserId (du_id (sr_user i)) st' = None /\
  Storage.getSlot (id slot) st' = Some (deactivated slot).
Proof.
  intros Hwf Hone Hguild Hdefer Hfound. cbv zeta.
  rewrite (handleSlotRemove_storage E i w Hguild Hdefer Hfound).
  split.
  - apply deactivate_found_none; assumption.
  - apply updateSlot_deactivates; [exact Hwf|].
    apply (found_active _ _ Hfound).
Qed.

Lemma handleSlotRemove_frees_holder_witness :
  wellKeyed (storage sampleWorld) /\
  atMostOneActive (storage sampleWorld) /\
  Storage.getSlotByDiscordUserId
    "d1" (storage (snd (handleSlotRemove downEnv removeAlice sampleWorld)))
  = None.
Proof.
  assert (Hwf : wellKeyed (storage sampleWorld)) by concrete_wellKeyed.
  split; [exact Hwf|]. split; [exact sampleStore_atMostOneActive|].
  apply (@handleSlotRemove_frees_holder
           downEnv removeAlice "guild-1" aliceSlot sampleWorld
           Hwf sampleStore_atMostOneActive eq_refl).
  - simpl. discriminate.
  - reflexivity.
Defined.

(** ** The expiration tick and the ping monitoring *)

Lemma deactivateAll_none_expired now st :
  wellKeyed st ->
  Storage.getExpiredSlots
    now (deactivateAll (Storage.getExpiredSlots now st) st) = [].
Proof.
  intros Hwf.
  set (batch := Storage.getExpiredSlots now st).
  set (st' := deactivateAll batch st).
  assert (Hwf' : wellKeyed st') by (apply deactivateAll_wellKeyed; exact Hwf).
  destruct (deactivateAll_expired now Hwf) as [Hdead Hother].
  fold batch in Hdead, Hother. fold st' in Hdead, Hother.
  destruct (Storage.getExpiredSlots now st') as [|s' rest] eqn:Hexp;
    [reflexivity|].
  exfalso.
  assert (Hin : In s' (Storage.getExpiredSlots now st'))
    by (rewrite Hexp; left; reflexivity).
  pose proof (expired_is_active _ _ _ Hin) as [Hval Hact].
  pose proof (wellKeyed_get _ Hwf' Hval) as Hget.
  destruct (in_dec string_dec (id s') (map id batch)) as [Hb|Hnb].
  - apply in_map_iff in Hb. destruct Hb as [s [Hid Hs]].
    rewrite <- Hid, (Hdead s Hs) in Hget. inversion Hget; subst s'.
    simpl in Hact. discriminate.
  - rewrite (Hother _ Hnb) in Hget.
    apply Hnb. apply in_map. unfold batch.
    apply getExpiredSlots_in. apply getExpiredSlots_in in Hin.
    destruct Hin as [_ Hrest]. split; [|exact Hrest].
    apply JsMapFacts.values_In. exists (id s').
    apply JsMapFacts.get_In. exact Hget.
Qed.

(** X20: after a tick of the expiration checker no slot of the store is
    both active and past its expiry, for the time the tick read and for
    every behaviour of the collaborator; users and pings are as before.
    The store is one with every record under its own id. *)
Theorem checkExpiration_leaves_none_expired (E : Environment) (w : World) :
  wellKeyed (storage w) ->
  let st' := storage (snd (checkExpiration E w)) in
  Storage.getExpiredSlots (clock E (ticks w)) st' = [] /\
  users st' = users (storage w) /\
  pingUsage st' = pingUsage (storage w).
Proof.
  intros Hwf. cbv zeta.
  destruct (checkExpiration_run E w) as [w' [Hrun [_ [Hst _]]]].
  rewrite Hrun. simpl. rewrite Hst.
  split; [apply deactivateAll_none_expired; exact Hwf|].
  destruct (deactivateAll_frame
              (Storage.getExpiredSlots (clock E (ticks w)) (storage w))
              (storage w)) as [Hu [Hp _]].
  auto.
Qed.

Lemma checkExpiration_leaves_none_expired_witness :
  wellKeyed (storage sweepWorld) /\
  Storage.getExpiredSlots (clock downEnv 0) sweepStore
  = [bobSlot; carolSlot] /\
  Storage.getExpiredSlots
    (clock downEnv 0) (storage (snd (checkExpiration downEnv sweepWorld)))
  = [].
Proof.
  assert (Hwf : wellKeyed (storage sweepWorld)) by concrete_wellKeyed.
  split; [exact Hwf|]. split; [reflexivity|].
  apply (@checkExpiration_leaves_none_expired downEnv sweepWorld Hwf).
Defined.

(** X21: a broadcast attempt writes to no slot but the one found for
    its author, and to no user record: whatever its outcome, every
    other slot id holds what it held before. *)
Theorem handleEveryonePing_touches_offender_only (E : Environment)
        (message : Message) (w : World) (k : string) :
  (forall slot,
      Storage.getSlotByDiscordUserId (m_author message) (storage w)
      = Some slot -> id slot <> k) ->
  let st' := storage (snd (handleEveryonePing E message w)) in
  Storage.getSlot k st' = Storage.getSlot k (storage w) /\
  users st' = users (storage w).
Proof.
  intros Hother. cbv zeta.
  destruct (Storage.getSlotByDiscordUserId (m_author message) (storage w))
    as [slot|] eqn:Hfound.
  2:{ rewrite (ping_ignored_run E message w Hfound). auto. }
  specialize (Hother slot eq_refl).
  destruct (lookupTier (shopType slot)) as [cfg|fname|] eqn:Hlook.
  2:{ rewrite (ping_inherited_run E message w Hfound Hlook). auto. }
  2:{ rewrite (ping_unknownTier_run E message w Hfound Hlook). auto. }
  pose proof (lookupTier_own_inv _ Hlook) as Hcfg.
  destruct (le_lt_dec (pingsPerCooldown cfg)
                      (List.length (recentPings E slot cfg w)))
    as [Hover|Hunder].
  2:{ rewrite (ping_allowed_run E message w Hfound Hcfg Hunder). auto. }
  destruct (ping_overLimit_run E message w Hfound Hcfg Hover)
    as [Hthrow Hok].
  destruct (response_eq_dec
              (respond E (S (ticks w)) (MessageDelete (m_id message)))
              Throws) as [Heq|Hne].
  - rewrite (Hthrow Heq). auto.
  - destruct (Hok Hne) as [w' [Hrun [Hst _]]]. rewrite Hrun. simpl.
    rewrite Hst. unfold Storage.getSlot. split.
    + apply updateSlot_get_other. exact Hother.
    + apply updateSlot_frame.
Qed.

Lemma handleEveryonePing_touches_offender_only_witness :
  (forall slot,
      Storage.getSlotByDiscordUserId (m_author aliceMessage)
                                     (storage sampleWorld)
      = Some slot -> id slot <> "s2") /\
  Storage.getSlot
    "s2" (storage (snd (handleEveryonePing downEnv aliceMessage sampleWorld)))
  = Some bobSlot.
Proof.
  assert (H : forall slot,
             Storage.getSlotByDiscordUserId (m_author aliceMessage)
                                            (storage sampleWorld)
             = Some slot -> id slot <> "s2").
  { intros slot Hf. vm_compute in Hf. inversion Hf. simpl. discriminate. }
  split; [exact H|].
  destruct (@handleEveryonePing_touches_offender_only
              downEnv aliceMessage sampleWorld "s2" H) as [Hslot _].
  rewrite Hslot. reflexivity.
Defined.

(** ** Granting and removing with a collaborator that answers *)

Lemma revoke_responsive_run E guildId slot role w :
  responsive E ->
  roleId slot = Some role -> nonEmpty role = true ->
  revokeSlotPermissions E guildId slot w =
  (Ret tt,
   mkWorld (storage w)
           ([Called (SetName (channelId slot) (originalChannelName slot)) Done;
             Called (PermissionDelete (channelId slot) (discordUserId slot))
                    Done;
             Called (ChannelsFetch (channelId slot)) Done;
             Called (RolesRemove (discordUserId slot) role) Done;
             Called (MembersFetch (discordUserId slot)) Done;
             Called (RolesFetch role) Done;
             Called (GuildsFetch guildId) Done] ++ trace w)
           (7 + ticks w)).
Proof.
  intros Hresp Hrole Hne.
  unfold revokeSlotPermissions, try_catch, bind, external, deref, ret.
  rewrite Hrole, Hne.
  repeat (rewrite Hresp; reduce_run). reflexivity.
Qed.

Lemma find_after_set (p : Slot -> bool) k v (m : JsMap.t Slot) :
  find p (JsMap.values m) = None -> p v = true ->
  find p (JsMap.values (JsMap.set k v m)) = Some v.
Proof.
  intros Hnone Hv. induction m as [|[k' v'] m IH]; simpl in *.
  - rewrite Hv. reflexivity.
  - destruct (p v') eqn:Hv'; [discriminate|].
    destruct (String.eqb k k'); simpl.
    + rewrite Hv. reflexivity.
    + rewrite Hv'. apply IH. exact Hnone.
Qed.

(** With a collaborator that answers every call, a grant in a guild for
    a holder without active slot, of a tier of the table and with the
    role configured, stores a slot that keeps the channel, its name
    before the renaming and the role, and is the slot found for the
    holder afterwards. *)
Lemma handleSlotAdd_responsive_run E i guild cfg w :
  responsive E ->
  sa_guild i = Some guild ->
  Storage.getSlotByDiscordUserId (du_id (sa_user i)) (storage w) = None ->
  nonEmpty (orEmpty (SLOT_ROLE_ID E)) = true ->
  shopTypes (sa_shoptype i) = Some cfg ->
  exists w1 slot,
    handleSlotAdd E i w = (Ret tt, w1) /\
    Storage.getSlotByDiscordUserId (du_id (sa_user i)) (storage w1)
    = Some slot /\
    discordUserId slot = du_id (sa_user i) /\
    channelId slot = ch_id (sa_channel i) /\
    originalChannelName slot = ch_name (sa_channel i) /\
    roleId slot = Some (orEmpty (SLOT_ROLE_ID E)) /\
    exists evs,
      trace w1 = evs ++ trace w /\
      In (Called (SetName (ch_id (sa_channel i)) (newChannelName E (sa_user i)))
                 Done) evs.
Proof.
  intros Hresp Hguild Hnone Hrole Hcfg.
  assert (Hfind : forall k slot (st : MemStorage),
             slots st = slots (storage w) ->
             discordUserId slot = du_id (sa_user i) ->
             isActive slot = Some true ->
             Storage.getSlotByDiscordUserId
               (du_id (sa_user i))
               (mkStorage (users st) (JsMap.set k slot (slots st))
                          (pingUsage st)) = Some slot).
  { intros k slot st Hst Hd Ha. unfold Storage.getSlotByDiscordUserId.
    simpl. apply find_after_set.
    - rewrite Hst. exact Hnone.
    - rewrite Hd, String.eqb_refl, Ha. reflexivity. }
  pose proof (shopTypes_cases _ Hcfg) as Hc.
  unfold handleSlotAdd, createUser, createSlot, try_catch, bind, gets,
    external, randomUUID, readClock, update, deref, ret, Storage.createUser,
    Storage.createSlot.
  reduce_run. rewrite Hresp. reduce_run. rewrite Hguild. reduce_run.
  rewrite Hnone. reduce_run.
  destruct (Storage.getUserByDiscordId (du_id (sa_user i)) (storage w))
    as [u|]; reduce_run;
    rewrite Hrole; cbn [negb]; reduce_run;
    repeat (rewrite Hresp; reduce_run);
    rewrite (@lookupTier_own _ _ Hcfg); reduce_run;
    (destruct (duration cfg) as [d|] eqn:Hd;
     [ assert (Hz : (d =? 0) = false)
         by (apply Z.eqb_neq; unfold day_ms in Hc;
             destruct Hc as [[_ H]|[[_ H]|[[_ H]|[[_ H]|[_ H]]]]];
             inversion H; lia);
       rewrite Hz
     | ]);
    reduce_run;
    repeat (rewrite Hresp; reduce_run);
    (eexists; eexists; split; [reflexivity|];
     cbn [storage];
     split; [apply Hfind; reflexivity|];
     repeat (split; [reflexivity|]);
     cbn [trace];
     match goal with
     | |- exists evs, ?L = evs ++ ?t /\ _ =>
         let p := prefix_of L t in exists p; split; [reflexivity|]
     end;
     simpl; tauto).
Qed.

(** X22: granting and then removing restores the channel name. With a
    collaborator that answers every call, on a store with one active
    slot per holder at most and every record under its own id: a grant
    renames the channel, and the remove command for the same holder
    then takes the role, deletes the permission overwrite and sets the
    channel name back to the one the channel had before the grant,
    after which the holder has no active slot. *)
Theorem grant_then_remove_restores_name (E : Environment)
        (i : SlotAddInteraction) (r : SlotRemoveInteraction)
        (guild guild' : string) (cfg : ShopConfig) (w : World) :
  responsive E ->
  wellKeyed (storage w) ->
  atMostOneActive (storage w) ->
  sa_guild i = Some guild ->
  sr_guild r = Some guild' ->
  sr_user r = sa_user i ->
  Storage.getSlotByDiscordUserId (du_id (sa_user i)) (storage w) = None ->
  nonEmpty (orEmpty (SLOT_ROLE_ID E)) = true ->
  shopTypes (sa_shoptype i) = Some cfg ->
  exists w1 w2 evs1 evs2,
    handleSlotAdd E i w = (Ret tt, w1) /\
    trace w1 = evs1 ++ trace w /\
    In (Called (SetName (ch_id (sa_channel i)) (newChannelName E (sa_user i)))
               Done) evs1 /\
    handleSlotRemove E r w1 = (Ret tt, w2) /\
    trace w2 = evs2 ++ trace w1 /\
    In (Called (RolesRemove (du_id (sa_user i)) (orEmpty (SLOT_ROLE_ID E)))
               Done) evs2 /\
    In (Called (PermissionDelete (ch_id (sa_channel i)) (du_id (sa_user i)))
               Done) evs2 /\
    In (Called (SetName (ch_id (sa_channel i)) (ch_name (sa_channel i)))
               Done) evs2 /\
    Storage.getSlotByDiscordUserId (du_id (sa_user i)) (storage w2) = None.
Proof.
  intros Hresp Hwf Hone Hguild Hguild' Huser Hnone Hrole Hcfg.
  destruct (handleSlotAdd_responsive_run i w Hresp Hguild Hnone Hrole Hcfg)
    as [w1 [slot [Hadd [Hfound [Hd [Hch [Hname [Hrid [evs1 [Htr1 Hin1]]]]]]]]]].
  assert (Hwf1 : wellKeyed (storage w1)).
  { pose proof (handleSlotAdd_wellKeyed E i w Hwf) as H.
    rewrite Hadd in H. exact H. }
  assert (Hone1 : atMostOneActive (storage w1)).
  { pose proof (handleSlotAdd_atMostOneActive E i w Hone) as H.
    rewrite Hadd in H. exact H. }
  assert (Hfound' : Storage.getSlotByDiscordUserId (du_id (sr_user r))
                                                   (storage w1) = Some slot)
    by (rewrite Huser; exact Hfound).
  exists w1.
  unfold handleSlotRemove. unfold bind at 1.
  rewrite external_returns by (rewrite Hresp; discriminate).
  rewrite Hresp, Hguild'.
  unfold try_catch. unfold bind at 1. unfold gets at 1.
  reduce_run. rewrite Hfound'.
  unfold bind at 1.
  rewrite (revoke_responsive_run guild' slot _ Hresp Hrid Hrole).
  unfold bind at 1. unfold updateSlot, update. reduce_run.
  destruct (Storage.updateSlot (id slot) deactivation (storage w1))
    as [o st'] eqn:Hupd.
  unfold bind, external, ret. reduce_run. rewrite Hresp. reduce_run.
  eexists. exists evs1. eexists.
  split; [exact Hadd|]. split; [exact Htr1|]. split; [exact Hin1|].
  split; [reflexivity|]. cbn [trace storage app].
  split.
  { match goal with
    | |- ?L = _ ++ ?t =>
        let p := prefix_of L t in instantiate (1 := p); reflexivity
    end. }
  rewrite Hd, Hch, Hname.
  split; [simpl; tauto|]. split; [simpl; tauto|]. split; [simpl; tauto|].
  replace st' with (snd (Storage.updateSlot (id slot) deactivation
                                            (storage w1)))
    by (rewrite Hupd; reflexivity).
  apply deactivate_found_none; assumption.
Qed.

Lemma grant_then_remove_restores_name_witness :
  responsive calmEnv /\
  wellKeyed (storage (world0 Storage.empty)) /\
  atMostOneActive (storage (world0 Storage.empty)) /\
  exists w1 w2 evs2,
    handleSlotAdd calmEnv aliceGrant (world0 Storage.empty) = (Ret tt, w1) /\
    handleSlotRemove calmEnv removeAlice w1 = (Ret tt, w2) /\
    trace w2 = evs2 ++ trace w1 /\
    In (Called (SetName "c1" "general") Done) evs2.
Proof.
  assert (Hresp : responsive calmEnv) by (intros n c; reflexivity).
  assert (Hwf : wellKeyed (storage (world0 Storage.empty))).
  { split; [constructor | intros k s []]. }
  assert (Hone : atMostOneActive (storage (world0 Storage.empty))).
  { intros d. unfold activeCount. simpl. lia. }
  split; [exact Hresp|]. split; [exact Hwf|]. split; [exact Hone|].
  destruct (@grant_then_remove_restores_name
              calmEnv aliceGrant removeAlice "guild-1" "guild-1"
              (mkShopConfig "Level 1" (Some (7 * 24 * 60 * 60 * 1000))
                            (72 * 60 * 60 * 1000) 1)
              (world0 Storage.empty)
              Hresp Hwf Hone eq_refl eq_refl eq_refl eq_refl eq_refl eq_refl)
    as [w1 [w2 [evs1 [evs2 [Hadd [_ [_ [Hrem [Htr [_ [_ [Hname _]]]]]]]]]]]].
  exists w1, w2, evs2. auto.
Defined.

(** ** [GET /api/slots] and the status badge *)

Lemma mapSlots_run E l w :
  mapSlots E l w =
  (Ret (entriesFrom E (storage w) (ticks w) l),
   mkWorld (storage w) (trace w) (List.length l + ticks w)).
Proof.
  revert w. induction l as [|slot l IH]; intros w; simpl.
  - destruct w; reflexivity.
  - unfold bind at 1. unfold slotWithPings, slotEntry.
    unfold bind at 1. unfold readClock at 1. reduce_run.
    destruct (lookupTier (shopType slot)) as [cfg|fname|];
      unfold bind, gets, ret; reduce_run;
      rewrite IH; reduce_run; rewrite Nat.add_succ_r; reflexivity.
Qed.

Lemma allSome_all {A : Type} (l : list (option A)) :
  Forall (fun o => o <> None) l ->
  exists r, allSome l = Some r /\ map Some r = l.
Proof.
  induction l as [|[a|] l IH]; intros Hall.
  - exists []. auto.
  - inversion Hall; subst. destruct (IH H2) as [r [Hr Hm]].
    exists (a :: r). simpl. rewrite Hr, Hm. auto.
  - inversion Hall; subst. congruence.
Qed.

Lemma allSome_none {A : Type} (l : list (option A)) :
  In None l -> allSome l = None.
Proof.
  induction l as [|[a|] l IH]; simpl; intros Hin.
  - contradiction.
  - destruct Hin as [H|H]; [discriminate|]. rewrite (IH H). reflexivity.
  - reflexivity.
Qed.

Lemma entriesFrom_known E st n l :
  Forall (fun s => shopTypes (shopType s) <> None) l ->
  Forall (fun o => o <> None) (entriesFrom E st n l).
Proof.
  revert n. induction l as [|s l IH]; intros n Hall; simpl.
  - constructor.
  - inversion Hall; subst. constructor; [|apply IH; assumption].
    unfold slotEntry. unfold lookupTier.
    destruct (shopTypes (shopType s)); congruence.
Qed.

Lemma entriesFrom_unknown E st n l s :
  In s l -> lookupTier (shopType s) = NoTier ->
  In None (entriesFrom E st n l).
Proof.
  revert n. induction l as [|x l IH]; intros n Hin Hs; simpl.
  - contradiction.
  - destruct Hin as [<-|Hin].
    + left. unfold slotEntry. rewrite Hs. reflexivity.
    + right. apply IH; assumption.
Qed.

Lemma entriesFrom_slots E st n l r :
  map Some r = entriesFrom E st n l -> map swp_slot r = l.
Proof.
  revert n r. induction l as [|s l IH]; intros n r Hmap; simpl in Hmap.
  - destruct r; [reflexivity | discriminate].
  - destruct r as [|e r]; [discriminate|]. simpl in Hmap.
    inversion Hmap as [[He Hr]]. simpl. rewrite (IH (S n) r Hr).
    unfold slotEntry in He.
    destruct (lookupTier (shopType s)); inversion He; reflexivity.
Qed.

Lemma entriesFrom_sound E st n l r :
  Forall (fun s => shopTypes (shopType s) <> None) l ->
  map Some r = entriesFrom E st n l ->
  Forall (fun e =>
            exists cfg m,
              (n <= m)%nat /\
              shopTypes (shopType (swp_slot e)) = Some cfg /\
              swp_shopConfig e = Some cfg /\
              pingsAllowed e = Some (pingsPerCooldown cfg) /\
              pingsUsed e =
              List.length
                (Storage.getPingUsage (id (swp_slot e))
                                      (clock E m - pingCooldown cfg) st)) r.
Proof.
  revert n r. induction l as [|s l IH]; intros n r Hknown Hmap;
    simpl in Hmap.
  - destruct r; [constructor | discriminate].
  - destruct r as [|e r]; [discriminate|]. simpl in Hmap.
    inversion Hmap as [[He Hr]]. inversion Hknown as [|? ? Hs Hl]; subst.
    pose proof (IH (S n) r Hl Hr) as Hall.
    unfold slotEntry in He.
    destruct (shopTypes (shopType s)) as [cfg|] eqn:Hcfg; [|congruence].
    rewrite (@lookupTier_own _ _ Hcfg) in He.
    inversion He; subst e. constructor.
    + exists cfg, n. simpl. repeat split; auto.
    + eapply Forall_impl; [|exact Hall].
      intros e [cfg' [m [Hm Hrest]]]. exists cfg', m.
      split; [lia | exact Hrest].
Qed.

(** X23: when the tier of every active slot is in the table,
    [GET /api/slots] answers 200 with one element per active slot, in
    the order of the store, each with the quota of its tier as
    [pingsAllowed] and, as [pingsUsed], the number of pings of the slot
    used since a reading of the clock minus the tier's cooldown; it
    changes neither the store nor the trace. *)
Theorem getSlotsRoute_lists_active (E : Environment) (w : World) :
  Forall (fun s => shopTypes (shopType s) <> None)
         (Storage.getAllActiveSlots (storage w)) ->
  exists elements w',
    getSlotsRoute E w = (Ret (SlotsOk200 elements), w') /\
    storage w' = storage w /\ trace w' = trace w /\
    map swp_slot elements = Storage.getAllActiveSlots (storage w) /\
    Forall (fun e =>
              exists cfg m,
                (ticks w <= m)%nat /\
                shopTypes (shopType (swp_slot e)) = Some cfg /\
                swp_shopConfig e = Some cfg /\
                pingsAllowed e = Some (pingsPerCooldown cfg) /\
                pingsUsed e =
                List.length
                  (Storage.getPingUsage (id (swp_slot e))
                                        (clock E m - pingCooldown cfg)
                                        (storage w))) elements.
Proof.
  intros Hknown.
  destruct (allSome_all (entriesFrom_known E (storage w) (ticks w) Hknown))
    as [r [Hall Hmap]].
  pose proof (entriesFrom_slots E (storage w) (ticks w) _ r Hmap) as Hslots.
  pose proof (@entriesFrom_sound E (storage w) (ticks w) _ r Hknown Hmap)
    as Hsound.
  unfold getSlotsRoute, try_catch. unfold bind at 1. unfold gets at 1.
  unfold bind at 1. rewrite mapSlots_run. rewrite Hall.
  eexists. eexists. split; [reflexivity|]. simpl. auto.
Qed.

Lemma getSlotsRoute_lists_active_witness :
  Forall (fun s => shopTypes (shopType s) <> None)
         (Storage.getAllActiveSlots (storage sampleWorld)) /\
  exists elements w',
    getSlotsRoute calmEnv sampleWorld = (Ret (SlotsOk200 elements), w') /\
    map swp_slot elements = [aliceSlot; bobSlot].
Proof.
  assert (H : Forall (fun s => shopTypes (shopType s) <> None)
                     (Storage.getAllActiveSlots (storage sampleWorld))).
  { repeat constructor; simpl; discriminate. }
  split; [exact H|].
  destruct (@getSlotsRoute_lists_active calmEnv sampleWorld H)
    as [es [w' [Hrun [_ [_ [Hslots _]]]]]].
  exists es, w'. split; [exact Hrun | exact Hslots].
Defined.

(** X24: one active slot for whose tier name the lookup in the table
    gives [undefined] (the name is none of the five tiers and none of
    the names the table inherits, such as [constructor]) makes
    [GET /api/slots] fail as a whole: it answers 500, logs the error
    and lists no slot at all; the store is unchanged. *)
Theorem getSlotsRoute_fails_on_unknown_tier (E : Environment) (w : World)
        (s : Slot) :
  In s (Storage.getAllActiveSlots (storage w)) ->
  lookupTier (shopType s) = NoTier ->
  exists w',
    getSlotsRoute E w = (Ret SlotsError500, w') /\
    storage w' = storage w /\
    trace w' = LoggedError "Error getting slots:" :: trace w.
Proof.
  intros Hin Hs.
  pose proof (allSome_none _
                (entriesFrom_unknown E (storage w) (ticks w) _ s Hin Hs))
    as Hnone.
  unfold getSlotsRoute, try_catch. unfold bind at 1. unfold gets at 1.
  unfold bind at 1. rewrite mapSlots_run. rewrite Hnone.
  eexists. split; [reflexivity|]. simpl. auto.
Qed.

Lemma getSlotsRoute_fails_on_unknown_tier_witness :
  In oddSlot (Storage.getAllActiveSlots (storage (world0 oddStore))) /\
  lookupTier (shopType oddSlot) = NoTier /\
  exists w',
    getSlotsRoute calmEnv (world0 oddStore) = (Ret SlotsError500, w').
Proof.
  assert (Hin : In oddSlot
                   (Storage.getAllActiveSlots (storage (world0 oddStore))))
    by (simpl; right; left; reflexivity).
  split; [exact Hin|]. split; [reflexivity|].
  destruct (@getSlotsRoute_fails_on_unknown_tier
              calmEnv (world0 oddStore) oddSlot Hin eq_refl)
    as [w' [Hrun _]].
  exists w'. exact Hrun.
Defined.

(** X25: on the elements of a 200 answer of [GET /api/slots] the
    dashboard never shows the badge "Inactive", and it shows "Rate
    Limited" exactly for the slots that come with a quota and whose
    counted pings reach it. *)
Theorem getStatusBadge_on_listing (E : Environment) (w w' : World)
        (elements : list SlotWithPings) (e : SlotWithPings) :
  getSlotsRoute E w = (Ret (SlotsOk200 elements), w') ->
  In e elements ->
  Dashboard.getStatusBadge e <> Dashboard.BadgeInactive /\
  (Dashboard.getStatusBadge e = Dashboard.BadgeRateLimited <->
   exists allowed,
     pingsAllowed e = Some allowed /\ (allowed <= pingsUsed e)%nat).
Proof.
  intros Hrun Hin.
  assert (Hact : truthy (isActive (swp_slot e)) = true).
  { unfold getSlotsRoute, try_catch in Hrun. unfold bind at 1 in Hrun.
    unfold gets at 1 in Hrun. unfold bind at 1 in Hrun.
    rewrite mapSlots_run in Hrun.
    destruct (allSome _) as [r|] eqn:Hall; [|discriminate].
    inversion Hrun; subst r.
    assert (Hmap : map Some elements
                   = entriesFrom E (storage w) (ticks w)
                                 (Storage.getAllActiveSlots (storage w))).
    { clear -Hall. revert elements Hall.
      generalize (entriesFrom E (storage w) (ticks w)
                              (Storage.getAllActiveSlots (storage w))).
      induction l as [|[a|] l IH]; simpl; intros els Hall.
      - inversion Hall. reflexivity.
      - destruct (allSome l) as [r|]; [|discriminate].
        inversion Hall. simpl. rewrite (IH r eq_refl). reflexivity.
      - discriminate. }
    pose proof (entriesFrom_slots E _ _ _ _ Hmap) as Hslots.
    assert (Hs : In (swp_slot e) (Storage.getAllActiveSlots (storage w)))
      by (rewrite <- Hslots; apply in_map; exact Hin).
    unfold Storage.getAllActiveSlots in Hs. apply filter_In in Hs. tauto. }
  unfold Dashboard.getStatusBadge. rewrite Hact. simpl.
  destruct (pingsAllowed e) as [allowed|].
  - destruct (allowed <=? pingsUsed e)%nat eqn:Hle.
    + apply Nat.leb_le in Hle. split; [discriminate|].
      split; [intros _; exists allowed; auto | reflexivity].
    + apply Nat.leb_gt in Hle. split; [discriminate|]. split.
      * discriminate.
      * intros [a [[= <-] Ha]]. lia.
  - split; [discriminate|]. split.
    + discriminate.
    + intros [a [Ha _]]. discriminate.
Qed.

Lemma getStatusBadge_on_listing_witness :
  exists elements w' e,
    getSlotsRoute calmEnv sampleWorld = (Ret (SlotsOk200 elements), w') /\
    In e elements /\
    swp_slot e = aliceSlot /\
    Dashboard.getStatusBadge e = Dashboard.BadgeRateLimited.
Proof.
  eexists. eexists. eexists.
  split; [vm_compute; reflexivity|].
  split; [left; reflexivity|]. split; [reflexivity|].
  match goal with
  | |- Dashboard.getStatusBadge ?e = _ =>
      destruct (@getStatusBadge_on_listing
                  calmEnv sampleWorld
                  (snd (getSlotsRoute calmEnv sampleWorld))
                  [e; mkSlotWithPings
                        bobSlot 0 (Some 1%nat)
                        (Some (mkShopConfig "Level 1"
                                            (Some (7 * 24 * 60 * 60 * 1000))
                                            (72 * 60 * 60 * 1000) 1))]
                  e) as [_ Hiff]
  end.
  - vm_compute. reflexivity.
  - left. reflexivity.
  - apply Hiff. eexists. split; [reflexivity|]. simpl. lia.
Defined.

(** ** [/slotinfo] against the ping monitor *)

(** X26: for a holder with an active slot of a tier of the table,
    [/slotinfo] replies with the name of the tier, the expires-at of the
    slot, the pings counted since the clock reading minus the cooldown
    and the quota; its "Available now" is shown exactly when a mention
    by the holder at the same moment would be allowed and recorded by
    the ping monitor. *)
Theorem handleSlotInfo_agrees_with_monitor
        (E : Environment) (reply : SlotInfoReply -> M unit)
        (targetUser : DiscordUser) (message : Message)
        (slot : Slot) (cfg : ShopConfig) (w : World) :
  m_author message = du_id targetUser ->
  Storage.getSlotByDiscordUserId (du_id targetUser) (storage w)
  = Some slot ->
  shopTypes (shopType slot) = Some cfg ->
  let used := List.length (recentPings E slot cfg w) in
  let limited := (pingsPerCooldown cfg <=? used)%nat in
  handleSlotInfo E reply targetUser w =
  try_catch (reply (InfoSlot (name cfg) (expiresAt slot) used
                             (pingsPerCooldown cfg) limited))
            (consoleError "Error getting slot info:" ;;
             reply InfoFailed)
            (mkWorld (storage w) (trace w) (S (ticks w))) /\
  (limited = false <->
   fst (handleEveryonePing E message w) = Ret Allowed).
Proof.
  intros Hauthor Hfound Hcfg used limited. split.
  - unfold handleSlotInfo, try_catch. unfold bind at 1. unfold gets at 1.
    rewrite Hfound. reduce_run. unfold bind at 1. unfold readClock at 1.
    reduce_run. rewrite (@lookupTier_own _ _ Hcfg).
    unfold bind at 1. unfold gets at 1.
    reduce_run. reflexivity.
  - rewrite <- Hauthor in Hfound.
    subst limited. destruct (pingsPerCooldown cfg <=? used)%nat eqn:Hle.
    + apply Nat.leb_le in Hle. split; [discriminate|].
      destruct (@ping_overLimit_run E message slot cfg w Hfound Hcfg Hle)
        as [Hthrows Hnot].
      destruct (response_eq_dec
                  (respond E (S (ticks w)) (MessageDelete (m_id message)))
                  Throws) as [Heq|Hne].
      * rewrite (Hthrows Heq). discriminate.
      * destruct (Hnot Hne) as [w' [Hrun _]]. rewrite Hrun. discriminate.
    + apply Nat.leb_gt in Hle. split; [intros _|reflexivity].
      rewrite (@ping_allowed_run E message slot cfg w Hfound Hcfg Hle).
      reflexivity.
Qed.

Lemma handleSlotInfo_agrees_with_monitor_witness :
  handleSlotInfo calmEnv (fun _ => ret tt) aliceUser sampleWorld =
  (Ret tt, mkWorld sampleStore [] 1) /\
  fst (handleEveryonePing calmEnv aliceMessage sampleWorld) <> Ret Allowed.
Proof.
  destruct (@handleSlotInfo_agrees_with_monitor
              calmEnv (fun _ => ret tt) aliceUser aliceMessage aliceSlot
              (mkShopConfig "Level 3" (Some (30 * 24 * 60 * 60 * 1000))
                            (24 * 60 * 60 * 1000) 1)
              sampleWorld eq_refl eq_refl eq_refl) as [Hrun Hiff].
  split.
  - rewrite Hrun. reflexivity.
  - intros Hallowed. apply Hiff in Hallowed. vm_compute in Hallowed.
    discriminate.
Defined.

(** ** The [messageCreate] listener *)

Lemma prefix_spec (n h : string) :
  String.prefix n h = true <-> exists post, h = (n ++ post)%string.
Proof.
  revert h. induction n as [|c n IH]; intros h; simpl.
  - split; [intros _; exists h; reflexivity | destruct h; reflexivity].
  - destruct h as [|c' h].
    + split; [discriminate | intros [post Hpost]; discriminate].
    + simpl. destruct (Ascii.ascii_dec c c') as [->|Hne].
      * rewrite IH. split; intros [post Hpost]; exists post.
        -- rewrite Hpost. reflexivity.
        -- inversion Hpost. reflexivity.
      * split; [discriminate|]. intros [post Hpost].
        inversion Hpost. congruence.
Qed.

Lemma includes_spec (n h : string) :
  includes n h = true <->
  exists pre post, h = (pre ++ n ++ post)%string.
Proof.
  induction h as [|c h IH].
  - cbn [includes]. rewrite Bool.orb_false_r. rewrite prefix_spec. split.
    + intros [post Hpost]. exists EmptyString, post. exact Hpost.
    + intros [pre [post Hpost]].
      destruct pre; [exists post; exact Hpost | discriminate].
  - cbn [includes]. rewrite Bool.orb_true_iff, prefix_spec, IH. split.
    + intros [[post Hpost]|[pre [post Hpost]]].
      * exists EmptyString, post. exact Hpost.
      * exists (String c pre), post. simpl. rewrite Hpost. reflexivity.
    + intros [pre [post Hpost]]. destruct pre as [|c' pre].
      * left. exists post. exact Hpost.
      * right. exists pre, post. simpl in Hpost. inversion Hpost.
        reflexivity.
Qed.

Lemma handleEveryonePing_Returns E message :
  Returns (handleEveryonePing E message).
Proof.
  unfold handleEveryonePing. apply Returns_try. intros w. discriminate.
Qed.

(** X27: the listener leaves the world as it is (no call, no log, no
    write, no reading of the clock) for a message of a bot and for a
    message whose content holds neither [@everyone] nor [@here]. *)
Theorem onMessageCreate_skips (E : Environment) (m : IncomingMessage)
        (w : World) :
  im_authorIsBot m = true \/
  ((forall pre post, im_content m <> (pre ++ "@everyone" ++ post)%string) /\
   (forall pre post, im_content m <> (pre ++ "@here" ++ post)%string)) ->
  onMessageCreate E m w = (Ret tt, w).
Proof.
  intros [Hbot|[Hevery Hhere]]; unfold onMessageCreate.
  - rewrite Hbot. reflexivity.
  - destruct (im_authorIsBot m); [reflexivity|].
    destruct (includes "@everyone" (im_content m)) eqn:H1.
    { apply includes_spec in H1. destruct H1 as [pre [post H1]].
      exfalso. exact (Hevery pre post H1). }
    destruct (includes "@here" (im_content m)) eqn:H2.
    { apply includes_spec in H2. destruct H2 as [pre [post H2]].
      exfalso. exact (Hhere pre post H2). }
    reflexivity.
Qed.

Lemma onMessageCreate_skips_witness :
  onMessageCreate downEnv (mkIncoming aliceMessage true "@everyone sale")
                  sampleWorld
  = (Ret tt, sampleWorld).
Proof.
  apply (@onMessageCreate_skips
           downEnv (mkIncoming aliceMessage true "@everyone sale")
           sampleWorld).
  left. reflexivity.
Defined.

(** X28: a message of a user whose content holds [@everyone] or [@here]
    anywhere is handed to the ping monitor, and the listener returns
    with the world the monitor leaves; it does not throw. *)
Theorem onMessageCreate_monitors (E : Environment) (m : IncomingMessage)
        (w : World) (pre post : string) :
  im_authorIsBot m = false ->
  im_content m = (pre ++ "@everyone" ++ post)%string \/
  im_content m = (pre ++ "@here" ++ post)%string ->
  onMessageCreate E m w =
  (Ret tt, snd (handleEveryonePing E (im_message m) w)).
Proof.
  intros Hbot Hmention. unfold onMessageCreate. rewrite Hbot.
  assert (Hinc : includes "@everyone" (im_content m)
                 || includes "@here" (im_content m) = true).
  { apply Bool.orb_true_iff.
    destruct Hmention as [H|H]; [left|right];
      apply includes_spec; exists pre, post; exact H. }
  rewrite Hinc. unfold bind.
  pose proof (handleEveryonePing_Returns E (im_message m) w) as Hret.
  destruct (handleEveryonePing E (im_message m) w) as [[signal|] w1];
    [reflexivity | exfalso; apply Hret; reflexivity].
Qed.

Lemma onMessageCreate_monitors_witness :
  exists w',
    onMessageCreate calmEnv
                    (mkIncoming aliceMessage false "big sale @here now")
                    sampleWorld
    = (Ret tt, w') /\
    JsMap.get "s1" (slots (storage w'))
    = Some (spread aliceSlot deactivation).
Proof.
  eexists. split.
  - apply (@onMessageCreate_monitors
             calmEnv (mkIncoming aliceMessage false "big sale @here now")
             sampleWorld "big sale " " now" eq_refl).
    right. reflexivity.
  - vm_compute. reflexivity.
Defined.

(** ** Dashboard helpers *)

(** X29: for an expires-at in the future the dashboard shows a whole
    number of days when at least one day is left, and otherwise a
    number of hours between 0 and 23; the number is the remaining time
    rounded down to the unit, the text is red for at most two days, and
    the unit is plural above one. *)
Theorem formatTimeRemaining_bounds (now expires : Date) :
  now < expires ->
  match Dashboard.formatTimeRemaining now (Some expires) with
  | Dashboard.DaysLeft days plural red =>
      1 <= days /\
      days * day_ms <= expires - now < (days + 1) * day_ms /\
      (red = true <-> days <= 2) /\ (plural = true <-> 1 < days)
  | Dashboard.HoursLeft hours plural =>
      0 <= hours < 24 /\
      hours * hour_ms <= expires - now < (hours + 1) * hour_ms /\
      (plural = true <-> 1 < hours)
  | _ => False
  end.
Proof.
  intros Hlt. unfold Dashboard.formatTimeRemaining, day_ms, hour_ms.
  change (1000 * 60 * 60 * 24) with 86400000.
  change (1000 * 60 * 60) with 3600000.
  change (24 * 60 * 60 * 1000) with 86400000.
  change (60 * 60 * 1000) with 3600000.
  cbv zeta.
  destruct (expires - now <=? 0) eqn:Hdiff; [apply Z.leb_le in Hdiff; lia|].
  apply Z.leb_gt in Hdiff.
  pose proof (Z.div_mod (expires - now) 86400000 ltac:(lia)) as Hd.
  pose proof (Z.mod_pos_bound (expires - now) 86400000 ltac:(lia)) as Hdb.
  set (diff := expires - now) in *.
  set (days := diff / 86400000) in *.
  set (r := diff mod 86400000) in *.
  pose proof (Z.div_mod r 3600000 ltac:(lia)) as Hh.
  pose proof (Z.mod_pos_bound r 3600000 ltac:(lia)) as Hhb.
  set (hours := r / 3600000) in *.
  set (r' := r mod 3600000) in *.
  destruct (0 <? days) eqn:Hdays.
  - apply Z.ltb_lt in Hdays.
    rewrite Z.leb_le, Z.ltb_lt. repeat split; try lia; auto.
  - apply Z.ltb_ge in Hdays.
    rewrite Z.ltb_lt.
    assert (0 <= days) by (subst days; apply Z.div_pos; lia).
    repeat split; try lia; auto.
Qed.

Lemma formatTimeRemaining_bounds_witness :
  Dashboard.formatTimeRemaining 1000 (Some (1000 + 3 * day_ms + 5))
  = Dashboard.DaysLeft 3 true false /\
  3 * day_ms <= (1000 + 3 * day_ms + 5) - 1000 < (3 + 1) * day_ms.
Proof.
  pose proof (@formatTimeRemaining_bounds 1000 (1000 + 3 * day_ms + 5)
                ltac:(unfold day_ms; lia)) as H.
  split; [reflexivity|].
  change (Dashboard.formatTimeRemaining 1000 (Some (1000 + 3 * day_ms + 5)))
    with (Dashboard.DaysLeft 3 true false) in H.
  cbv beta iota in H. destruct H as [_ [H _]]. exact H.
Defined.

(** X30: the dashboard's table of durations agrees with the server's
    table of tiers: for every tier of the server the dashboard knows
    the same duration, and the expires-at it sends with a new slot is
    [null] for a lifetime tier and the moment of the request plus the
    server's duration otherwise. *)
Theorem dashboard_durations_agree (now : Date) (tier : string)
        (cfg : ShopConfig) :
  shopTypes tier = Some cfg ->
  Dashboard.getShopTypeDuration tier = Some (duration cfg) /\
  Dashboard.mutationExpiresAt now tier
  = option_map (fun d => now + d) (duration cfg).
Proof.
  intros Hcfg.
  destruct (shopTypes_cases _ Hcfg)
    as [[-> Hd]|[[-> Hd]|[[-> Hd]|[[-> Hd]|[-> Hd]]]]];
    rewrite Hd; split; reflexivity.
Qed.

Lemma dashboard_durations_agree_witness :
  Dashboard.mutationExpiresAt 1000 "level2" = Some (1000 + 14 * day_ms).
Proof.
  destruct (@dashboard_durations_agree
              1000 "level2"
              (mkShopConfig "Level 2" (Some (14 * 24 * 60 * 60 * 1000))
                            (48 * 60 * 60 * 1000) 1)
              eq_refl) as [_ H].
  exact H.
Defined.
